(** * CommentParser: the polling and deduplication engine

    A shallow embedding of [main.py] (class [CommentMonitor]: the dedup and
    window filter, the per-source task, the cycle), of the retry loops of the
    three adapters ([vk_parser.py], [reddit_parser.py], [youtube_parser.py])
    and of the YouTube adapter's quota path, followed by the properties of
    the filter, of the orchestration and of the retry discipline.

    Conventions.
    - A Python [datetime] is a number of microseconds on the wall clock
      (counted from the Unix epoch) together with an optional UTC offset.
    - A Python [dict] keyed by strings is a [gmap string _]; a [set] of
      strings is a [gset string].
    - Logging, the console, the Telegram sink and the state file are explicit
      fields of the monitor state: every call appends one record.
    - The network is an argument: what an adapter's [get_comments] does in a
      cycle, or the outcome of each attempt of each request.
    - The tasks of one cycle are taken in the order of [self.parsers]. *)

From stdpp Require Import gmap strings list fin_maps sorting.
From Stdlib Require Import ZArith Lia.

Open Scope string_scope.
Open Scope list_scope.

(** ** Data model *)

(** [datetime]: naive (no [tzinfo]) or aware (with a fixed UTC offset), both
    in microseconds. *)
Inductive datetime :=
  | Naive (wall : Z)
  | Aware (wall : Z) (utcoffset : Z).

(** [datetime.min] and [datetime.max] (years 1 to 9999), in microseconds
    from the Unix epoch. *)
Definition datetime_min : Z := -62135596800000000.
Definition datetime_max : Z := 253402300799999999.

Definition in_datetime_range (t : Z) : bool :=
  ((datetime_min <=? t) && (t <=? datetime_max))%Z.

(** Lines 536-541 of [main.py]: a zone-aware timestamp is converted with
    [astimezone(tz.utc).replace(tzinfo=None)], a naive one is taken as it
    is. [None] stands for the exception [astimezone] raises when the UTC
    value leaves the range of [datetime]. *)
Definition to_naive_utc (ts : datetime) : option Z :=
  match ts with
  | Naive w => Some w
  | Aware w off =>
      let u := (w - off)%Z in
      if in_datetime_range u then Some u else None
  end.

(** class [Comment] ([vk_parser.py], lines 14-21). *)
Record Comment := mkComment {
  author : string;
  text : string;
  source : string;
  timestamp : datetime;
  source_url : string
}.

(** ** Logging, console and sink *)

Inductive LogMsg :=
  | MsgSkippedBeforeStart (parser_name who : string) (comment_time : Z)
  | MsgCompareError (parser_name : string)
  | MsgSkippedTotal (parser_name : string) (skipped : nat)
  | MsgFirstRunSkip (parser_name : string)
  | MsgFirstParserRun (parser_name : string)
  | MsgKnownCount (parser_name : string) (known : nat)
  | MsgAlreadyProcessed (parser_name who : string)
  | MsgSummary (parser_name : string) (found after_start fresh known : nat)
  | MsgLimited (parser_name : string) (shown total : nat)
  | MsgFoundNew (parser_name : string) (total : nat)
  | MsgNoComments (parser_name : string)
  | MsgQuotaCaught (error_msg : string)
  | MsgCallingSendError (parser_name : string)
  | MsgSendErrorDone (parser_name : string)
  | MsgCheckFailed (error_msg : string)
  | MsgChecking
  | MsgNoParsers
  | MsgStatistics (cycles found sent failed : nat)
  | MsgFirstRunDone.

Inductive LogLevel := LvDebug | LvInfo | LvWarning | LvError.

Definition LogRecord : Type := LogLevel * LogMsg.

(** What [print] receives in [_check_single_parser]. *)
Inductive ConsoleOut :=
  | OutReport (parser_name : string) (new_comments : list Comment)
  | OutQuota (parser_name error_msg : string).

(** Calls received by [TelegramSender]: [send_comment] and [send_error]. The
    delivery itself, with its own retries, is outside the model; neither call
    raises. *)
Inductive SinkCall :=
  | SendComment (c : Comment) (parser_name : string)
  | SendError (error_message parser_name : string).

(** ** Monitor state *)

Record ParserStats := mkParserStats {
  checks : nat;
  comments_found : nat;
  errors : nat;
  last_check : option Z
}.

(** The default of the [defaultdict] (lines 454-459). *)
Definition parser_stats_default : ParserStats :=
  {| checks := 0; comments_found := 0; errors := 0; last_check := None |}.

Record Stats := mkStats {
  total_checks : nat;
  total_comments_found : nat;
  total_comments_sent : nat;
  total_errors : nat;
  parser_stats : gmap string ParserStats
}.

Record CommentMonitor := mkMonitor {
  parsers : list string;
  last_comments : gmap string (list Comment);
  first_run : bool;
  parser_start_time : Z;
  stats : Stats;
  logger : list LogRecord;
  console : list ConsoleOut;
  telegram_sender : list SinkCall;
  state_file : option (gmap string (list Comment))
}.

Definition log (lv : LogLevel) (m : LogMsg) (st : CommentMonitor) : CommentMonitor :=
  {| parsers := parsers st; last_comments := last_comments st;
     first_run := first_run st; parser_start_time := parser_start_time st;
     stats := stats st; logger := logger st ++ [(lv, m)];
     console := console st; telegram_sender := telegram_sender st;
     state_file := state_file st |}.

Definition print (o : ConsoleOut) (st : CommentMonitor) : CommentMonitor :=
  {| parsers := parsers st; last_comments := last_comments st;
     first_run := first_run st; parser_start_time := parser_start_time st;
     stats := stats st; logger := logger st;
     console := console st ++ [o]; telegram_sender := telegram_sender st;
     state_file := state_file st |}.

Definition call_sink (c : SinkCall) (st : CommentMonitor) : CommentMonitor :=
  {| parsers := parsers st; last_comments := last_comments st;
     first_run := first_run st; parser_start_time := parser_start_time st;
     stats := stats st; logger := logger st;
     console := console st; telegram_sender := telegram_sender st ++ [c];
     state_file := state_file st |}.

Definition set_stats (s : Stats) (st : CommentMonitor) : CommentMonitor :=
  {| parsers := parsers st; last_comments := last_comments st;
     first_run := first_run st; parser_start_time := parser_start_time st;
     stats := s; logger := logger st;
     console := console st; telegram_sender := telegram_sender st;
     state_file := state_file st |}.

Definition set_first_run (b : bool) (st : CommentMonitor) : CommentMonitor :=
  {| parsers := parsers st; last_comments := last_comments st;
     first_run := b; parser_start_time := parser_start_time st;
     stats := stats st; logger := logger st;
     console := console st; telegram_sender := telegram_sender st;
     state_file := state_file st |}.

(** [stats['parser_stats'][name]] with the [defaultdict] default. *)
Definition parser_stats_of (name : string) (s : Stats) : ParserStats :=
  default parser_stats_default (parser_stats s !! name).

Definition update_parser_stats (name : string) (f : ParserStats -> ParserStats)
    (s : Stats) : Stats :=
  {| total_checks := total_checks s;
     total_comments_found := total_comments_found s;
     total_comments_sent := total_comments_sent s;
     total_errors := total_errors s;
     parser_stats := <[name := f (parser_stats_of name s)]> (parser_stats s) |}.

(** [CommentMonitor.__init__] (lines 441-483) with [load_state] (lines
    825-860): [disk] is the content of the state file ([None] when the file
    is missing or unreadable, which leaves [last_comments] empty), [now] the
    UTC clock, [configured] the source names of the configured adapters. The
    start time is always the clock, never a stored value. *)
Definition init (configured : list string)
    (disk : option (gmap string (list Comment))) (now : Z) : CommentMonitor :=
  let loaded : gmap string (list Comment) := default ∅ disk in
  {| parsers := configured;
     last_comments := loaded;
     first_run := bool_decide (loaded = ∅);
     parser_start_time := now;
     stats := {| total_checks := 0; total_comments_found := 0;
                 total_comments_sent := 0; total_errors := 0;
                 parser_stats := ∅ |};
     logger := []; console := []; telegram_sender := [];
     state_file := disk |}.

(** ** The dedup and window filter *)

(** Lines 577 and 585: [f"{comment.author}_{comment.text}_{comment.source_url}"]. *)
Definition fingerprint (c : Comment) : string :=
  author c +:+ "_" +:+ text c +:+ "_" +:+ source_url c.

(** Five minutes, the bound of line 549, in microseconds. *)
Definition five_minutes : Z := 300 * 1000000.

(** One iteration of the first loop (lines 532-556). The accumulator is
    [filtered_comments], [skipped_before_start] and the log. *)
Definition window_step (start : Z) (parser_name : string)
    (acc : list Comment * nat * list LogRecord) (c : Comment)
    : list Comment * nat * list LogRecord :=
  let '(filtered, skipped, lg) := acc in
  match to_naive_utc (timestamp c) with
  | Some comment_time =>
      if (start <=? comment_time)%Z then (filtered ++ [c], skipped, lg)
      else
        let time_diff := (start - comment_time)%Z in
        let lv := if bool_decide (parser_name = "YouTube") && (time_diff <? five_minutes)%Z
                  then LvInfo else LvDebug in
        (filtered, S skipped,
         lg ++ [(lv, MsgSkippedBeforeStart parser_name (author c) comment_time)])
  | None =>
      (filtered, S skipped, lg ++ [(LvWarning, MsgCompareError parser_name)])
  end.

(** Lines 573-578: the set of known keys. *)
Definition known_keys (last : list Comment) : gset string :=
  foldl (fun known c => known ∪ {[fingerprint c]}) ∅ last.

(** One iteration of the second loop (lines 583-590). *)
Definition dedup_step (known : gset string) (parser_name : string)
    (acc : list Comment * list LogRecord) (c : Comment)
    : list Comment * list LogRecord :=
  let '(new_comments, lg) := acc in
  if bool_decide (fingerprint c ∈ known)
  then (new_comments, lg ++ [(LvDebug, MsgAlreadyProcessed parser_name (author c))])
  else (new_comments ++ [c], lg).

(** [CommentMonitor.get_new_comments] (lines 527-593). The monitor that comes
    back differs from the one given in its log only. *)
Definition get_new_comments (st : CommentMonitor) (parser_name : string)
    (current_comments : list Comment) : list Comment * CommentMonitor :=
  let '(filtered, skipped, lg1) :=
    foldl (window_step (parser_start_time st) parser_name)
          ([], 0, logger st) current_comments in
  let lg2 := if bool_decide (0 < skipped)
             then lg1 ++ [(LvInfo, MsgSkippedTotal parser_name skipped)] else lg1 in
  let with_log lg :=
    {| parsers := parsers st; last_comments := last_comments st;
       first_run := first_run st; parser_start_time := parser_start_time st;
       stats := stats st; logger := lg;
       console := console st; telegram_sender := telegram_sender st;
     state_file := state_file st |} in
  if first_run st then
    ([], with_log (lg2 ++ [(LvInfo, MsgFirstRunSkip parser_name)]))
  else
    match last_comments st !! parser_name with
    | None => ([], with_log (lg2 ++ [(LvInfo, MsgFirstParserRun parser_name)]))
    | Some last =>
        let known := known_keys last in
        let lg3 := lg2 ++ [(LvDebug, MsgKnownCount parser_name (size known))] in
        let '(new_comments, lg4) :=
          foldl (dedup_step known parser_name) ([], lg3) filtered in
        (new_comments,
         with_log (lg4 ++ [(LvInfo, MsgSummary parser_name (length current_comments)
                                      (length filtered) (length new_comments)
                                      (size known))]))
    end.

(** [CommentMonitor.save_last_comments] (lines 521-525): [comments[:100]]. *)
Definition save_last_comments (parser_name : string) (comments : list Comment)
    (st : CommentMonitor) : CommentMonitor :=
  {| parsers := parsers st;
     last_comments := <[parser_name := take 100 comments]> (last_comments st);
     first_run := first_run st; parser_start_time := parser_start_time st;
     stats := stats st; logger := logger st;
     console := console st; telegram_sender := telegram_sender st;
     state_file := state_file st |}.

(** ** The orchestrator *)

(** What [await parser.get_comments(limit=...)] does in one cycle: it returns
    a batch, raises [YouTubeQuotaExceeded] or raises another exception. *)
Inductive FetchResult :=
  | Returned (comments : list Comment)
  | RaisedQuota (error_msg : string)
  | RaisedOther (error_msg : string).

(** Line 638. *)
Definition per_parser_limit (parser_name : string) : nat :=
  if String.prefix "Reddit" parser_name then 400 else 600.

(** The [result] dictionary of [_check_single_parser]. *)
Record CheckResult := mkCheckResult {
  res_parser_name : string;
  res_comments : list Comment;
  res_new_comments : list Comment;
  res_error : option string
}.

Definition bump_sent (s : Stats) : Stats :=
  {| total_checks := total_checks s;
     total_comments_found := total_comments_found s;
     total_comments_sent := S (total_comments_sent s);
     total_errors := total_errors s;
     parser_stats := parser_stats s |}.

Definition bump_errors (s : Stats) : Stats :=
  {| total_checks := total_checks s;
     total_comments_found := total_comments_found s;
     total_comments_sent := total_comments_sent s;
     total_errors := S (total_errors s);
     parser_stats := parser_stats s |}.

Definition bump_checks (s : Stats) : Stats :=
  {| total_checks := S (total_checks s);
     total_comments_found := total_comments_found s;
     total_comments_sent := total_comments_sent s;
     total_errors := total_errors s;
     parser_stats := parser_stats s |}.

Definition add_found (n : nat) (s : Stats) : Stats :=
  {| total_checks := total_checks s;
     total_comments_found := total_comments_found s + n;
     total_comments_sent := total_comments_sent s;
     total_errors := total_errors s;
     parser_stats := parser_stats s |}.

(** Lines 654-656: one [send_comment] and one increment per comment. *)
Definition send_comments (parser_name : string) (limited : list Comment)
    (st : CommentMonitor) : CommentMonitor :=
  foldl (fun st c =>
           let st := call_sink (SendComment c parser_name) st in
           set_stats (bump_sent (stats st)) st)
        st limited.

(** Lines 672-673 and 690-691. *)
Definition record_error (parser_name : string) (st : CommentMonitor) : CommentMonitor :=
  let s := bump_errors (stats st) in
  let s := update_parser_stats parser_name
             (fun p => {| checks := checks p; comments_found := comments_found p;
                          errors := S (errors p); last_check := last_check p |}) s in
  set_stats s st.

(** The message of line 688. *)
Definition check_failed_text (parser_name e : string) : string :=
  "Ошибка при проверке " +:+ parser_name +:+ ": " +:+ e.

(** [CommentMonitor._check_single_parser] (lines 622-697). [fetch] is the
    adapter's [get_comments] in this cycle, [now] the clock of line 634. *)
Definition _check_single_parser (st : CommentMonitor) (parser_name : string)
    (fetch : nat -> FetchResult) (now : Z) : CheckResult * CommentMonitor :=
  let st := set_stats
    (update_parser_stats parser_name
       (fun p => {| checks := S (checks p); comments_found := comments_found p;
                    errors := errors p; last_check := Some now |}) (stats st)) st in
  match fetch (per_parser_limit parser_name) with
  | Returned comments =>
      match comments with
      | _ :: _ =>
          let st := set_stats
            (update_parser_stats parser_name
               (fun p => {| checks := checks p;
                            comments_found := comments_found p + length comments;
                            errors := errors p; last_check := last_check p |})
               (stats st)) st in
          let '(new_comments, st) := get_new_comments st parser_name comments in
          let st :=
            match new_comments with
            | _ :: _ =>
                let limited_comments := take 10 new_comments in
                let st := if bool_decide (10 < length new_comments)
                          then log LvInfo (MsgLimited parser_name 10 (length new_comments)) st
                          else st in
                let st := send_comments parser_name limited_comments st in
                let st := print (OutReport parser_name new_comments) st in
                log LvInfo (MsgFoundNew parser_name (length new_comments)) st
            | [] => st
            end in
          let st := save_last_comments parser_name comments st in
          ({| res_parser_name := parser_name; res_comments := comments;
              res_new_comments := new_comments; res_error := None |}, st)
      | [] =>
          let st := log LvInfo (MsgNoComments parser_name) st in
          let st := save_last_comments parser_name [] st in
          ({| res_parser_name := parser_name; res_comments := [];
              res_new_comments := []; res_error := None |}, st)
      end
  | RaisedQuota error_msg =>
      let st := log LvError (MsgQuotaCaught error_msg) st in
      let st := record_error parser_name st in
      let st := log LvInfo (MsgCallingSendError parser_name) st in
      let st := call_sink (SendError error_msg parser_name) st in
      let st := log LvInfo (MsgSendErrorDone parser_name) st in
      let st := print (OutQuota parser_name error_msg) st in
      ({| res_parser_name := parser_name; res_comments := [];
          res_new_comments := []; res_error := Some error_msg |}, st)
  | RaisedOther e =>
      let error_msg := check_failed_text parser_name e in
      let st := log LvError (MsgCheckFailed error_msg) st in
      let st := record_error parser_name st in
      let st := call_sink (SendError error_msg parser_name) st in
      ({| res_parser_name := parser_name; res_comments := [];
          res_new_comments := []; res_error := Some e |}, st)
  end.

(** [CommentMonitor.save_state] (lines 862-890): the snapshot written is the
    whole [last_comments] map. *)
Definition save_state (st : CommentMonitor) : CommentMonitor :=
  {| parsers := parsers st; last_comments := last_comments st;
     first_run := first_run st; parser_start_time := parser_start_time st;
     stats := stats st; logger := logger st;
     console := console st; telegram_sender := telegram_sender st;
     state_file := Some (last_comments st) |}.

(** [CommentMonitor.print_stats] (lines 743-756), the totals only. *)
Definition print_stats (st : CommentMonitor) : CommentMonitor :=
  log LvInfo (MsgStatistics (total_checks (stats st)) (total_comments_found (stats st))
                (total_comments_sent (stats st)) (total_errors (stats st))) st.

(** The network as one cycle sees it: what the [i]-th configured adapter's
    [get_comments] does. *)
Definition CycleEnv : Type := nat -> nat -> FetchResult.

(** The tasks of [check_parsers] (lines 709-712). The adapters are taken in
    the order of [self.parsers]; each task touches its own entry of
    [last_comments] and of [parser_stats] only. *)
Definition run_tasks (env : CycleEnv) (now : Z) (st : CommentMonitor)
    : list CheckResult * CommentMonitor :=
  foldl (fun '(results, st) '(i, parser_name) =>
           let '(r, st) := _check_single_parser st parser_name (env i) now in
           (results ++ [r], st))
        ([], st) (imap (fun i n => (i, n)) (parsers st)).

(** [CommentMonitor.check_parsers] (lines 699-741). *)
Definition check_parsers (env : CycleEnv) (now : Z) (st : CommentMonitor)
    : CommentMonitor :=
  let st := log LvInfo MsgChecking st in
  let st := set_stats (bump_checks (stats st)) st in
  match parsers st with
  | [] => log LvWarning MsgNoParsers st
  | _ :: _ =>
      let '(results, st) := run_tasks env now st in
      let st := foldl (fun st r =>
                         match res_comments r with
                         | _ :: _ => set_stats (add_found (length (res_comments r)) (stats st)) st
                         | [] => st
                         end) st results in
      let st := save_state st in
      if bool_decide (total_checks (stats st) mod 10 = 0) then print_stats st else st
  end.

(** One iteration of the loop of [CommentMonitor.run] (lines 783-789). *)
Definition cycle (env : CycleEnv) (now : Z) (st : CommentMonitor) : CommentMonitor :=
  let st := check_parsers env now st in
  if first_run st
  then log LvInfo MsgFirstRunDone (set_first_run false st)
  else st.

(** The first iterations of the loop, one environment and one clock value
    per iteration. *)
Definition run (envs : list (CycleEnv * Z)) (st : CommentMonitor) : CommentMonitor :=
  foldl (fun st '(env, now) => cycle env now st) st envs.

(** ** Specification-level views of the filter *)

(** The window test of line 543, on the normalised timestamp. *)
Definition after_start (start : Z) (c : Comment) : bool :=
  match to_naive_utc (timestamp c) with
  | Some t => (start <=? t)%Z
  | None => false
  end.

Definition is_known (known : gset string) (c : Comment) : bool :=
  bool_decide (fingerprint c ∈ known).

(** The value [get_new_comments] returns, as a function of the three pieces
    of state it reads. *)
Definition new_comments_of (fr : bool) (stored : option (list Comment))
    (start : Z) (cs : list Comment) : list Comment :=
  if fr then []
  else match stored with
       | None => []
       | Some last =>
           List.filter (fun c => negb (is_known (known_keys last) c))
                       (List.filter (after_start start) cs)
       end.


(** ** The fetch layer *)

(** A parsed JSON document. An object is the list of its items, each key
    once. Numbers are integers here. *)
#[local] Set Warnings "-register-all".
Inductive Json :=
  | JNull
  | JBool (b : bool)
  | JNum (z : Z)
  | JStr (s : string)
  | JArr (items : list Json)
  | JObj (fields : list (string * Json)).

(** Python truthiness of a parsed document. *)
Definition truthy (j : Json) : bool :=
  match j with
  | JNull => false
  | JBool b => b
  | JNum z => negb (z =? 0)%Z
  | JStr s => negb (bool_decide (s = EmptyString))
  | JArr l => match l with [] => false | _ :: _ => true end
  | JObj l => match l with [] => false | _ :: _ => true end
  end.

Fixpoint lookup_key (k : string) (l : list (string * Json)) : option Json :=
  match l with
  | [] => None
  | (k', v) :: l' => if bool_decide (k' = k) then Some v else lookup_key k l'
  end.

(** [j.get(k, dflt)]; [None] stands for the exception raised when [j] is not
    a dictionary. *)
Definition py_get (k : string) (dflt : Json) (j : Json) : option Json :=
  match j with
  | JObj l => Some (default dflt (lookup_key k l))
  | _ => None
  end.

(** [j[k]] for a string [k]; [None] stands for [KeyError] or [TypeError]. *)
Definition py_item (k : string) (j : Json) : option Json :=
  match j with
  | JObj l => lookup_key k l
  | _ => None
  end.

(** [j[0]]; [None] stands for [IndexError], [KeyError] or [TypeError]. *)
Definition py_index0 (j : Json) : option Json :=
  match j with
  | JArr (x :: _) => Some x
  | JStr (String c _) => Some (JStr (String c EmptyString))
  | _ => None
  end.

Fixpoint chars (s : string) : list Json :=
  match s with
  | EmptyString => []
  | String c s' => JStr (String c EmptyString) :: chars s'
  end.

(** [for item in j]; [None] stands for [TypeError]. *)
Definition py_iter (j : Json) : option (list Json) :=
  match j with
  | JArr l => Some l
  | JObj l => Some (map (fun kv => JStr kv.1) l)
  | JStr s => Some (chars s)
  | _ => None
  end.

(** What one [session.request] (or [session.get]) does: a response with its
    status and the result of [response.json()] ([None] when that raises),
    [asyncio.TimeoutError], or another exception. *)
Inductive Attempt :=
  | Response (status : Z) (body : option Json)
  | ReqTimeout
  | ReqFailed (e : string).

(** Statuses 429, 500, 502, 503 and 504. *)
Definition transient_status (status : Z) : bool :=
  bool_decide (status ∈ [429; 500; 502; 503; 504]%Z).

(** What a retry loop leaves: the value returned ([None] for Python's
    [None]), the arguments of [asyncio.sleep] in order, in seconds, and the
    number of iterations of the loop that ran. The logger calls of this
    layer are left out. *)
Record Fetched (A : Type) := mkFetched {
  reply : A;
  sleeps : list nat;
  tries : nat
}.
Arguments mkFetched {A} _ _ _.
Arguments reply {A} _.
Arguments sleeps {A} _.
Arguments tries {A} _.

(** [asyncio.sleep(wait_time); continue]: the rest of the loop after a
    wait. *)
Definition after_sleep {A} (wait_time : nat) (rest : Fetched A) : Fetched A :=
  {| reply := reply rest; sleeps := wait_time :: sleeps rest; tries := S (tries rest) |}.

(** The next iteration without a wait. *)
Definition fall_through {A} (rest : Fetched A) : Fetched A :=
  {| reply := reply rest; sleeps := sleeps rest; tries := S (tries rest) |}.

(** [return v] inside the loop. *)
Definition finish {A} (v : A) : Fetched A :=
  {| reply := v; sleeps := []; tries := 1 |}.

(** The loop ran out of iterations: the [return None] after it. *)
Definition exhausted {A} (v : A) : Fetched A :=
  {| reply := v; sleeps := []; tries := 0 |}.

Module VKParser.

(** [BaseParser.make_request_with_retry] of [vk_parser.py] (lines 72-126),
    from iteration [attempt] on, with [fuel] iterations left. [net] is the
    outcome of the request of each iteration. *)
Fixpoint retry_loop (max_retries attempt fuel : nat) (net : nat -> Attempt)
    : Fetched (option Json) :=
  match fuel with
  | 0 => exhausted None
  | S fuel' =>
      let rest := retry_loop max_retries (S attempt) fuel' net in
      match net attempt with
      | Response status body =>
          if (status =? 200)%Z then
            match body with
            | Some data => finish (Some data)
            | None =>
                if bool_decide (attempt < max_retries - 1)
                then after_sleep (2 ^ attempt) rest
                else finish None
            end
          else if transient_status status then
            if bool_decide (attempt < max_retries - 1)
            then after_sleep (2 ^ attempt) rest
            else fall_through rest
          else finish None
      | ReqTimeout =>
          if bool_decide (attempt < max_retries - 1)
          then after_sleep (2 ^ attempt) rest
          else finish None
      | ReqFailed _ =>
          if bool_decide (attempt < max_retries - 1)
          then after_sleep (2 ^ attempt) rest
          else finish None
      end
  end.

Definition make_request_with_retry (max_retries : nat) (net : nat -> Attempt)
    : Fetched (option Json) :=
  retry_loop max_retries 0 max_retries net.

End VKParser.

Module RedditParser.

(** [BaseParser.make_request_with_retry] of [reddit_parser.py] (lines
    72-126): the same text as in [vk_parser.py]. *)
Fixpoint retry_loop (max_retries attempt fuel : nat) (net : nat -> Attempt)
    : Fetched (option Json) :=
  match fuel with
  | 0 => exhausted None
  | S fuel' =>
      let rest := retry_loop max_retries (S attempt) fuel' net in
      match net attempt with
      | Response status body =>
          if (status =? 200)%Z then
            match body with
            | Some data => finish (Some data)
            | None =>
                if bool_decide (attempt < max_retries - 1)
                then after_sleep (2 ^ attempt) rest
                else finish None
            end
          else if transient_status status then
            if bool_decide (attempt < max_retries - 1)
            then after_sleep (2 ^ attempt) rest
            else fall_through rest
          else finish None
      | ReqTimeout =>
          if bool_decide (attempt < max_retries - 1)
          then after_sleep (2 ^ attempt) rest
          else finish None
      | ReqFailed _ =>
          if bool_decide (attempt < max_retries - 1)
          then after_sleep (2 ^ attempt) rest
          else finish None
      end
  end.

Definition make_request_with_retry (max_retries : nat) (net : nat -> Attempt)
    : Fetched (option Json) :=
  retry_loop max_retries 0 max_retries net.

(** The network as [make_api_request] sees it: the outcome of the request of
    each iteration and, for an iteration answered with 401, what follows:
    [None] when [get_access_token] fails, otherwise the outcome of the
    second request. *)
Record ApiNet := mkApiNet {
  respond : nat -> Attempt;
  refreshed : nat -> option Attempt
}.

(** The [except] clauses of [make_api_request] (lines 248-265). *)
Definition on_timeout (max_retries attempt : nat) (rest : Fetched (option Json))
    : Fetched (option Json) :=
  if bool_decide (attempt < max_retries - 1)
  then after_sleep ((attempt + 1) * 3) rest
  else finish None.

Definition on_exception (max_retries attempt : nat) (rest : Fetched (option Json))
    : Fetched (option Json) :=
  if bool_decide (attempt < max_retries - 1)
  then after_sleep ((attempt + 1) * 2) rest
  else finish None.

(** The loop of [RedditParser.make_api_request] (lines 211-267). *)
Fixpoint api_loop (max_retries attempt fuel : nat) (net : ApiNet)
    : Fetched (option Json) :=
  match fuel with
  | 0 => exhausted None
  | S fuel' =>
      let rest := api_loop max_retries (S attempt) fuel' net in
      match respond net attempt with
      | Response status body =>
          if (status =? 200)%Z then
            match body with
            | Some data => finish (Some data)
            | None => on_exception max_retries attempt rest
            end
          else if (status =? 401)%Z then
            match refreshed net attempt with
            | None => fall_through rest
            | Some (Response retry_status retry_body) =>
                if (retry_status =? 200)%Z then
                  match retry_body with
                  | Some data => finish (Some data)
                  | None => on_exception max_retries attempt rest
                  end
                else fall_through rest
            | Some ReqTimeout => on_timeout max_retries attempt rest
            | Some (ReqFailed _) => on_exception max_retries attempt rest
            end
          else if (status =? 429)%Z then
            if bool_decide (attempt < max_retries - 1)
            then after_sleep ((attempt + 1) * 5) rest
            else fall_through rest
          else finish None
      | ReqTimeout => on_timeout max_retries attempt rest
      | ReqFailed _ => on_exception max_retries attempt rest
      end
  end.

(** [RedditParser.make_api_request] (lines 198-267); [token_ok] is the
    result of the first [get_access_token]. *)
Definition make_api_request (token_ok : bool) (max_retries : nat) (net : ApiNet)
    : Fetched (option Json) :=
  if token_ok then api_loop max_retries 0 max_retries net else exhausted None.

End RedditParser.

Module YouTubeParser.

(** The text of [YouTubeQuotaExceeded] (lines 100-103). *)
Definition quota_message : string :=
  "⚠️ YouTube API: превышена дневная квота (10,000 единиц). " +:+
  "Квота обновится через 24 часа. YouTube парсер временно отключен.".

(** A value, or [YouTubeQuotaExceeded] raised with its message. *)
Inductive Exc (A : Type) :=
  | Ret (a : A)
  | Raise (error_msg : string).
Arguments Ret {A} _.
Arguments Raise {A} _.

(** Line 98: [error_data.get('error', {}).get('errors', [{}])[0].get('reason', '')];
    [None] stands for an exception. *)
Definition error_reason (error_data : Json) : option Json :=
  e ← py_get "error" (JObj []) error_data;
  es ← py_get "errors" (JArr [JObj []]) e;
  first ← py_index0 es;
  py_get "reason" (JStr EmptyString) first.

(** The 403 branch (lines 94-115). *)
Definition on_forbidden (body : option Json) : Exc (option Json) :=
  match body with
  | Some error_data =>
      match error_reason error_data with
      | Some (JStr reason) =>
          if bool_decide (reason = "quotaExceeded") then Raise quota_message else Ret None
      | _ => Ret None
      end
  | None => Ret None
  end.

(** [BaseParser.make_request_with_retry] of [youtube_parser.py] (lines
    70-149). *)
Fixpoint retry_loop (max_retries attempt fuel : nat) (net : nat -> Attempt)
    : Fetched (Exc (option Json)) :=
  match fuel with
  | 0 => exhausted (Ret None)
  | S fuel' =>
      let rest := retry_loop max_retries (S attempt) fuel' net in
      match net attempt with
      | Response status body =>
          if (status =? 200)%Z then
            match body with
            | Some data => finish (Ret (Some data))
            | None =>
                if bool_decide (attempt < max_retries - 1)
                then after_sleep (2 ^ attempt) rest
                else finish (Ret None)
            end
          else if (status =? 403)%Z then finish (on_forbidden body)
          else if transient_status status then
            if bool_decide (attempt < max_retries - 1)
            then after_sleep (2 ^ attempt) rest
            else fall_through rest
          else finish (Ret None)
      | ReqTimeout =>
          if bool_decide (attempt < max_retries - 1)
          then after_sleep (2 ^ attempt) rest
          else finish (Ret None)
      | ReqFailed _ =>
          if bool_decide (attempt < max_retries - 1)
          then after_sleep (2 ^ attempt) rest
          else finish (Ret None)
      end
  end.

Definition make_request_with_retry (max_retries : nat) (net : nat -> Attempt)
    : Fetched (Exc (option Json)) :=
  retry_loop max_retries 0 max_retries net.

(** The requests of the adapter: endpoint and the parameters that vary. The
    comment requests of one [get_comments] run in parallel, one per video;
    [position] tells them apart. *)
Inductive Request :=
  | ChannelsForUsername (username : Json)
  | ChannelsContentDetails (channel : Json)
  | PlaylistItems (playlist : Json) (max_results : nat)
  | CommentThreads (position : nat) (video : Json) (max_results : nat).

(** The network: the outcome of every attempt of every request. *)
Definition Net : Type := Request -> nat -> Attempt.

(** The adapter's fields, and the record of the requests it made with what
    [make_request_with_retry] answered. Python's [None] is [JNull]. *)
Record Parser := mkParser {
  api_key : string;
  channel_id : Json;
  uploads_playlist_id : Json;
  playlist_id_loaded : bool;
  calls : list (Request * Exc (option Json))
}.

(** A computation of the adapter: it reads the network, changes the fields
    and returns or raises [YouTubeQuotaExceeded]. *)
Definition M (A : Type) : Type := Net -> Parser -> Exc A * Parser.

Definition ret {A} (a : A) : M A := fun _ p => (Ret a, p).

Definition bind {A B} (m : M A) (k : A -> M B) : M B :=
  fun net p =>
    match m net p with
    | (Ret a, p') => k a net p'
    | (Raise e, p') => (Raise e, p')
    end.

Definition modify (f : Parser -> Parser) : M unit := fun _ p => (Ret tt, f p).

Definition gets {A} (f : Parser -> A) : M A := fun _ p => (Ret (f p), p).

Notation "'do' x <- m ; k" := (bind m (fun x => k))
  (at level 10, x name, m at level 100, k at level 200).

(** [await self.make_request_with_retry('GET', url, params=params)] with the
    default [max_retries]. *)
Definition request (r : Request) : M (option Json) :=
  fun net p =>
    let out := reply (make_request_with_retry 3 (net r)) in
    (out, {| api_key := api_key p; channel_id := channel_id p;
             uploads_playlist_id := uploads_playlist_id p;
             playlist_id_loaded := playlist_id_loaded p;
             calls := calls p ++ [(r, out)] |}).

(** [YouTubeParser.is_configured] (lines 175-177). *)
Definition is_configured (p : Parser) : bool :=
  negb (bool_decide (api_key p = EmptyString)) && truthy (channel_id p).

(** [if data and data.get('items'): return data['items'][0][...]] with the
    chain of subscripts [path]; [JNull] is the [return None] of every other
    case, the [except Exception] clause included. *)
Definition first_item (path : list string) (data : option Json) : Json :=
  match data with
  | Some d =>
      if truthy d then
        match py_get "items" JNull d with
        | Some items =>
            if truthy items then
              default JNull
                (x ← py_item "items" d;
                 x0 ← py_index0 x;
                 foldl (fun acc k => j ← acc; py_item k j) (Some x0) path)
            else JNull
        | None => JNull
        end
      else JNull
  | None => JNull
  end.

(** [YouTubeParser.get_channel_id_by_username] (lines 179-198). *)
Definition get_channel_id_by_username (username : Json) : M Json :=
  do data <- request (ChannelsForUsername username);
  ret (first_item ["id"] data).

Definition set_channel_id (c : Json) (p : Parser) : Parser :=
  {| api_key := api_key p; channel_id := c;
     uploads_playlist_id := uploads_playlist_id p;
     playlist_id_loaded := playlist_id_loaded p; calls := calls p |}.

Definition set_uploads_playlist_id (u : Json) (p : Parser) : Parser :=
  {| api_key := api_key p; channel_id := channel_id p;
     uploads_playlist_id := u;
     playlist_id_loaded := playlist_id_loaded p; calls := calls p |}.

Definition set_playlist_id_loaded (p : Parser) : Parser :=
  {| api_key := api_key p; channel_id := channel_id p;
     uploads_playlist_id := uploads_playlist_id p;
     playlist_id_loaded := true; calls := calls p |}.

(** Lines 214-225: the request for the channel's content details. *)
Definition load_uploads_playlist_id : M Json :=
  do channel <- gets channel_id;
  do data <- request (ChannelsContentDetails channel);
  match first_item ["contentDetails"; "relatedPlaylists"; "uploads"] data with
  | JNull => ret JNull
  | uploads => do _ <- modify (set_uploads_playlist_id uploads); ret uploads
  end.

(** [YouTubeParser.get_uploads_playlist_id] (lines 200-231). *)
Definition get_uploads_playlist_id : M Json :=
  do cached <- gets uploads_playlist_id;
  do loaded <- gets playlist_id_loaded;
  match cached, loaded with
  | JNull, false =>
      do _ <- modify set_playlist_id_loaded;
      do channel_id_to_use <- gets channel_id;
      match channel_id_to_use with
      | JStr s =>
          if String.prefix "UC" s then load_uploads_playlist_id
          else
            do found <- get_channel_id_by_username channel_id_to_use;
            if truthy found
            then do _ <- modify (set_channel_id found); load_uploads_playlist_id
            else ret JNull
      | _ => ret JNull
      end
  | _, _ => ret cached
  end.

(** Line 257: the list comprehension; [None] stands for an exception. *)
Definition video_ids_of (data : Json) : option (list Json) :=
  items ← py_get "items" (JArr []) data;
  l ← py_iter items;
  mapM (fun item => d ← py_item "contentDetails" item; py_item "videoId" d) l.

(** [YouTubeParser.get_video_ids] (lines 233-265). *)
Definition get_video_ids (limit : nat) : M (list Json) :=
  do configured <- gets is_configured;
  if configured then
    do uploads_playlist_id <- get_uploads_playlist_id;
    if truthy uploads_playlist_id then
      do data <- request (PlaylistItems uploads_playlist_id limit);
      match data with
      | Some d => if truthy d then ret (default [] (video_ids_of d)) else ret []
      | None => ret []
      end
    else ret []
  else ret [].

Section Comments.

(** Lines 284-327: the comments read from the body of a comment request,
    replies included, up to the first item that raises. *)
Variable parse_comment_threads : Json -> Json -> list Comment.

(** [YouTubeParser.get_video_comments] (lines 267-335). *)
Definition get_video_comments (position : nat) (video_id : Json) (limit : nat)
    : M (list Comment) :=
  do data <- request (CommentThreads position video_id limit);
  match data with
  | Some d => if truthy d then ret (parse_comment_threads video_id d) else ret []
  | None => ret []
  end.

(** [asyncio.gather] with [return_exceptions=True] (lines 358-359): every
    task runs, and its result or its exception is kept. *)
Fixpoint gather (position : nat) (video_ids : list Json) (net : Net) (p : Parser)
    : list (Exc (list Comment)) * Parser :=
  match video_ids with
  | [] => ([], p)
  | v :: vs =>
      let '(r, p1) := get_video_comments position v 30 net p in
      let '(rs, p2) := gather (S position) vs net p1 in
      (r :: rs, p2)
  end.

(** Lines 365-372: the first quota exception is raised again, the lists are
    concatenated. *)
Fixpoint collect (results : list (Exc (list Comment))) : Exc (list Comment) :=
  match results with
  | [] => Ret []
  | Raise e :: _ => Raise e
  | Ret l :: rest =>
      match collect rest with
      | Ret all_comments => Ret (l ++ all_comments)
      | Raise e => Raise e
      end
  end.

Definition is_naive (c : Comment) : bool :=
  match timestamp c with Naive _ => true | Aware _ _ => false end.

(** The instant two timestamps of the same kind are compared by. *)
Definition sort_key (c : Comment) : Z :=
  match timestamp c with
  | Naive w => w
  | Aware w off => (w - off)%Z
  end.

Fixpoint insert_newest_first (c : Comment) (sorted : list Comment) : list Comment :=
  match sorted with
  | [] => [c]
  | d :: rest =>
      if (sort_key c <? sort_key d)%Z then d :: insert_newest_first c rest
      else c :: sorted
  end.

(** Line 375: [all_comments.sort(key=lambda x: x.timestamp, reverse=True)],
    a stable sort; [None] stands for the [TypeError] of comparing a naive
    with an aware timestamp. *)
Definition sort_newest_first (l : list Comment) : option (list Comment) :=
  if forallb is_naive l || forallb (fun c => negb (is_naive c)) l
  then Some (foldr insert_newest_first [] l)
  else None.

(** [YouTubeParser.get_comments] (lines 337-384). *)
Definition get_comments (limit : nat) : M (list Comment) :=
  do configured <- gets is_configured;
  if configured then
    do video_ids <- get_video_ids 20;
    match video_ids with
    | [] => ret []
    | _ :: _ =>
        do results <- (fun net p => let '(rs, p') := gather 0 video_ids net p in (Ret rs, p'));
        match collect results with
        | Raise e => fun _ p => (Raise e, p)
        | Ret all_comments =>
            ret (take limit (default [] (sort_newest_first all_comments)))
        end
    end
  else ret [].

(** The adapter as the orchestrator calls it in one cycle. *)
Definition fetch (net : Net) (p : Parser) (limit : nat) : FetchResult :=
  match (get_comments limit net p).1 with
  | Ret comments => Returned comments
  | Raise e => RaisedQuota e
  end.

End Comments.

End YouTubeParser.

(** ** Schedules of waits *)

(** A network that answers every attempt with a timeout where [timed_out]
    says so and with status 429 otherwise. *)
Definition throttled (timed_out : nat -> bool) (body : option Json) : nat -> Attempt :=
  fun attempt => if timed_out attempt then ReqTimeout else Response 429 body.

Definition throttled_api (timed_out : nat -> bool) (body : option Json)
    (refreshed : nat -> option Attempt) : RedditParser.ApiNet :=
  {| RedditParser.respond := throttled timed_out body;
     RedditParser.refreshed := refreshed |}.

(** The waits of the shared retry loop: [2 ** attempt]. *)
Definition exponential_wait (attempt : nat) : nat := 2 ^ attempt.

(** The waits of [RedditParser.make_api_request]: [(attempt + 1) * 3] after a
    timeout, [(attempt + 1) * 5] after a 429. *)
Definition reddit_api_wait (timed_out : nat -> bool) (attempt : nat) : nat :=
  if timed_out attempt then (attempt + 1) * 3 else (attempt + 1) * 5.

(** The schedule as the specification words it: [2^attempt] seconds after a
    timeout, [5*(attempt+1)] seconds after a 429, on every request path. *)
Definition spec_wait (timed_out : nat -> bool) (attempt : nat) : nat :=
  if timed_out attempt then 2 ^ attempt else 5 * (attempt + 1).

(** An attempt after which the YouTube loop goes on to the next one. *)
Definition retried (a : Attempt) : bool :=
  match a with
  | Response status body =>
      if (status =? 200)%Z then match body with None => true | Some _ => false end
      else if (status =? 403)%Z then false
      else transient_status status
  | ReqTimeout => true
  | ReqFailed _ => true
  end.

(** ** Quota exceptions and the requests that raised them *)

(** A computation of the YouTube adapter surfaces the quota: it adds to the
    record of requests what [make_request_with_retry] answered to each, it
    raises [YouTubeQuotaExceeded] with the message of one of the requests it
    made when one of them raised, and it returns only when none raised. *)
Definition surfaces_quota {A} (m : YouTubeParser.M A) : Prop :=
  forall net p,
    exists added,
      YouTubeParser.calls (m net p).2 = YouTubeParser.calls p ++ added /\
      (forall req out, (req, out) ∈ added ->
                       out = reply (YouTubeParser.make_request_with_retry 3 (net req))) /\
      match (m net p).1 with
      | YouTubeParser.Ret _ => forall req e, (req, YouTubeParser.Raise e) ∉ added
      | YouTubeParser.Raise e => exists req, (req, YouTubeParser.Raise e) ∈ added
      end.

(** The requests a computation made, with their answers. *)
Definition requests_made {A} (m : YouTubeParser.M A) (net : YouTubeParser.Net)
    (p : YouTubeParser.Parser)
    : list (YouTubeParser.Request * YouTubeParser.Exc (option Json)) :=
  drop (length (YouTubeParser.calls p)) (YouTubeParser.calls (m net p).2).

(** ** Predicates on runs *)

(** The key [k] is among the keys stored for the source. *)
Definition stored_key (st : CommentMonitor) (parser_name k : string) : Prop :=
  exists last, last_comments st !! parser_name = Some last /\ k ∈ known_keys last.

(** The fetch returned a batch that has the key [k] among its first 100
    items. *)
Definition returns_key (k : string) (r : FetchResult) : Prop :=
  exists b c, r = Returned b /\ c ∈ take 100 b /\ fingerprint c = k.

(** The fetch raised, or returned a batch that has the key [k] among its
    first 100 items. *)
Definition keeps_key (k : string) (r : FetchResult) : Prop :=
  match r with
  | Returned b => exists c, c ∈ take 100 b /\ fingerprint c = k
  | RaisedQuota _ | RaisedOther _ => True
  end.

(** From [st] to [st'] the sink received further calls, none of them a
    comment of the source with key [k]. *)
Definition quiet (parser_name k : string) (st st' : CommentMonitor) : Prop :=
  exists added, telegram_sender st' = telegram_sender st ++ added /\
                forall c, SendComment c parser_name ∈ added -> fingerprint c <> k.

(** Two monitors that the dedup and the sink cannot tell apart. *)
Definition same_dedup (st st' : CommentMonitor) : Prop :=
  parsers st' = parsers st /\ last_comments st' = last_comments st /\
  telegram_sender st' = telegram_sender st.

(** The monitor that the tasks of a cycle leave, task after task. *)
Definition tasks_state (env : CycleEnv) (now : Z) (l : list (nat * string))
    (st : CommentMonitor) : CommentMonitor :=
  foldl (fun st '(i, m) => (_check_single_parser st m (env i) now).2) st l.

(** The monitor when the tasks of [check_parsers] start (lines 701-702). *)
Definition entering (st : CommentMonitor) : CommentMonitor :=
  set_stats (bump_checks (stats (log LvInfo MsgChecking st))) (log LvInfo MsgChecking st).

(** The adapters with their positions in [self.parsers]. *)
Definition indexed (ps : list string) : list (nat * string) :=
  imap (fun i n => (i, n)) ps.

(** ** Concrete runs *)

Module Scenario.

(** 2024-01-01T00:00:00Z, in microseconds. *)
Definition epoch : Z := 1704067200 * 1000000.

Definition seconds (n : Z) : Z := n * 1000000.

(** [{A, "hi", url1, 2024-01-01T00:00:05Z}]. *)
Definition item : Comment :=
  mkComment "A" "hi" "src" (Aware (epoch + seconds 5) 0) "url1".

(** Every cycle the adapter returns the same one-element batch. *)
Definition same_batch : CycleEnv := fun _ _ => Returned [item].

(** A process started at [epoch] with no state file and one source. *)
Definition cold : CommentMonitor := init ["src"] None epoch.

(** The monitor [n] cycles after [st], one cycle every 30 seconds. *)
Definition cycles_from (st : CommentMonitor) (n : nat) : CommentMonitor :=
  run (map (fun k => (same_batch, epoch + seconds (30 * Z.of_nat k))%Z) (seq 0 n)) st.

Definition after_cycles (n : nat) : CommentMonitor := cycles_from cold n.

(** What the filter returns for the batch in cycle number [n + 1]. *)
Definition filter_in_cycle_from (st : CommentMonitor) (n : nat) : list Comment :=
  (get_new_comments (cycles_from st n) "src" [item]).1.

Definition filter_in_cycle (n : nat) : list Comment := filter_in_cycle_from cold n.

(** A process started at [epoch] with a state file that has an empty entry
    for the source. *)
Definition empty_entry : CommentMonitor := init ["src"] (Some {["src" := []]}) epoch.

(** Two comments whose fields differ and whose keys coincide. *)
Definition known_one : Comment :=
  mkComment "a" "b_c" "src" (Naive (epoch + seconds 1)) "u".
Definition fresh_one : Comment :=
  mkComment "a_b" "c" "src" (Naive (epoch + seconds 2)) "u".

(** A process restarted with a state file where the source "src" has
    [known_one] stored. *)
Definition warm : CommentMonitor :=
  init ["src"] (Some {["src" := [known_one]]}) epoch.

(** A source that loses its batch for one cycle: the cycles fetch [y], then
    [x; y], then nothing, then [x; y] again. *)
Definition x : Comment :=
  mkComment "B" "new" "VK" (Naive (epoch + seconds 40)) "url2".
Definition y : Comment :=
  mkComment "A" "old" "VK" (Naive (epoch + seconds 5)) "url1".

Definition outage : list (CycleEnv * Z) :=
  [ (fun _ _ => Returned [y], epoch + seconds 30);
    (fun _ _ => Returned [x; y], epoch + seconds 60);
    (fun _ _ => Returned [], epoch + seconds 90);
    (fun _ _ => Returned [x; y], epoch + seconds 120) ]%Z.

Definition vk_cold : CommentMonitor := init ["VK"] None epoch.

(** A source that keeps returning [x], with one failed cycle in between. *)
Definition steady_first : CycleEnv := fun _ _ => Returned [x; y].
Definition steady_rest : list (CycleEnv * Z) :=
  [ (fun _ _ => RaisedOther "boom", epoch + seconds 60);
    (fun _ _ => Returned [y; x], epoch + seconds 90) ]%Z.

(** The keys of the comments handed to the sink for a source, in order. *)
Definition forwarded_keys (parser_name : string) (st : CommentMonitor) : list string :=
  omap (fun call => match call with
                    | SendComment c n =>
                        if bool_decide (n = parser_name) then Some (fingerprint c) else None
                    | SendError _ _ => None
                    end) (telegram_sender st).

(** A batch of [n] comments with distinct authors, all written after
    [epoch], newest first. *)
Definition numbered (i : nat) : Comment :=
  mkComment (String (Ascii.ascii_of_nat (33 + i)) EmptyString) "text" "VK"
            (Naive (epoch + seconds 1000 - Z.of_nat i)) "url".
Definition big_batch (n : nat) : list Comment := map numbered (seq 0 n).

(** A process restarted with a state file where the source "VK" has an
    empty stored batch. *)
Definition vk_warm : CommentMonitor :=
  init ["VK"] (Some {["VK" := []]}) epoch.

(** A source that returns the same 101 comments in three cycles. *)
Definition crowded : list (CycleEnv * Z) :=
  [ (fun _ _ => Returned (big_batch 101), epoch + seconds 1030);
    (fun _ _ => Returned (big_batch 101), epoch + seconds 1060);
    (fun _ _ => Returned (big_batch 101), epoch + seconds 1090) ]%Z.

(** The body of a 403 response that reports an exhausted quota. *)
Definition quota_body : Json :=
  JObj [("error", JObj [("code", JNum 403);
                        ("errors", JArr [JObj [("domain", JStr "youtube.quota");
                                               ("reason", JStr "quotaExceeded")]])])].

(** A network where every request is answered with 503 first and with the
    quota response next. *)
Definition quota_net : YouTubeParser.Net :=
  fun _ attempt => match attempt with
                   | 0 => Response 503 None
                   | _ => Response 403 (Some quota_body)
                   end.

(** A configured adapter that has made no request yet. *)
Definition fresh_parser : YouTubeParser.Parser :=
  {| YouTubeParser.api_key := "key";
     YouTubeParser.channel_id := JStr "UCabc";
     YouTubeParser.uploads_playlist_id := JNull;
     YouTubeParser.playlist_id_loaded := false;
     YouTubeParser.calls := [] |}.

Definition no_comments : Json -> Json -> list Comment := fun _ _ => [].

(** A process restarted with a state file that holds one YouTube comment,
    and a VK adapter next to the YouTube one. *)
Definition youtube_warm : CommentMonitor :=
  init ["YouTube"; "VK"] (Some {["YouTube" := [item]]}) epoch.

End Scenario.

(** ** Reddit: the cached token *)

Module RedditAuth.

(** [access_token] and [token_expires_at] of [RedditParser]; Python's [None]
    is [JNull] and [None]. *)
Record Token := mkToken {
  access_token : Json;
  token_expires_at : option Z
}.

(** What [get_access_token] leaves: its result, the fields, and whether it
    sent the request for a new token. *)
Record Outcome := mkOutcome {
  ok : bool;
  token : Token;
  requested : bool
}.

(** [expires_in - 60] for the value found under [expires_in]; [None] stands
    for [TypeError]. Booleans count as 0 and 1. *)
Definition minus_margin (expires_in : Json) : option Z :=
  match expires_in with
  | JNum z => Some (z - 60)%Z
  | JBool b => Some ((if b then 1 else 0) - 60)%Z
  | _ => None
  end.

(** Lines 184-190: the body of the 200 branch. [None] stands for an
    exception; the token is assigned before the expiry is computed. *)
Definition store_token (now : Z) (token_data : Json) (t : Token) : Outcome :=
  match py_get "access_token" JNull token_data,
        py_get "expires_in" (JNum 3600) token_data with
  | Some new_token, Some expires_in =>
      match minus_margin expires_in with
      | Some seconds =>
          let expiry := (now + seconds * 1000000)%Z in
          if in_datetime_range expiry
          then {| ok := true;
                  token := {| access_token := new_token; token_expires_at := Some expiry |};
                  requested := true |}
          else {| ok := false;
                  token := {| access_token := new_token;
                              token_expires_at := token_expires_at t |};
                  requested := true |}
      | None =>
          {| ok := false;
             token := {| access_token := new_token;
                         token_expires_at := token_expires_at t |};
             requested := true |}
      end
  | _, _ => {| ok := false; token := t; requested := true |}
  end.

(** [RedditParser.get_access_token] (lines 159-196). [configured] is
    [is_configured()], [now] the clock at the test of line 163, [now'] the
    clock at line 188, [post] what the request for a token does. *)
Definition get_access_token (configured : bool) (now now' : Z) (post : Attempt)
    (t : Token) : Outcome :=
  let valid :=
    truthy (access_token t) &&
    match token_expires_at t with
    | Some expiry => (now <? expiry)%Z
    | None => false
    end in
  if valid then {| ok := true; token := t; requested := false |}
  else if negb configured then {| ok := false; token := t; requested := false |}
  else
    match post with
    | Response status body =>
        if (status =? 200)%Z then
          match body with
          | Some token_data => store_token now' token_data t
          | None => {| ok := false; token := t; requested := true |}
          end
        else {| ok := false; token := t; requested := true |}
    | ReqTimeout => {| ok := false; token := t; requested := true |}
    | ReqFailed _ => {| ok := false; token := t; requested := true |}
    end.

End RedditAuth.

(** ** Telegram: the retries of one message *)

Module Telegram.

(** What one [bot.send_message] does. *)
Inductive SendAttempt :=
  | Delivered
  | SendTimeout
  | SendFailed (e : string).

(** What sending one message leaves: whether an attempt succeeded, the
    arguments of [asyncio.sleep] in milliseconds, the number of attempts. *)
Record Sending := mkSending {
  delivered : bool;
  pauses : list nat;
  attempts : nat
}.

Definition pause_then (ms : nat) (rest : Sending) : Sending :=
  {| delivered := delivered rest; pauses := ms :: pauses rest;
     attempts := S (attempts rest) |}.

(** The loop of [TelegramSender.send_comment] (lines 265-310): half a second
    after a success, [(attempt + 1) * 2] seconds after a timeout,
    [(attempt + 1) * 1.5] seconds after another exception, one second after
    the last failure. *)
Fixpoint send_comment_loop (max_retries attempt fuel : nat) (bot : nat -> SendAttempt)
    : Sending :=
  match fuel with
  | 0 => {| delivered := false; pauses := []; attempts := 0 |}
  | S fuel' =>
      let rest := send_comment_loop max_retries (S attempt) fuel' bot in
      match bot attempt with
      | Delivered => {| delivered := true; pauses := [500]; attempts := 1 |}
      | SendTimeout =>
          if bool_decide (attempt < max_retries - 1)
          then pause_then ((attempt + 1) * 2000) rest
          else {| delivered := false; pauses := [1000]; attempts := 1 |}
      | SendFailed _ =>
          if bool_decide (attempt < max_retries - 1)
          then pause_then ((attempt + 1) * 1500) rest
          else {| delivered := false; pauses := [1000]; attempts := 1 |}
      end
  end.

(** [TelegramSender.send_comment] (lines 246-310); [has_bot] is [self.bot]
    being set. *)
Definition send_comment (has_bot : bool) (max_retries : nat) (bot : nat -> SendAttempt)
    : Sending :=
  if has_bot then send_comment_loop max_retries 0 max_retries bot
  else {| delivered := false; pauses := []; attempts := 0 |}.

(** The loop of [TelegramSender.send_error] (lines 375-419): the same waits
    between attempts, no pause after a success or after the last failure. *)
Fixpoint send_error_loop (max_retries attempt fuel : nat) (bot : nat -> SendAttempt)
    : Sending :=
  match fuel with
  | 0 => {| delivered := false; pauses := []; attempts := 0 |}
  | S fuel' =>
      let rest := send_error_loop max_retries (S attempt) fuel' bot in
      match bot attempt with
      | Delivered => {| delivered := true; pauses := []; attempts := 1 |}
      | SendTimeout =>
          if bool_decide (attempt < max_retries - 1)
          then pause_then ((attempt + 1) * 2000) rest
          else {| delivered := false; pauses := []; attempts := 1 |}
      | SendFailed _ =>
          if bool_decide (attempt < max_retries - 1)
          then pause_then ((attempt + 1) * 1500) rest
          else {| delivered := false; pauses := []; attempts := 1 |}
      end
  end.

Definition send_error (has_bot : bool) (max_retries : nat) (bot : nat -> SendAttempt)
    : Sending :=
  if has_bot then send_error_loop max_retries 0 max_retries bot
  else {| delivered := false; pauses := []; attempts := 0 |}.

(** The wait after a failed attempt that is not the last. *)
Definition wait_after (a : SendAttempt) (attempt : nat) : nat :=
  match a with
  | Delivered => 0
  | SendTimeout => (attempt + 1) * 2000
  | SendFailed _ => (attempt + 1) * 1500
  end.

Definition is_delivered (a : SendAttempt) : bool :=
  match a with Delivered => true | _ => false end.

End Telegram.

(** ** The configured adapters *)

Module Config.

(** [SOCIAL_NETWORKS] (lines 136-158), the entries the monitor reads. *)
Record Settings := mkSettings {
  youtube_enabled : bool;
  youtube_api_key : string;
  youtube_channel_id : string;
  vk_enabled : bool;
  vk_access_token : string;
  vk_group_id : string;
  vk_group_url : string;
  reddit_enabled : bool;
  reddit_client_id : string;
  reddit_client_secret : string;
  reddit_user_agent : string;
  reddit_subreddits : list string
}.

(** The adapters as their constructors receive their arguments. *)
Inductive Adapter :=
  | YouTube (api_key channel_id : string)
  | VK (access_token group_id group_url : string)
  | Reddit (client_id client_secret user_agent subreddit : string).

(** Truthiness of a Python string. *)
Definition nonempty (s : string) : bool := negb (bool_decide (s = EmptyString)).

(** [source_name], set by the constructors: [super().__init__("YouTube")],
    [super().__init__("VK")], [super().__init__(f"Reddit (r/{subreddit})")]. *)
Definition source_name (a : Adapter) : string :=
  match a with
  | YouTube _ _ => "YouTube"
  | VK _ _ _ => "VK"
  | Reddit _ _ _ subreddit => "Reddit (r/" +:+ subreddit +:+ ")"
  end.

(** [is_configured] of the three adapters. *)
Definition is_configured (a : Adapter) : bool :=
  match a with
  | YouTube api_key channel_id => nonempty api_key && nonempty channel_id
  | VK access_token group_id _ => nonempty access_token && nonempty group_id
  | Reddit client_id client_secret user_agent subreddit =>
      nonempty client_id && nonempty client_secret && nonempty user_agent
      && nonempty subreddit
  end.

Section Parsers.

(** [str.strip]. *)
Variable strip : string -> string.

(** [CommentMonitor.get_configured_parsers] (lines 485-519). *)
Definition get_configured_parsers (s : Settings) : list Adapter :=
  (if youtube_enabled s && nonempty (youtube_api_key s) && nonempty (youtube_channel_id s)
   then [YouTube (youtube_api_key s) (youtube_channel_id s)] else [])
  ++ (if vk_enabled s && nonempty (vk_access_token s) && nonempty (vk_group_id s)
      then [VK (vk_access_token s) (vk_group_id s) (vk_group_url s)] else [])
  ++ (if reddit_enabled s && nonempty (reddit_client_id s)
         && nonempty (reddit_client_secret s)
      then omap (fun subreddit =>
                   let subreddit := strip subreddit in
                   if nonempty subreddit
                   then Some (Reddit (reddit_client_id s) (reddit_client_secret s)
                                     (reddit_user_agent s) subreddit)
                   else None)
                (reddit_subreddits s)
      else []).

End Parsers.

End Config.

(** ** Views of the monitor used by the further properties *)


Definition is_comment_call (call : SinkCall) : bool :=
  match call with SendComment _ _ => true | SendError _ _ => false end.

Definition is_error_call (call : SinkCall) : bool :=
  match call with SendComment _ _ => false | SendError _ _ => true end.


(** [load_state] (lines 831-844): every stored comment is rebuilt with the
    key of its list as [source]; author, text, timestamp and url are read
    back as they were written. *)
Definition with_source (parser_name : string) (c : Comment) : Comment :=
  mkComment (author c) (text c) parser_name (timestamp c) (source_url c).

Definition load_state (saved : gmap string (list Comment)) : gmap string (list Comment) :=
  map_imap (fun parser_name comments => Some (map (with_source parser_name) comments)) saved.

(** The process stopped and started again at [now] with the state file the
    previous process left. *)
Definition restart (st : CommentMonitor) (now : Z) : CommentMonitor :=
  init (parsers st) (load_state <$> state_file st) now.


(** The counters agree with the sink. *)
Definition tallied (st : CommentMonitor) : Prop :=
  total_comments_sent (stats st)
  = length (List.filter is_comment_call (telegram_sender st)) /\
  total_errors (stats st)
  = length (List.filter is_error_call (telegram_sender st)).

(** An attempt after which the shared loop of [vk_parser.py] and
    [reddit_parser.py] goes on to the next one. *)
Definition retried_plain (a : Attempt) : bool :=
  match a with
  | Response status body =>
      if (status =? 200)%Z then match body with None => true | Some _ => false end
      else transient_status status
  | ReqTimeout => true
  | ReqFailed _ => true
  end.

(** Waits put in front of what the rest of a loop leaves. *)
Definition after_sleeps {A} (waits : list nat) (rest : Fetched A) : Fetched A :=
  {| reply := reply rest; sleeps := waits ++ sleeps rest;
     tries := length waits + tries rest |}.

(** Two states of the YouTube adapter that differ in the record of requests
    only. *)
Definition same_fields (p p' : YouTubeParser.Parser) : Prop :=
  YouTubeParser.api_key p' = YouTubeParser.api_key p /\
  YouTubeParser.channel_id p' = YouTubeParser.channel_id p /\
  YouTubeParser.uploads_playlist_id p' = YouTubeParser.uploads_playlist_id p /\
  YouTubeParser.playlist_id_loaded p' = YouTubeParser.playlist_id_loaded p.

(** A computation that changes nothing but the record of requests. *)
Definition keeps_fields {A} (m : YouTubeParser.M A) : Prop :=
  forall net p, same_fields p (m net p).2.

(** A computation after which the playlist id is known or its lookup is
    marked as done, provided the mark, once set, was set before or the id was
    known before. *)
Definition keeps_mark {A} (m : YouTubeParser.M A) : Prop :=
  forall net p,
    YouTubeParser.playlist_id_loaded p = true ->
    YouTubeParser.playlist_id_loaded (m net p).2 = true.

(** Newest first: every comment is at least as recent as those after it. *)
Definition newest_first (l : list Comment) : Prop :=
  StronglySorted (fun c d => (YouTubeParser.sort_key d <= YouTubeParser.sort_key c)%Z) l.

(** ** Further concrete values *)

Module Extra.

(** A zone-aware timestamp whose UTC value is before [datetime.min]:
    0001-01-01T00:00:00+01:00. *)
Definition before_time : datetime := Aware datetime_min (3600 * 1000000).

Definition unconvertible : Comment :=
  mkComment "C" "lost" "YouTube" before_time "url3".

(** A network on which the channel has one video with two comments. *)
Definition one_video_net : YouTubeParser.Net :=
  fun req _ =>
    match req with
    | YouTubeParser.ChannelsContentDetails _ =>
        Response 200 (Some (JObj [("items",
          JArr [JObj [("contentDetails",
                  JObj [("relatedPlaylists", JObj [("uploads", JStr "UUabc")])])]])]))
    | YouTubeParser.PlaylistItems _ _ =>
        Response 200 (Some (JObj [("items",
          JArr [JObj [("contentDetails", JObj [("videoId", JStr "v1")])]])]))
    | YouTubeParser.CommentThreads _ _ _ =>
        Response 200 (Some (JObj [("items", JArr [JObj []; JObj []])]))
    | YouTubeParser.ChannelsForUsername _ => Response 404 None
    end.

(** A reading of comment bodies that finds an older and a newer comment. *)
Definition two_comments : Json -> Json -> list Comment :=
  fun _ _ => [Scenario.y; Scenario.x].

(** A network that fails every request with a timeout. *)
Definition dead_net : YouTubeParser.Net := fun _ _ => ReqTimeout.

End Extra.
(** ** Facts about strings *)

Lemma append_length (s1 s2 : string) :
  String.length (s1 +:+ s2) = String.length s1 + String.length s2.
Proof. induction s1 as [|a s1 IH]; simpl; [reflexivity | now rewrite IH]. Qed.

Lemma append_inj_l (s s1 s2 : string) : s +:+ s1 = s +:+ s2 -> s1 = s2.
Proof.
  induction s as [|a s IH]; simpl; intros H; [exact H |].
  injection H as H. now apply IH.
Qed.

Lemma append_inj_r (s s1 s2 : string) : s1 +:+ s = s2 +:+ s -> s1 = s2.
Proof.
  revert s2. induction s1 as [|a s1 IH]; intros [|b s2] H; simpl in H.
  - reflexivity.
  - apply (f_equal String.length) in H.
    rewrite !append_length in H. simpl in H. lia.
  - apply (f_equal String.length) in H.
    rewrite !append_length in H. simpl in H. lia.
  - injection H as Hab H. f_equal; [exact Hab | now apply IH].
Qed.

(** ** Facts about the filter *)

Lemma window_fold start name cs filtered skipped lg :
  (foldl (window_step start name) (filtered, skipped, lg) cs).1.1
  = filtered ++ List.filter (after_start start) cs.
Proof.
  revert filtered skipped lg.
  induction cs as [|c cs IH]; intros filtered skipped lg; cbn [foldl List.filter].
  - now rewrite app_nil_r.
  - destruct (window_step start name (filtered, skipped, lg) c)
      as [[filtered' skipped'] lg'] eqn:E.
    rewrite IH. unfold window_step in E. unfold after_start.
    destruct (to_naive_utc (timestamp c)) as [t|].
    + destruct (start <=? t)%Z; inversion E; subst; [| reflexivity].
      now rewrite <- app_assoc.
    + inversion E; subst. reflexivity.
Qed.

Lemma dedup_fold known name cs acc lg :
  (foldl (dedup_step known name) (acc, lg) cs).1
  = acc ++ List.filter (fun c => negb (is_known known c)) cs.
Proof.
  revert acc lg.
  induction cs as [|c cs IH]; intros acc lg; cbn [foldl List.filter].
  - now rewrite app_nil_r.
  - destruct (dedup_step known name (acc, lg) c) as [acc' lg'] eqn:E.
    rewrite IH. unfold dedup_step in E. unfold is_known.
    destruct (bool_decide (fingerprint c ∈ known)); inversion E; subst; simpl.
    + reflexivity.
    + now rewrite <- app_assoc.
Qed.

Lemma known_keys_fold (acc : gset string) (last : list Comment) (k : string) :
  k ∈ foldl (fun known c => known ∪ {[fingerprint c]}) acc last
  <-> k ∈ acc \/ exists c, c ∈ last /\ fingerprint c = k.
Proof.
  revert acc. induction last as [|c last IH]; intros acc; simpl.
  - split; [auto | intros [H | (c & Hc & _)]; [exact H | inversion Hc]].
  - rewrite IH. split.
    + intros [H | (c' & Hc' & Hk)].
      * apply elem_of_union in H as [H | H]; [now left |].
        apply elem_of_singleton in H. right. exists c. split; [left | now symmetry].
      * right. exists c'. split; [now right | exact Hk].
    + intros [H | (c' & Hc' & Hk)].
      * left. apply elem_of_union. now left.
      * apply elem_of_cons in Hc' as [-> | Hc'].
        -- left. apply elem_of_union. right. now apply elem_of_singleton.
        -- right. exists c'. now split.
Qed.

Lemma known_keys_spec (last : list Comment) (k : string) :
  k ∈ known_keys last <-> exists c, c ∈ last /\ fingerprint c = k.
Proof.
  unfold known_keys. rewrite known_keys_fold. split.
  - intros [H | H]; [now apply not_elem_of_empty in H | exact H].
  - intros H. now right.
Qed.

Lemma get_new_comments_result st name cs :
  (get_new_comments st name cs).1
  = new_comments_of (first_run st) (last_comments st !! name)
                    (parser_start_time st) cs.
Proof.
  unfold get_new_comments, new_comments_of.
  pose proof (window_fold (parser_start_time st) name cs [] 0 (logger st)) as Hw.
  destruct (foldl (window_step (parser_start_time st) name) ([], 0, logger st) cs)
    as [[filtered skipped] lg1].
  simpl in Hw. subst filtered.
  destruct (first_run st); [reflexivity |].
  destruct (last_comments st !! name) as [last|]; [| reflexivity].
  match goal with
  | |- context [foldl (dedup_step ?k ?n) (?a, ?l) ?xs] =>
      pose proof (dedup_fold k n xs a l) as Hd;
      destruct (foldl (dedup_step k n) (a, l) xs) as [new_comments lg4]
  end.
  simpl in Hd. now subst new_comments.
Qed.

(** The filter changes the log only. *)
Lemma get_new_comments_frame st name cs :
  let st' := (get_new_comments st name cs).2 in
  parsers st' = parsers st /\ last_comments st' = last_comments st /\
  first_run st' = first_run st /\ parser_start_time st' = parser_start_time st /\
  stats st' = stats st /\ console st' = console st /\
  telegram_sender st' = telegram_sender st /\ state_file st' = state_file st.
Proof.
  unfold get_new_comments.
  destruct (foldl (window_step (parser_start_time st) name) ([], 0, logger st) cs)
    as [[filtered skipped] lg1].
  destruct (first_run st) eqn:Hfr; [simpl; rewrite ?Hfr; repeat split |].
  destruct (last_comments st !! name) as [last|]; [| simpl; rewrite ?Hfr; repeat split].
  match goal with
  | |- context [foldl (dedup_step ?k ?n) (?a, ?l) ?xs] =>
      destruct (foldl (dedup_step k n) (a, l) xs) as [new_comments lg4]
  end.
  simpl. rewrite ?Hfr. repeat split.
Qed.

Lemma elem_of_new_comments_of fr stored start cs c :
  c ∈ new_comments_of fr stored start cs ->
  fr = false /\ c ∈ cs /\ after_start start c = true /\
  exists last, stored = Some last /\ fingerprint c ∉ known_keys last.
Proof.
  unfold new_comments_of. destruct fr; [intros H; inversion H |].
  destruct stored as [last|]; [| intros H; inversion H].
  rewrite !list_elem_of_In, !filter_In. intros [[Hin Ha] Hk].
  repeat split; try assumption. exists last. split; [reflexivity |].
  unfold is_known in Hk. apply negb_true_iff, bool_decide_eq_false in Hk. exact Hk.
Qed.

(** ** The window: nothing older than the start time is returned *)

(** C1. For every call of [get_new_comments], a candidate whose timestamp,
    normalised to naive UTC, is strictly before [parser_start_time] is not in
    the returned list, whatever the stored comments of the source are. *)
Theorem get_new_comments_excludes_pre_start
    (st : CommentMonitor) (parser_name : string) (current_comments : list Comment)
    (c : Comment) (t : Z) :
  to_naive_utc (timestamp c) = Some t ->
  (t < parser_start_time st)%Z ->
  c ∉ (get_new_comments st parser_name current_comments).1.
Proof.
  intros Ht Hlt Hin. rewrite get_new_comments_result in Hin.
  apply elem_of_new_comments_of in Hin as (_ & _ & Ha & _).
  unfold after_start in Ha. rewrite Ht in Ha.
  apply Z.leb_le in Ha. lia.
Qed.

(** ** Cold start *)

(** C2. When [first_run] is set, or the source has no entry in
    [last_comments], [get_new_comments] returns the empty list for every
    batch. *)
Theorem get_new_comments_cold_start_empty
    (st : CommentMonitor) (parser_name : string) (current_comments : list Comment) :
  first_run st = true \/ last_comments st !! parser_name = None ->
  (get_new_comments st parser_name current_comments).1 = [].
Proof.
  intros H. rewrite get_new_comments_result. unfold new_comments_of.
  destruct (first_run st); [reflexivity |].
  destruct H as [H | H]; [discriminate | now rewrite H].
Qed.

(** A process that finds no state file starts with [first_run] set. *)
Lemma init_without_state_is_first_run configured now :
  first_run (init configured None now) = true.
Proof. reflexivity. Qed.

(** ** The fingerprint *)

(** C6. The fingerprint is a function of [author], [text] and [source_url]
    alone: two comments that agree on the three fields have the same
    fingerprint whatever their timestamps and sources, and changing exactly
    one of the three fields changes the fingerprint. *)
Theorem fingerprint_three_fields (c1 c2 : Comment) :
  (author c1 = author c2 -> text c1 = text c2 -> source_url c1 = source_url c2 ->
   fingerprint c1 = fingerprint c2) /\
  (author c1 <> author c2 -> text c1 = text c2 -> source_url c1 = source_url c2 ->
   fingerprint c1 <> fingerprint c2) /\
  (author c1 = author c2 -> text c1 <> text c2 -> source_url c1 = source_url c2 ->
   fingerprint c1 <> fingerprint c2) /\
  (author c1 = author c2 -> text c1 = text c2 -> source_url c1 <> source_url c2 ->
   fingerprint c1 <> fingerprint c2).
Proof.
  unfold fingerprint. repeat split.
  - intros -> -> ->. reflexivity.
  - intros Ha -> -> H. apply Ha. now apply append_inj_r in H.
  - intros -> Ht -> H. apply Ht.
    apply append_inj_l, append_inj_l in H. now apply append_inj_r in H.
  - intros -> -> Hu H. apply Hu.
    now apply append_inj_l, append_inj_l, append_inj_l, append_inj_l in H.
Qed.

(** ** The filter reads the dedup state and does not change it *)

(** C7. Two calls of [get_new_comments] with the same batch, the same stored
    entry of the source, the same [first_run] and the same
    [parser_start_time] return the same list, and a call leaves
    [last_comments], [first_run] and [parser_start_time] as they were. *)
Theorem get_new_comments_idempotent
    (st1 st2 : CommentMonitor) (parser_name : string) (current_comments : list Comment) :
  last_comments st1 !! parser_name = last_comments st2 !! parser_name ->
  first_run st1 = first_run st2 ->
  parser_start_time st1 = parser_start_time st2 ->
  (get_new_comments st1 parser_name current_comments).1
  = (get_new_comments st2 parser_name current_comments).1 /\
  (let st1' := (get_new_comments st1 parser_name current_comments).2 in
   last_comments st1' = last_comments st1 /\
   first_run st1' = first_run st1 /\
   parser_start_time st1' = parser_start_time st1 /\
   (get_new_comments st1' parser_name current_comments).1
   = (get_new_comments st1 parser_name current_comments).1).
Proof.
  intros Hl Hf Hs. split.
  - rewrite !get_new_comments_result. now rewrite Hl, Hf, Hs.
  - destruct (get_new_comments_frame st1 parser_name current_comments)
      as (_ & Hl' & Hf' & Hs' & _).
    cbv zeta. repeat split; try assumption.
    rewrite !get_new_comments_result. now rewrite Hl', Hf', Hs'.
Qed.

Lemma get_new_comments_excludes_pre_start_witness :
  Scenario.y ∉ (get_new_comments (init ["VK"] (Some {["VK" := []]})
                                   (Scenario.epoch + Scenario.seconds 10)%Z)
                                 "VK" [Scenario.x; Scenario.y]).1.
Proof.
  apply (get_new_comments_excludes_pre_start _ "VK" [Scenario.x; Scenario.y]
           Scenario.y (Scenario.epoch + Scenario.seconds 5)%Z).
  - reflexivity.
  - vm_compute. reflexivity.
Defined.

Lemma get_new_comments_cold_start_empty_witness :
  (get_new_comments Scenario.cold "src" [Scenario.item]).1 = [].
Proof.
  apply (get_new_comments_cold_start_empty Scenario.cold "src" [Scenario.item]).
  left. reflexivity.
Defined.

Lemma fingerprint_three_fields_witness :
  fingerprint (mkComment "A" "hi" "VK" (Naive 0) "url1")
  <> fingerprint (mkComment "A" "ho" "YouTube" (Naive 7) "url1").
Proof.
  apply (proj1 (proj2 (proj2
           (fingerprint_three_fields (mkComment "A" "hi" "VK" (Naive 0) "url1")
                                     (mkComment "A" "ho" "YouTube" (Naive 7) "url1"))))).
  - reflexivity.
  - simpl. discriminate.
  - reflexivity.
Defined.

Lemma get_new_comments_idempotent_witness :
  (get_new_comments Scenario.warm "src" [Scenario.fresh_one; Scenario.item]).1
  = (get_new_comments (log LvInfo MsgChecking Scenario.warm) "src"
                      [Scenario.fresh_one; Scenario.item]).1.
Proof.
  apply (get_new_comments_idempotent Scenario.warm (log LvInfo MsgChecking Scenario.warm)
           "src" [Scenario.fresh_one; Scenario.item]); reflexivity.
Defined.

(** ** The three-cycle scenario *)

(** The scenario as the specification tells it: nothing in the first cycle,
    the item in the second, nothing in the third. The code does not do that,
    neither from a start without state nor from a state file with an empty
    entry for the source. *)
Lemma scenario_second_cycle_is_silent :
  ~ (Scenario.filter_in_cycle 0 = [] /\
     Scenario.filter_in_cycle 1 = [Scenario.item] /\
     Scenario.filter_in_cycle 2 = []) /\
  ~ (Scenario.filter_in_cycle_from Scenario.empty_entry 0 = [] /\
     Scenario.filter_in_cycle_from Scenario.empty_entry 1 = [Scenario.item] /\
     Scenario.filter_in_cycle_from Scenario.empty_entry 2 = []).
Proof.
  split.
  - intros (_ & H & _). vm_compute in H. discriminate H.
  - intros (H & _). vm_compute in H. discriminate H.
Qed.

(** C5, as the code behaves. From a start without state at
    2024-01-01T00:00:00Z, with the batch [{A, "hi", url1, 00:00:05Z}] fetched
    in every cycle, the filter returns the empty list in the first, the
    second and the third cycle: the first cycle stores the batch, so the item
    is known from the second cycle on, and the sink receives nothing. From a
    state file with an empty entry for the source, the filter returns the
    item in the first cycle and the empty list in the second and the third. *)
Theorem scenario_three_cycles :
  (Scenario.filter_in_cycle 0 = [] /\
   last_comments (Scenario.after_cycles 1) !! "src" = Some [Scenario.item] /\
   first_run (Scenario.after_cycles 1) = false /\
   Scenario.filter_in_cycle 1 = [] /\
   Scenario.filter_in_cycle 2 = [] /\
   telegram_sender (Scenario.after_cycles 3) = []) /\
  (Scenario.filter_in_cycle_from Scenario.empty_entry 0 = [Scenario.item] /\
   Scenario.filter_in_cycle_from Scenario.empty_entry 1 = [] /\
   Scenario.filter_in_cycle_from Scenario.empty_entry 2 = [] /\
   telegram_sender (Scenario.cycles_from Scenario.empty_entry 3)
   = [SendComment Scenario.item "src"]).
Proof. vm_compute. repeat split; reflexivity. Qed.

(** ** Key collisions *)

(** C10. The separator of the key is a character the fields may contain:
    two comments with different (author, text, url) triples can have the same
    fingerprint, and then the filter drops a comment that was never seen
    because a different, stored comment has its key. *)
Theorem fingerprint_collision :
  ((author Scenario.known_one, text Scenario.known_one, source_url Scenario.known_one)
   <> (author Scenario.fresh_one, text Scenario.fresh_one, source_url Scenario.fresh_one)) /\
  fingerprint Scenario.known_one = fingerprint Scenario.fresh_one /\
  first_run Scenario.warm = false /\
  last_comments Scenario.warm !! "src" = Some [Scenario.known_one] /\
  after_start (parser_start_time Scenario.warm) Scenario.fresh_one = true /\
  (Scenario.fresh_one ∉ [Scenario.known_one]) /\
  (get_new_comments Scenario.warm "src" [Scenario.fresh_one]).1 = [].
Proof.
  repeat split; try (vm_compute; reflexivity).
  - intros H. vm_compute in H. discriminate H.
  - intros H. apply list_elem_of_singleton in H. discriminate H.
Qed.

(** ** Repeated emission *)

(** A comment is handed to the sink twice. In the first run the source
    returns [x], then an empty batch, then [x] again. In the second run
    nothing fails: the source returns the same 101 comments in every cycle,
    the last of them is never among the 100 stored ones, and it is sent in
    the second cycle and in the third. *)
Lemma outage_emits_twice :
  ~ NoDup (Scenario.forwarded_keys "VK" (run Scenario.outage Scenario.vk_cold)) /\
  ~ NoDup (Scenario.forwarded_keys "VK" (run Scenario.crowded Scenario.vk_warm)).
Proof.
  split.
  - apply (bool_decide_eq_false_1
             (NoDup (Scenario.forwarded_keys "VK" (run Scenario.outage Scenario.vk_cold)))).
    vm_compute. reflexivity.
  - apply (bool_decide_eq_false_1
             (NoDup (Scenario.forwarded_keys "VK" (run Scenario.crowded Scenario.vk_warm)))).
    vm_compute. reflexivity.
Qed.

(** ** One task of a cycle *)

Lemma new_comments_of_nil fr stored start : new_comments_of fr stored start [] = [].
Proof. unfold new_comments_of. destruct fr, stored; reflexivity. Qed.

Lemma send_comments_frame name limited st :
  let st' := send_comments name limited st in
  parsers st' = parsers st /\ last_comments st' = last_comments st /\
  first_run st' = first_run st /\ parser_start_time st' = parser_start_time st /\
  logger st' = logger st /\ console st' = console st /\
  state_file st' = state_file st /\
  telegram_sender st' = telegram_sender st ++ map (fun c => SendComment c name) limited /\
  total_comments_sent (stats st') = total_comments_sent (stats st) + length limited /\
  total_errors (stats st') = total_errors (stats st) /\
  parser_stats (stats st') = parser_stats (stats st).
Proof.
  unfold send_comments. revert st.
  induction limited as [|c limited IH]; intros st; cbn [foldl map length].
  - rewrite app_nil_r, Nat.add_0_r. repeat split.
  - destruct (IH (set_stats (bump_sent (stats (call_sink (SendComment c name) st)))
                            (call_sink (SendComment c name) st)))
      as (H1 & H2 & H3 & H4 & H5 & H6 & H7 & H8 & H9 & H10 & H11).
    cbv zeta in *. rewrite H1, H2, H3, H4, H5, H6, H7, H8, H9, H10, H11. simpl.
    rewrite <- app_assoc. repeat split. lia.
Qed.

(** What one task does to the fields the dedup depends on and to the sink. *)
Lemma check_single_core st m fetch now :
  let st' := (_check_single_parser st m fetch now).2 in
  parsers st' = parsers st /\ first_run st' = first_run st /\
  parser_start_time st' = parser_start_time st /\
  match fetch (per_parser_limit m) with
  | Returned b =>
      last_comments st' = <[m := take 100 b]> (last_comments st) /\
      telegram_sender st'
      = telegram_sender st
        ++ map (fun c => SendComment c m)
               (take 10 (new_comments_of (first_run st) (last_comments st !! m)
                                         (parser_start_time st) b))
  | RaisedQuota e =>
      last_comments st' = last_comments st /\
      telegram_sender st' = telegram_sender st ++ [SendError e m]
  | RaisedOther e =>
      last_comments st' = last_comments st /\
      telegram_sender st' = telegram_sender st ++ [SendError (check_failed_text m e) m]
  end.
Proof.
  unfold _check_single_parser.
  destruct (fetch (per_parser_limit m)) as [[|c0 b]|e|e].
  - simpl. rewrite new_comments_of_nil, app_nil_r. repeat split.
  - match goal with
    | |- context [get_new_comments ?s m (c0 :: b)] =>
        pose proof (get_new_comments_result s m (c0 :: b)) as Hr;
        pose proof (get_new_comments_frame s m (c0 :: b)) as Hf;
        destruct (get_new_comments s m (c0 :: b)) as [new st2]
    end.
    cbv zeta in Hf. cbn [fst snd] in Hr, Hf.
    destruct Hf as (Hp & Hl & Hfr & Hs & _ & _ & Ht & _).
    cbn [parsers last_comments first_run parser_start_time telegram_sender set_stats]
      in Hr, Hp, Hl, Hfr, Hs, Ht.
    rewrite <- Hr.
    destruct new as [|n0 new].
    + cbn. rewrite app_nil_r, Hp, Hl, Hfr, Hs, Ht. repeat split.
    + match goal with
      | |- context [send_comments m ?l ?s] =>
          destruct (send_comments_frame m l s) as (S1 & S2 & S3 & S4 & _ & _ & _ & S8 & _)
      end.
      cbv zeta in S1, S2, S3, S4, S8. cbn -[take] in *.
      rewrite S1, S2, S3, S4, S8.
      destruct (bool_decide (10 < S (length new))); cbn -[take];
        rewrite Hp, Hl, Hfr, Hs, Ht; repeat split.
  - simpl. repeat split.
  - simpl. repeat split.
Qed.

(** ** A stored key silences the sink *)

Lemma quiet_refl n k st : quiet n k st st.
Proof.
  exists []. split; [now rewrite app_nil_r |].
  intros c H. inversion H.
Qed.

Lemma quiet_trans n k st1 st2 st3 :
  quiet n k st1 st2 -> quiet n k st2 st3 -> quiet n k st1 st3.
Proof.
  intros (a1 & E1 & H1) (a2 & E2 & H2). exists (a1 ++ a2). split.
  - rewrite E2, E1. now rewrite app_assoc.
  - intros c Hc. apply elem_of_app in Hc as [Hc | Hc]; [now apply H1 | now apply H2].
Qed.

Lemma task_quiet st m fetch now n k :
  stored_key st n k ->
  (m = n -> keeps_key k (fetch (per_parser_limit m))) ->
  let st' := (_check_single_parser st m fetch now).2 in
  quiet n k st st' /\ stored_key st' n k /\ parsers st' = parsers st.
Proof.
  intros (last & Hlast & Hk) Hkeep.
  destruct (check_single_core st m fetch now) as (Hp & _ & _ & H).
  cbv zeta in *.
  destruct (fetch (per_parser_limit m)) as [b|e|e]; destruct H as [Hl Ht].
  - split; [| split; [| exact Hp]].
    + eexists. split; [exact Ht |].
      intros c Hc. apply list_elem_of_fmap in Hc as (c' & Heq & Hc').
      injection Heq as -> ->.
      apply elem_of_take in Hc' as (i & Hc' & _).
      apply list_elem_of_lookup_2 in Hc'.
      apply elem_of_new_comments_of in Hc' as (_ & _ & _ & last' & E & Hnot).
      rewrite Hlast in E. injection E as <-. intros Ek. rewrite Ek in Hnot. contradiction.
    + unfold stored_key. rewrite Hl. destruct (decide (m = n)) as [-> | Hne].
      * rewrite lookup_insert_eq. eexists. split; [reflexivity |].
        apply known_keys_spec. exact (Hkeep eq_refl).
      * rewrite lookup_insert_ne by exact Hne. now exists last.
  - split; [| split; [| exact Hp]].
    + eexists. split; [exact Ht |].
      intros c Hc. apply list_elem_of_singleton in Hc. discriminate Hc.
    + unfold stored_key. rewrite Hl. now exists last.
  - split; [| split; [| exact Hp]].
    + eexists. split; [exact Ht |].
      intros c Hc. apply list_elem_of_singleton in Hc. discriminate Hc.
    + unfold stored_key. rewrite Hl. now exists last.
Qed.

Lemma run_tasks_fold env now l results st :
  (foldl (fun '(results, st) '(i, parser_name) =>
            let '(r, st) := _check_single_parser st parser_name (env i) now in
            (results ++ [r], st))
         (results, st) l).2
  = tasks_state env now l st.
Proof.
  unfold tasks_state. revert results st.
  induction l as [|[i m] l IH]; intros results st; cbn [foldl]; [reflexivity |].
  destruct (_check_single_parser st m (env i) now) as [r st1] eqn:E.
  rewrite IH. reflexivity.
Qed.

Lemma elem_of_indexed ps i m : (i, m) ∈ indexed ps <-> ps !! i = Some m.
Proof.
  unfold indexed. rewrite elem_of_lookup_imap. split.
  - intros (j & y & E & H). injection E as -> ->. exact H.
  - intros H. now exists i, m.
Qed.

Lemma tasks_quiet env now n k l st :
  stored_key st n k ->
  (forall i, (i, n) ∈ l -> keeps_key k (env i (per_parser_limit n))) ->
  let st' := tasks_state env now l st in
  quiet n k st st' /\ stored_key st' n k /\ parsers st' = parsers st.
Proof.
  unfold tasks_state. revert st.
  induction l as [|[i m] l IH]; intros st Hst Hkeep; cbn [foldl].
  - split; [apply quiet_refl | now split].
  - destruct (task_quiet st m (env i) now n k Hst) as (Hq & Hst1 & Hp1).
    { intros ->. apply Hkeep. left. }
    destruct (IH _ Hst1) as (Hq2 & Hst2 & Hp2).
    { intros j Hj. apply Hkeep. now right. }
    cbv zeta in *. split; [| split].
    + eapply quiet_trans; eassumption.
    + exact Hst2.
    + now rewrite Hp2.
Qed.

Lemma found_fold_same_dedup results st :
  same_dedup st
    (foldl (fun st r =>
              match res_comments r with
              | _ :: _ => set_stats (add_found (length (res_comments r)) (stats st)) st
              | [] => st
              end) st results).
Proof.
  revert st. induction results as [|r results IH]; intros st; cbn [foldl].
  - repeat split.
  - destruct (res_comments r) as [|c0 cs]; [apply IH |].
    destruct (IH (set_stats (add_found (length (c0 :: cs)) (stats st)) st))
      as (H1 & H2 & H3).
    repeat split; [rewrite H1 | rewrite H2 | rewrite H3]; reflexivity.
Qed.

Lemma same_dedup_quiet_r n k st a b :
  same_dedup a b -> quiet n k st a -> quiet n k st b.
Proof.
  intros (_ & _ & Ht) (added & E & H). exists added. split; [| exact H].
  now rewrite Ht.
Qed.

Lemma same_dedup_quiet_l n k st a b :
  same_dedup a b -> quiet n k a st -> quiet n k b st.
Proof.
  intros (_ & _ & Ht) (added & E & H). exists added. split; [| exact H].
  now rewrite Ht.
Qed.

Lemma same_dedup_stored_key n k a b :
  same_dedup a b -> stored_key a n k -> stored_key b n k.
Proof.
  intros (_ & Hl & _) (last & E & H). exists last. split; [| exact H].
  now rewrite Hl.
Qed.

Lemma entering_same_dedup st : same_dedup st (entering st).
Proof. repeat split. Qed.

(** As far as the dedup and the sink are concerned, [check_parsers] leaves
    what its tasks leave. *)
Lemma check_parsers_tasks env now st :
  same_dedup (tasks_state env now (indexed (parsers st)) (entering st))
             (check_parsers env now st).
Proof.
  unfold check_parsers. fold (entering st).
  change (parsers (entering st)) with (parsers st).
  destruct (parsers st) as [|p ps] eqn:Ep; [repeat split |].
  unfold run_tasks. change (parsers (entering st)) with (parsers st). rewrite Ep.
  fold (indexed (p :: ps)).
  pose proof (run_tasks_fold env now (indexed (p :: ps)) [] (entering st)) as Hfold.
  destruct (foldl _ ([], entering st) (indexed (p :: ps))) as [results st1].
  cbn [snd] in Hfold. subst st1.
  destruct (found_fold_same_dedup results
              (tasks_state env now (indexed (p :: ps)) (entering st)))
    as (H1 & H2 & H3).
  set (st2 := foldl _ (tasks_state env now (indexed (p :: ps)) (entering st)) results) in *.
  destruct (bool_decide _); repeat split; assumption.
Qed.

Lemma same_dedup_sym a b : same_dedup a b -> same_dedup b a.
Proof. intros (A & B & C). repeat split; symmetry; assumption. Qed.

(** A whole [check_parsers] keeps a stored key stored and the sink quiet,
    when every fetch of the source keeps the key. *)
Lemma check_parsers_quiet env now n k st :
  stored_key st n k ->
  (forall i, parsers st !! i = Some n -> keeps_key k (env i (per_parser_limit n))) ->
  let st' := check_parsers env now st in
  quiet n k st st' /\ stored_key st' n k /\ parsers st' = parsers st.
Proof.
  intros Hst Hkeep.
  pose proof (check_parsers_tasks env now st) as Hsame.
  destruct (tasks_quiet env now n k (indexed (parsers st)) (entering st))
    as (Hq & Hs & Hp).
  { eapply same_dedup_stored_key; [apply entering_same_dedup | exact Hst]. }
  { intros i Hi. apply Hkeep. now apply elem_of_indexed. }
  cbv zeta in *. split; [| split].
  - eapply same_dedup_quiet_r; [exact Hsame |].
    eapply same_dedup_quiet_l; [| exact Hq].
    apply same_dedup_sym, entering_same_dedup.
  - eapply same_dedup_stored_key; [exact Hsame | exact Hs].
  - destruct Hsame as (-> & _). exact Hp.
Qed.

Lemma cycle_quiet env now n k st :
  stored_key st n k ->
  (forall i, parsers st !! i = Some n -> keeps_key k (env i (per_parser_limit n))) ->
  let st' := cycle env now st in
  quiet n k st st' /\ stored_key st' n k /\ parsers st' = parsers st.
Proof.
  intros Hst Hkeep.
  destruct (check_parsers_quiet env now n k st Hst Hkeep) as (Hq & Hs & Hp).
  cbv zeta in *. unfold cycle.
  destruct (first_run (check_parsers env now st)); [| now repeat split].
  split; [| split]; [| | exact Hp].
  - eapply same_dedup_quiet_r; [| exact Hq]. repeat split.
  - eapply same_dedup_stored_key; [| exact Hs]. repeat split.
Qed.

Lemma run_quiet envs n k st :
  stored_key st n k ->
  (forall env now i, (env, now) ∈ envs -> parsers st !! i = Some n ->
                     keeps_key k (env i (per_parser_limit n))) ->
  let st' := run envs st in
  quiet n k st st' /\ stored_key st' n k /\ parsers st' = parsers st.
Proof.
  unfold run. revert st.
  induction envs as [|[env now] envs IH]; intros st Hst Hkeep; cbn [foldl].
  - split; [apply quiet_refl | now split].
  - destruct (cycle_quiet env now n k st Hst) as (Hq & Hs & Hp).
    { intros i Hi. eapply Hkeep; [left | exact Hi]. }
    cbv zeta in Hq, Hs, Hp.
    destruct (IH (cycle env now st) Hs) as (Hq2 & Hs2 & Hp2).
    { intros env' now' i Hin Hi. rewrite Hp in Hi. eapply Hkeep; [right; exact Hin | exact Hi]. }
    cbv zeta in *. split; [| split].
    + eapply quiet_trans; eassumption.
    + exact Hs2.
    + now rewrite Hp2.
Qed.

(** ** A fetched batch is stored *)

Lemma returns_key_keeps k r : returns_key k r -> keeps_key k r.
Proof. intros (b & c & -> & Hc & Hk). now exists c. Qed.

Lemma task_establish st n fetch now k :
  returns_key k (fetch (per_parser_limit n)) ->
  stored_key (_check_single_parser st n fetch now).2 n k.
Proof.
  intros (b & c & E & Hc & Hk).
  destruct (check_single_core st n fetch now) as (_ & _ & _ & H).
  cbv zeta in H. rewrite E in H. destruct H as [Hl _].
  unfold stored_key. rewrite Hl, lookup_insert_eq.
  eexists. split; [reflexivity |]. apply known_keys_spec. now exists c.
Qed.

Lemma tasks_establish env now n k l st :
  (forall i, (i, n) ∈ l -> returns_key k (env i (per_parser_limit n))) ->
  stored_key st n k \/ (exists i, (i, n) ∈ l) ->
  stored_key (tasks_state env now l st) n k.
Proof.
  unfold tasks_state. revert st.
  induction l as [|[i m] l IH]; intros st Hret Hor; cbn [foldl].
  - destruct Hor as [H | [i H]]; [exact H | inversion H].
  - apply IH; [intros j Hj; apply Hret; now right |].
    destruct (decide (m = n)) as [-> | Hne].
    + left. apply task_establish. apply Hret. left.
    + destruct Hor as [H | [j H]].
      * left. apply (task_quiet st m (env i) now n k H). intros E. contradiction.
      * right. exists j. apply elem_of_cons in H as [H | H]; [| exact H].
        injection H as _ E. symmetry in E. contradiction.
Qed.

Lemma tasks_parsers env now l st : parsers (tasks_state env now l st) = parsers st.
Proof.
  unfold tasks_state. revert st.
  induction l as [|[i m] l IH]; intros st; cbn [foldl]; [reflexivity |].
  rewrite IH. apply (check_single_core st m (env i) now).
Qed.

Lemma check_parsers_establish env now n k st :
  n ∈ parsers st ->
  (forall i, parsers st !! i = Some n -> returns_key k (env i (per_parser_limit n))) ->
  let st' := check_parsers env now st in
  stored_key st' n k /\ parsers st' = parsers st.
Proof.
  intros Hin Hret.
  pose proof (check_parsers_tasks env now st) as Hsame.
  cbv zeta. split.
  - eapply same_dedup_stored_key; [exact Hsame |].
    apply tasks_establish.
    + intros i Hi. apply Hret. now apply elem_of_indexed.
    + right. apply list_elem_of_lookup_1 in Hin as [i Hi].
      exists i. now apply elem_of_indexed.
  - destruct Hsame as (-> & _). now rewrite tasks_parsers.
Qed.

Lemma cycle_establish env now n k st :
  n ∈ parsers st ->
  (forall i, parsers st !! i = Some n -> returns_key k (env i (per_parser_limit n))) ->
  let st' := cycle env now st in
  stored_key st' n k /\ parsers st' = parsers st.
Proof.
  intros Hin Hret.
  destruct (check_parsers_establish env now n k st Hin Hret) as (Hs & Hp).
  cbv zeta in *. unfold cycle.
  destruct (first_run (check_parsers env now st)); [| now split].
  split; [| exact Hp].
  eapply same_dedup_stored_key; [| exact Hs]. repeat split.
Qed.

(** C3, as the code behaves. Once a fetch of a source has returned a comment
    among the first 100 items of its batch (which is the case of a comment
    emitted from such a position), no later cycle hands a comment with that
    fingerprint to the sink for that source, as long as every later fetch of
    the source raises or returns the fingerprint among its first 100 items
    again. *)
Theorem stored_comment_not_emitted_again
    (st : CommentMonitor) (n k : string) (env0 : CycleEnv) (now0 : Z)
    (envs : list (CycleEnv * Z)) :
  n ∈ parsers st ->
  (forall i, parsers st !! i = Some n -> returns_key k (env0 i (per_parser_limit n))) ->
  (forall env now i, (env, now) ∈ envs -> parsers st !! i = Some n ->
                     keeps_key k (env i (per_parser_limit n))) ->
  quiet n k (cycle env0 now0 st) (run envs (cycle env0 now0 st)).
Proof.
  intros Hin Hret Hkeep.
  destruct (cycle_establish env0 now0 n k st Hin Hret) as (Hs & Hp).
  cbv zeta in Hs, Hp.
  apply (run_quiet envs n k (cycle env0 now0 st) Hs).
  intros env now i He Hi. rewrite Hp in Hi. eapply Hkeep; eassumption.
Qed.

Lemma stored_comment_not_emitted_again_witness :
  quiet "VK" (fingerprint Scenario.x)
        (cycle Scenario.steady_first (Scenario.epoch + Scenario.seconds 30)%Z
               Scenario.vk_warm)
        (run Scenario.steady_rest
             (cycle Scenario.steady_first (Scenario.epoch + Scenario.seconds 30)%Z
                    Scenario.vk_warm)).
Proof.
  apply (stored_comment_not_emitted_again Scenario.vk_warm "VK" (fingerprint Scenario.x)
           Scenario.steady_first (Scenario.epoch + Scenario.seconds 30)%Z
           Scenario.steady_rest).
  - left.
  - intros i _. exists [Scenario.x; Scenario.y], Scenario.x.
    split; [reflexivity | split; [left | reflexivity]].
  - intros env now i Hin _.
    apply elem_of_cons in Hin as [Hin | Hin]; [injection Hin as -> _; exact I |].
    apply list_elem_of_singleton in Hin. injection Hin as -> _.
    exists Scenario.x. split; [right; left | reflexivity].
Defined.

(** ** The cap of ten *)

(** The task in the case of a non-empty batch: sink, counter, log and stored
    batch. *)
Lemma check_single_returned st n fetch now c0 b :
  fetch (per_parser_limit n) = Returned (c0 :: b) ->
  let new := (get_new_comments st n (c0 :: b)).1 in
  let st' := (_check_single_parser st n fetch now).2 in
  res_new_comments (_check_single_parser st n fetch now).1 = new /\
  telegram_sender st' = telegram_sender st ++ map (fun c => SendComment c n) (take 10 new) /\
  total_comments_sent (stats st')
  = total_comments_sent (stats st) + length (take 10 new) /\
  (10 < length new -> (LvInfo, MsgLimited n 10 (length new)) ∈ logger st') /\
  last_comments st' = <[n := take 100 (c0 :: b)]> (last_comments st).
Proof.
  intros E. cbv zeta. rewrite (get_new_comments_result st).
  unfold _check_single_parser. rewrite E.
  match goal with
  | |- context [get_new_comments ?s n (c0 :: b)] =>
      pose proof (get_new_comments_result s n (c0 :: b)) as Hr;
      pose proof (get_new_comments_frame s n (c0 :: b)) as Hf;
      destruct (get_new_comments s n (c0 :: b)) as [new st2]
  end.
  cbv zeta in Hf. cbn [fst snd] in Hr, Hf.
  destruct Hf as (_ & Hl & _ & _ & Hst & _ & Ht & _).
  cbn [last_comments first_run parser_start_time telegram_sender set_stats stats] in Hr, Hl, Hst, Ht.
  rewrite <- Hr.
  destruct new as [|n0 new].
  - cbn. rewrite app_nil_r, Hl, Ht, Hst, Nat.add_0_r. cbn.
    repeat split. intros H. lia.
  - cbn [length]. destruct (bool_decide (10 < S (length new))) eqn:Hb;
      match goal with
      | |- context [send_comments n ?l ?s] =>
          destruct (send_comments_frame n l s)
            as (_ & S2 & _ & _ & S5 & _ & _ & S8 & S9 & _)
      end; cbv zeta in S2, S5, S8, S9;
      cbn [snd fst res_new_comments save_last_comments log print last_comments
           telegram_sender stats logger];
      rewrite S2, S5, S8, S9;
      cbn [log last_comments telegram_sender stats logger];
      rewrite Hl, Ht, Hst; cbn [update_parser_stats total_comments_sent];
      (split; [reflexivity |]); (split; [reflexivity |]); (split; [reflexivity |]);
      (split; [| reflexivity]); intros Hgt.
    + apply elem_of_app. left. apply elem_of_app. right. left.
    + apply bool_decide_eq_false in Hb. contradiction.
Qed.

(** With a batch of 101 comments, all of them new, the task forwards ten and
    stores a hundred: the last new comment is not stored for the next
    cycle. *)
Lemma cap_hundred_drops_new_comment :
  let batch := Scenario.big_batch 101 in
  let new := (get_new_comments Scenario.vk_warm "VK" batch).1 in
  let st' := (_check_single_parser Scenario.vk_warm "VK" (fun _ => Returned batch)
                                   Scenario.epoch).2 in
  10 < length new /\
  ~ (forall c, c ∈ new -> stored_key st' "VK" (fingerprint c)).
Proof.
  cbv zeta. split.
  - assert (E : length (get_new_comments Scenario.vk_warm "VK" (Scenario.big_batch 101)).1
                = 101) by (vm_compute; reflexivity).
    rewrite E. lia.
  - intros H. specialize (H (Scenario.numbered 100)).
    destruct H as (last & Hl & Hk).
    + apply list_elem_of_lookup_2 with 100. vm_compute. reflexivity.
    + assert (El : last_comments
                     (_check_single_parser Scenario.vk_warm "VK"
                        (fun _ => Returned (Scenario.big_batch 101)) Scenario.epoch).2
                   !! "VK" = Some (Scenario.big_batch 100)) by (vm_compute; reflexivity).
      rewrite El in Hl. injection Hl as <-.
      assert (Ek : bool_decide (fingerprint (Scenario.numbered 100)
                                ∈ known_keys (Scenario.big_batch 100)) = false)
        by (vm_compute; reflexivity).
      apply bool_decide_eq_false in Ek. contradiction.
Qed.

(** C4, as the code behaves. When the filter yields more than ten new
    comments for a source, the first ten of them, in the order of the batch,
    go to the sink, the truncation is logged, and the stored batch of the
    source becomes the first 100 items of the fetched batch: every new
    comment among those 100 items is stored, and all of them are when the
    batch has at most 100 items. *)
Theorem cap_ten_store_hundred
    (st : CommentMonitor) (n : string) (fetch : nat -> FetchResult) (now : Z)
    (c0 : Comment) (b : list Comment) :
  fetch (per_parser_limit n) = Returned (c0 :: b) ->
  let comments := c0 :: b in
  let new := (get_new_comments st n comments).1 in
  10 < length new ->
  let st' := (_check_single_parser st n fetch now).2 in
  telegram_sender st' = telegram_sender st ++ map (fun c => SendComment c n) (take 10 new) /\
  length (take 10 new) = 10 /\
  total_comments_sent (stats st') = total_comments_sent (stats st) + 10 /\
  (LvInfo, MsgLimited n 10 (length new)) ∈ logger st' /\
  last_comments st' !! n = Some (take 100 comments) /\
  (forall c, c ∈ new -> c ∈ take 100 comments -> stored_key st' n (fingerprint c)) /\
  (length comments <= 100 -> forall c, c ∈ new -> stored_key st' n (fingerprint c)).
Proof.
  intros E comments new Hgt st'.
  destruct (check_single_returned st n fetch now c0 b E) as (_ & Ht & Hs & Hlog & Hl).
  fold comments new st' in Ht, Hs, Hlog, Hl.
  assert (Hlen : length (take 10 new) = 10) by (rewrite length_take; lia).
  assert (Hstore : last_comments st' !! n = Some (take 100 comments))
    by (rewrite Hl; apply lookup_insert_eq).
  assert (Hin : forall c, c ∈ take 100 comments -> stored_key st' n (fingerprint c)).
  { intros c Hc. exists (take 100 comments). split; [exact Hstore |].
    apply known_keys_spec. now exists c. }
  repeat split.
  - exact Ht.
  - exact Hlen.
  - now rewrite Hs, Hlen.
  - now apply Hlog.
  - exact Hstore.
  - intros c _ Hc. now apply Hin.
  - intros Hle c Hc. apply Hin. rewrite take_ge by exact Hle.
    unfold new in Hc. rewrite get_new_comments_result in Hc.
    now apply elem_of_new_comments_of in Hc as (_ & Hc & _).
Qed.

Lemma cap_ten_store_hundred_witness :
  let new := (get_new_comments Scenario.vk_warm "VK" (Scenario.big_batch 25)).1 in
  let st' := (_check_single_parser Scenario.vk_warm "VK"
                (fun _ => Returned (Scenario.big_batch 25)) Scenario.epoch).2 in
  telegram_sender st'
  = telegram_sender Scenario.vk_warm ++ map (fun c => SendComment c "VK") (take 10 new) /\
  length (take 10 new) = 10 /\
  (forall c, c ∈ new -> stored_key st' "VK" (fingerprint c)).
Proof.
  destruct (cap_ten_store_hundred Scenario.vk_warm "VK"
              (fun _ => Returned (Scenario.big_batch 25)) Scenario.epoch
              (Scenario.numbered 0) (map Scenario.numbered (seq 1 24)))
    as (H1 & H2 & _ & _ & _ & _ & H7).
  - reflexivity.
  - vm_compute. lia.
  - cbv zeta. split; [exact H1 | split; [exact H2 |]].
    apply H7. vm_compute. lia.
Defined.

(** ** The waits of the retry loops *)

(** Decides the tests [attempt < max_retries - 1] of a loop body. *)
Ltac retry_case :=
  repeat match goal with
         | |- context [bool_decide ?P] =>
             first [ rewrite (bool_decide_eq_true_2 P) by lia
                   | rewrite (bool_decide_eq_false_2 P) by lia ]
         end.

Lemma vk_throttled_loop timed_out body max_retries fuel attempt :
  attempt + fuel = max_retries ->
  VKParser.retry_loop max_retries attempt fuel (throttled timed_out body)
  = {| reply := None; sleeps := map exponential_wait (seq attempt (fuel - 1)); tries := fuel |}.
Proof.
  revert attempt. induction fuel as [|fuel IH]; intros attempt Hsum; [reflexivity |].
  cbn [VKParser.retry_loop]. rewrite (IH (S attempt)) by lia.
  unfold throttled at 1.
  destruct fuel as [|fuel].
  - destruct (timed_out attempt); cbn; retry_case; reflexivity.
  - destruct (timed_out attempt); cbn -[Nat.pow seq]; retry_case;
      unfold after_sleep; cbn -[Nat.pow seq]; rewrite Nat.sub_0_r; reflexivity.
Qed.

Lemma reddit_throttled_loop timed_out body max_retries fuel attempt :
  attempt + fuel = max_retries ->
  RedditParser.retry_loop max_retries attempt fuel (throttled timed_out body)
  = {| reply := None; sleeps := map exponential_wait (seq attempt (fuel - 1)); tries := fuel |}.
Proof.
  revert attempt. induction fuel as [|fuel IH]; intros attempt Hsum; [reflexivity |].
  cbn [RedditParser.retry_loop]. rewrite (IH (S attempt)) by lia.
  unfold throttled at 1.
  destruct fuel as [|fuel].
  - destruct (timed_out attempt); cbn; retry_case; reflexivity.
  - destruct (timed_out attempt); cbn -[Nat.pow seq]; retry_case;
      unfold after_sleep; cbn -[Nat.pow seq]; rewrite Nat.sub_0_r; reflexivity.
Qed.

Lemma youtube_throttled_loop timed_out body max_retries fuel attempt :
  attempt + fuel = max_retries ->
  YouTubeParser.retry_loop max_retries attempt fuel (throttled timed_out body)
  = {| reply := YouTubeParser.Ret None;
       sleeps := map exponential_wait (seq attempt (fuel - 1)); tries := fuel |}.
Proof.
  revert attempt. induction fuel as [|fuel IH]; intros attempt Hsum; [reflexivity |].
  cbn [YouTubeParser.retry_loop]. rewrite (IH (S attempt)) by lia.
  unfold throttled at 1.
  destruct fuel as [|fuel].
  - destruct (timed_out attempt); cbn; retry_case; reflexivity.
  - destruct (timed_out attempt); cbn -[Nat.pow seq]; retry_case;
      unfold after_sleep; cbn -[Nat.pow seq]; rewrite Nat.sub_0_r; reflexivity.
Qed.

Lemma reddit_api_throttled_loop timed_out body refreshed max_retries fuel attempt :
  attempt + fuel = max_retries ->
  RedditParser.api_loop max_retries attempt fuel (throttled_api timed_out body refreshed)
  = {| reply := None;
       sleeps := map (reddit_api_wait timed_out) (seq attempt (fuel - 1));
       tries := fuel |}.
Proof.
  revert attempt. induction fuel as [|fuel IH]; intros attempt Hsum; [reflexivity |].
  cbn [RedditParser.api_loop]. rewrite (IH (S attempt)) by lia.
  unfold throttled_api, RedditParser.respond, throttled at 1.
  unfold RedditParser.on_timeout, reddit_api_wait.
  destruct fuel as [|fuel].
  - destruct (timed_out attempt); cbn; retry_case; reflexivity.
  - destruct (timed_out attempt) eqn:Et; cbn -[Nat.mul seq]; retry_case;
      unfold after_sleep; cbn -[Nat.mul seq]; rewrite Nat.sub_0_r;
      cbn [seq map]; rewrite Et; reflexivity.
Qed.

(** The schedule of the specification fails on both kinds of path: the
    shared loop waits 1 and 2 seconds on 429, not 5 and 10, and Reddit's own
    loop waits 3 and 6 seconds on timeouts, not 1 and 2. *)
Lemma spec_wait_not_followed :
  sleeps (VKParser.make_request_with_retry 3 (throttled (fun _ => false) None))
  <> map (spec_wait (fun _ => false)) (seq 0 2) /\
  sleeps (RedditParser.make_api_request true 3
            (throttled_api (fun _ => true) None (fun _ => None)))
  <> map (spec_wait (fun _ => true)) (seq 0 2).
Proof. split; vm_compute; discriminate. Qed.

(** C9, as the code behaves. Against a network that answers every attempt
    with a timeout or with status 429, [BaseParser.make_request_with_retry]
    of the three adapters waits [2 ^ attempt] seconds before the next attempt,
    after a timeout and after a 429 alike; [RedditParser.make_api_request]
    waits [3 * (attempt + 1)] seconds after a timeout and [5 * (attempt + 1)]
    seconds after a 429. Each loop runs [max_retries] times (3 by default),
    does not wait after the last attempt and returns no data. *)
Theorem retry_wait_schedules
    (max_retries : nat) (timed_out : nat -> bool) (body : option Json)
    (refreshed : nat -> option Attempt) :
  VKParser.make_request_with_retry max_retries (throttled timed_out body)
  = {| reply := None; sleeps := map exponential_wait (seq 0 (max_retries - 1));
       tries := max_retries |} /\
  RedditParser.make_request_with_retry max_retries (throttled timed_out body)
  = {| reply := None; sleeps := map exponential_wait (seq 0 (max_retries - 1));
       tries := max_retries |} /\
  YouTubeParser.make_request_with_retry max_retries (throttled timed_out body)
  = {| reply := YouTubeParser.Ret None;
       sleeps := map exponential_wait (seq 0 (max_retries - 1));
       tries := max_retries |} /\
  RedditParser.make_api_request true max_retries (throttled_api timed_out body refreshed)
  = {| reply := None;
       sleeps := map (reddit_api_wait timed_out) (seq 0 (max_retries - 1));
       tries := max_retries |} /\
  sleeps (VKParser.make_request_with_retry 3 (throttled timed_out body)) = [1; 2] /\
  sleeps (RedditParser.make_api_request true 3 (throttled_api (fun _ => true) body refreshed))
  = [3; 6] /\
  sleeps (RedditParser.make_api_request true 3 (throttled_api (fun _ => false) body refreshed))
  = [5; 10].
Proof.
  assert (H : 0 + max_retries = max_retries) by lia.
  repeat apply conj.
  - apply vk_throttled_loop, H.
  - apply reddit_throttled_loop, H.
  - apply youtube_throttled_loop, H.
  - apply reddit_api_throttled_loop, H.
  - unfold VKParser.make_request_with_retry. now rewrite vk_throttled_loop.
  - unfold RedditParser.make_api_request. now rewrite reddit_api_throttled_loop.
  - unfold RedditParser.make_api_request. now rewrite reddit_api_throttled_loop.
Qed.

(** ** The quota condition at the request level *)

Lemma youtube_retry_reaches_quota max_retries net d a :
  YouTubeParser.error_reason d = Some (JStr "quotaExceeded") ->
  net a = Response 403 (Some d) ->
  (forall j, j < a -> retried (net j) = true) ->
  a < max_retries ->
  forall fuel a0, a0 + fuel = max_retries -> a0 <= a ->
    YouTubeParser.retry_loop max_retries a0 fuel net
    = {| reply := YouTubeParser.Raise YouTubeParser.quota_message;
         sleeps := map exponential_wait (seq a0 (a - a0));
         tries := S (a - a0) |}.
Proof.
  intros Hreason Ha Hretried Hlt.
  induction fuel as [|fuel IH]; intros a0 Hsum Hle; [lia |].
  cbn [YouTubeParser.retry_loop].
  destruct (decide (a0 = a)) as [-> | Hne].
  - rewrite Ha. cbn. unfold YouTubeParser.on_forbidden. rewrite Hreason.
    cbn. rewrite Nat.sub_diag. reflexivity.
  - assert (Hlt0 : a0 < a) by lia.
    rewrite (IH (S a0)) by lia.
    specialize (Hretried a0 Hlt0).
    replace (a - a0) with (S (a - S a0)) by lia.
    rewrite (bool_decide_eq_true_2 (a0 < max_retries - 1)) by lia.
    unfold retried in Hretried.
    destruct (net a0) as [status body | | e]; [| reflexivity | reflexivity].
    destruct (status =? 200)%Z.
    + destruct body; [discriminate | reflexivity].
    + destruct (status =? 403)%Z; [discriminate |].
      rewrite Hretried. reflexivity.
Qed.

(** Only the quota message is ever raised by the retry loop. *)
Lemma youtube_retry_raises_quota_only max_retries net fuel a0 e :
  reply (YouTubeParser.retry_loop max_retries a0 fuel net) = YouTubeParser.Raise e ->
  e = YouTubeParser.quota_message.
Proof.
  revert a0. induction fuel as [|fuel IH]; intros a0; cbn [YouTubeParser.retry_loop].
  - discriminate.
  - specialize (IH (S a0)).
    destruct (net a0) as [status body | | err].
    + destruct (status =? 200)%Z.
      * destruct body; [discriminate |].
        destruct (bool_decide _); [exact IH | discriminate].
      * destruct (status =? 403)%Z.
        -- unfold YouTubeParser.on_forbidden. cbn.
           destruct body as [d|]; [| discriminate].
           destruct (YouTubeParser.error_reason d) as [[| | |reason| |]|]; try discriminate.
           destruct (bool_decide _); [| discriminate].
           intros H. now injection H.
        -- destruct (transient_status status); [| discriminate].
           destruct (bool_decide _); exact IH.
    + destruct (bool_decide _); [exact IH | discriminate].
    + destruct (bool_decide _); [exact IH | discriminate].
Qed.

(** ** The quota exception through the adapter *)

Lemma surfaces_ret {A} (a : A) : surfaces_quota (YouTubeParser.ret a).
Proof.
  intros net p. exists []. split; [now rewrite app_nil_r |].
  split; intros req e H; inversion H.
Qed.

Lemma surfaces_gets {A} (f : YouTubeParser.Parser -> A) :
  surfaces_quota (YouTubeParser.gets f).
Proof.
  intros net p. exists []. split; [now rewrite app_nil_r |].
  split; intros req e H; inversion H.
Qed.

Lemma surfaces_modify (f : YouTubeParser.Parser -> YouTubeParser.Parser) :
  (forall p, YouTubeParser.calls (f p) = YouTubeParser.calls p) ->
  surfaces_quota (YouTubeParser.modify f).
Proof.
  intros Hf net p. exists []. split; [cbn; now rewrite app_nil_r, Hf |].
  split; intros req e H; inversion H.
Qed.

Lemma surfaces_request r : surfaces_quota (YouTubeParser.request r).
Proof.
  intros net p. unfold YouTubeParser.request. cbn [fst snd YouTubeParser.calls].
  eexists. split; [reflexivity |]. split.
  - intros req out H. apply list_elem_of_singleton in H. now injection H as -> ->.
  - destruct (reply (YouTubeParser.make_request_with_retry 3 (net r))) as [v | e].
    + intros req e H. apply list_elem_of_singleton in H. discriminate H.
    + exists r. apply list_elem_of_singleton. reflexivity.
Qed.

Lemma surfaces_bind {A B} (m : YouTubeParser.M A) (k : A -> YouTubeParser.M B) :
  surfaces_quota m -> (forall a, surfaces_quota (k a)) ->
  surfaces_quota (YouTubeParser.bind m k).
Proof.
  intros Hm Hk net p. unfold YouTubeParser.bind.
  destruct (Hm net p) as (added1 & E1 & Q1 & H1).
  destruct (m net p) as [[a | e] p1]; cbn [fst snd] in *.
  - destruct (Hk a net p1) as (added2 & E2 & Q2 & H2).
    exists (added1 ++ added2). split; [rewrite E2, E1; now rewrite app_assoc |].
    split.
    { intros req e H. apply elem_of_app in H as [H | H]; eauto. }
    destruct (k a net p1) as [[b | e] p2]; cbn [fst snd] in *.
    + intros req e H. apply elem_of_app in H as [H | H]; [now apply (H1 req e) | now apply (H2 req e)].
    + destruct H2 as [req H2]. exists req. apply elem_of_app. now right.
  - exists added1. split; [exact E1 |]. split; [exact Q1 | exact H1].
Qed.

Ltac surfaces :=
  repeat first
    [ apply surfaces_ret
    | apply surfaces_gets
    | apply surfaces_request
    | apply surfaces_modify; intros ?; reflexivity
    | apply surfaces_bind; [| intros ?]
    | match goal with
      | |- surfaces_quota (match ?x with _ => _ end) => destruct x
      | |- surfaces_quota (if ?b then _ else _) => destruct b
      end ].

Lemma surfaces_get_channel_id_by_username username :
  surfaces_quota (YouTubeParser.get_channel_id_by_username username).
Proof. unfold YouTubeParser.get_channel_id_by_username. surfaces. Qed.

Lemma surfaces_load_uploads_playlist_id :
  surfaces_quota YouTubeParser.load_uploads_playlist_id.
Proof. unfold YouTubeParser.load_uploads_playlist_id. surfaces. Qed.

Lemma surfaces_get_uploads_playlist_id :
  surfaces_quota YouTubeParser.get_uploads_playlist_id.
Proof.
  unfold YouTubeParser.get_uploads_playlist_id.
  pose proof surfaces_load_uploads_playlist_id.
  pose proof surfaces_get_channel_id_by_username.
  repeat first
    [ assumption
    | apply surfaces_ret
    | apply surfaces_gets
    | apply surfaces_request
    | apply surfaces_modify; intros ?; reflexivity
    | apply surfaces_bind; [| intros ?]
    | match goal with
      | |- surfaces_quota (match ?x with _ => _ end) => destruct x
      | |- surfaces_quota (if ?b then _ else _) => destruct b
      | H : forall u, surfaces_quota (YouTubeParser.get_channel_id_by_username u)
        |- surfaces_quota (YouTubeParser.get_channel_id_by_username _) => apply H
      end ].
Qed.

Lemma surfaces_get_video_ids limit : surfaces_quota (YouTubeParser.get_video_ids limit).
Proof.
  unfold YouTubeParser.get_video_ids.
  pose proof surfaces_get_uploads_playlist_id.
  repeat first
    [ assumption
    | apply surfaces_ret
    | apply surfaces_gets
    | apply surfaces_request
    | apply surfaces_bind; [| intros ?]
    | match goal with
      | |- surfaces_quota (match ?x with _ => _ end) => destruct x
      | |- surfaces_quota (if ?b then _ else _) => destruct b
      end ].
Qed.

Lemma surfaces_get_video_comments parse position video_id limit :
  surfaces_quota (YouTubeParser.get_video_comments parse position video_id limit).
Proof. unfold YouTubeParser.get_video_comments. surfaces. Qed.

Lemma gather_calls parse video_ids :
  forall position net p,
    exists added,
      YouTubeParser.calls (YouTubeParser.gather parse position video_ids net p).2
      = YouTubeParser.calls p ++ added /\
      (forall req out, (req, out) ∈ added ->
                       out = reply (YouTubeParser.make_request_with_retry 3 (net req))) /\
      ((exists req e, (req, YouTubeParser.Raise e) ∈ added) ->
       exists e, YouTubeParser.Raise e
                 ∈ (YouTubeParser.gather parse position video_ids net p).1) /\
      (forall e, YouTubeParser.Raise e
                 ∈ (YouTubeParser.gather parse position video_ids net p).1 ->
                 exists req, (req, YouTubeParser.Raise e) ∈ added).
Proof.
  induction video_ids as [|v vs IH]; intros position net p; cbn [YouTubeParser.gather].
  - exists []. split; [now rewrite app_nil_r |]. split; [| split].
    + intros req e H. inversion H.
    + intros (req & e & H). inversion H.
    + intros e H. inversion H.
  - destruct (surfaces_get_video_comments parse position v 30 net p)
      as (added1 & E1 & Q1 & H1).
    destruct (YouTubeParser.get_video_comments parse position v 30 net p) as [r p1].
    cbn [fst snd] in E1, H1.
    destruct (IH (S position) net p1) as (added2 & E2 & Q2 & H2 & H3).
    destruct (YouTubeParser.gather parse (S position) vs net p1) as [rs p2].
    cbn [fst snd] in *.
    exists (added1 ++ added2). split; [rewrite E2, E1; now rewrite app_assoc |].
    split; [| split].
    + intros req e H. apply elem_of_app in H as [H | H]; eauto.
    + intros (req & e & H). apply elem_of_app in H as [H | H].
      * destruct r as [l | e1]; [now apply H1 in H |]. exists e1. left.
      * destruct H2 as [e2 H2]; [now exists req, e |]. exists e2. now right.
    + intros e H. apply elem_of_cons in H as [<- | H].
      * destruct H1 as [req H1]. exists req. apply elem_of_app. now left.
      * destruct (H3 e H) as [req Hreq]. exists req. apply elem_of_app. now right.
Qed.

Lemma collect_raise results e :
  YouTubeParser.collect results = YouTubeParser.Raise e ->
  YouTubeParser.Raise e ∈ results.
Proof.
  induction results as [|[l | e1] rs IH]; cbn [YouTubeParser.collect]; intros H.
  - discriminate.
  - destruct (YouTubeParser.collect rs); [discriminate |].
    right. apply IH. exact H.
  - injection H as ->. left.
Qed.

Lemma collect_ret results l :
  YouTubeParser.collect results = YouTubeParser.Ret l ->
  forall e, YouTubeParser.Raise e ∉ results.
Proof.
  revert l. induction results as [|[l1 | e1] rs IH]; cbn [YouTubeParser.collect];
    intros l H e Hin.
  - inversion Hin.
  - destruct (YouTubeParser.collect rs) as [l2 | e2]; [| discriminate].
    apply elem_of_cons in Hin as [Hin | Hin]; [discriminate |].
    now apply (IH l2 eq_refl e).
  - discriminate.
Qed.

(** Every quota exception raised by a request of [get_comments] leaves
    [get_comments] as an exception. *)
Lemma surfaces_get_comments parse limit :
  surfaces_quota (YouTubeParser.get_comments parse limit).
Proof.
  unfold YouTubeParser.get_comments.
  apply surfaces_bind; [apply surfaces_gets | intros configured].
  destruct configured; [| apply surfaces_ret].
  apply surfaces_bind; [apply surfaces_get_video_ids | intros video_ids].
  destruct video_ids as [|v vs]; [apply surfaces_ret |].
  intros net p. unfold YouTubeParser.bind.
  destruct (gather_calls parse (v :: vs) 0 net p) as (added & E & Q & H1 & H2).
  destruct (YouTubeParser.gather parse 0 (v :: vs) net p) as [rs p1].
  cbn [fst snd] in *.
  destruct (YouTubeParser.collect rs) as [all_comments | e] eqn:Ec.
  - exists added. split; [exact E |]. split; [exact Q |]. cbn.
    intros req e H. destruct H1 as [e1 H1]; [now exists req, e |].
    now apply (collect_ret rs all_comments Ec e1).
  - exists added. split; [exact E |]. split; [exact Q |]. cbn.
    apply H2. now apply collect_raise.
Qed.

(** ** The orchestrator on a quota exception *)

Lemma parser_stats_of_update name f s :
  parser_stats_of name (update_parser_stats name f s) = f (parser_stats_of name s).
Proof.
  unfold parser_stats_of at 1, update_parser_stats. cbn. now rewrite lookup_insert_eq.
Qed.

Lemma parser_stats_of_bump_errors name s :
  parser_stats_of name (bump_errors s) = parser_stats_of name s.
Proof. reflexivity. Qed.

Lemma check_single_quota st name fetch now e :
  fetch (per_parser_limit name) = RaisedQuota e ->
  let out := _check_single_parser st name fetch now in
  res_error out.1 = Some e /\
  res_comments out.1 = [] /\
  res_new_comments out.1 = [] /\
  telegram_sender out.2 = telegram_sender st ++ [SendError e name] /\
  total_errors (stats out.2) = S (total_errors (stats st)) /\
  errors (parser_stats_of name (stats out.2))
  = S (errors (parser_stats_of name (stats st))) /\
  (LvError, MsgQuotaCaught e) ∈ logger out.2 /\
  parsers out.2 = parsers st /\
  last_comments out.2 = last_comments st /\
  first_run out.2 = first_run st.
Proof.
  intros E. unfold _check_single_parser. rewrite E. cbn [fst snd].
  repeat apply conj; try reflexivity.
  - cbn. unfold record_error. cbn. rewrite parser_stats_of_update. cbn [errors].
    rewrite parser_stats_of_bump_errors, parser_stats_of_update. reflexivity.
  - cbn. rewrite !elem_of_app. left. left. right. left.
Qed.

Lemma cycle_parsers env now st : parsers (cycle env now st) = parsers st.
Proof.
  unfold cycle.
  assert (H : parsers (check_parsers env now st) = parsers st).
  { destruct (check_parsers_tasks env now st) as (-> & _). now rewrite tasks_parsers. }
  destruct (first_run (check_parsers env now st)); exact H.
Qed.

(** A quota exception of one adapter puts its alert into the sink of the
    cycle, whatever the other adapters do. *)
Lemma tasks_quota_alert env now l st i m e :
  (i, m) ∈ l ->
  env i (per_parser_limit m) = RaisedQuota e ->
  SendError e m ∈ telegram_sender (tasks_state env now l st).
Proof.
  unfold tasks_state. revert st.
  assert (Hgrow : forall l st c,
            c ∈ telegram_sender st ->
            c ∈ telegram_sender
                  (foldl (fun st '(i, m) => (_check_single_parser st m (env i) now).2) st l)).
  { clear. induction l as [|[j m'] l IH]; intros st c Hc; cbn [foldl]; [exact Hc |].
    apply IH.
    destruct (check_single_core st m' (env j) now) as (_ & _ & _ & H).
    cbv zeta in H.
    destruct (env j (per_parser_limit m')); destruct H as [_ ->];
      apply elem_of_app; now left. }
  induction l as [|[j m'] l IH]; intros st Hin He; cbn [foldl]; [inversion Hin |].
  apply elem_of_cons in Hin as [Hin | Hin].
  - injection Hin as <- <-. apply Hgrow.
    destruct (check_single_core st m (env i) now) as (_ & _ & _ & H).
    cbv zeta in H. rewrite He in H. destruct H as [_ ->].
    apply elem_of_app. right. left.
  - now apply IH.
Qed.

Lemma cycle_quota_alert env now st i m e :
  parsers st !! i = Some m ->
  env i (per_parser_limit m) = RaisedQuota e ->
  SendError e m ∈ telegram_sender (cycle env now st).
Proof.
  intros Hi He.
  assert (H : SendError e m ∈ telegram_sender (check_parsers env now st)).
  { destruct (check_parsers_tasks env now st) as (_ & _ & ->).
    eapply tasks_quota_alert; [| exact He]. now apply elem_of_indexed. }
  unfold cycle. destruct (first_run (check_parsers env now st)); exact H.
Qed.

Lemma requests_made_added {A} (m : YouTubeParser.M A) net p added :
  YouTubeParser.calls (m net p).2 = YouTubeParser.calls p ++ added ->
  requests_made m net p = added.
Proof. intros E. unfold requests_made. rewrite E. apply drop_app_length. Qed.

(** C8. When a request that [YouTubeParser.get_comments] makes is answered,
    after attempts that are retried, with status 403 and the error reason
    [quotaExceeded], [make_request_with_retry] raises [YouTubeQuotaExceeded]
    at that attempt (it neither retries it nor returns [None]), the exception
    leaves [get_comments], and [_check_single_parser] returns a result that
    carries the message, sends the message to the error channel of the sink,
    increments both error counters, and leaves the stored comments and the
    list of adapters as they were; a cycle in which the adapter fails so runs
    to its end with the alert in the sink and the same adapters. *)
Theorem youtube_quota_reaches_error_channel
    (parse : Json -> Json -> list Comment) (net : YouTubeParser.Net)
    (p : YouTubeParser.Parser) (st : CommentMonitor) (now : Z)
    (req : YouTubeParser.Request) (a : nat) (d : Json) :
  let limit := per_parser_limit "YouTube" in
  req ∈ (requests_made (YouTubeParser.get_comments parse limit) net p).*1 ->
  a < 3 ->
  (forall j, j < a -> retried (net req j) = true) ->
  net req a = Response 403 (Some d) ->
  YouTubeParser.error_reason d = Some (JStr "quotaExceeded") ->
  YouTubeParser.make_request_with_retry 3 (net req)
  = {| reply := YouTubeParser.Raise YouTubeParser.quota_message;
       sleeps := map exponential_wait (seq 0 a); tries := S a |} /\
  (YouTubeParser.get_comments parse limit net p).1
  = YouTubeParser.Raise YouTubeParser.quota_message /\
  (let out := _check_single_parser st "YouTube" (YouTubeParser.fetch parse net p) now in
   res_error out.1 = Some YouTubeParser.quota_message /\
   telegram_sender out.2
   = telegram_sender st ++ [SendError YouTubeParser.quota_message "YouTube"] /\
   total_errors (stats out.2) = S (total_errors (stats st)) /\
   errors (parser_stats_of "YouTube" (stats out.2))
   = S (errors (parser_stats_of "YouTube" (stats st))) /\
   parsers out.2 = parsers st /\
   last_comments out.2 = last_comments st) /\
  (forall (env : CycleEnv) i,
     parsers st !! i = Some "YouTube" ->
     env i limit = YouTubeParser.fetch parse net p limit ->
     SendError YouTubeParser.quota_message "YouTube" ∈ telegram_sender (cycle env now st) /\
     parsers (cycle env now st) = parsers st).
Proof.
  intros limit Hreq Ha Hretried Hresp Hreason.
  assert (Hloop : YouTubeParser.make_request_with_retry 3 (net req)
                  = {| reply := YouTubeParser.Raise YouTubeParser.quota_message;
                       sleeps := map exponential_wait (seq 0 a); tries := S a |}).
  { unfold YouTubeParser.make_request_with_retry.
    rewrite (youtube_retry_reaches_quota 3 (net req) d a Hreason Hresp Hretried Ha 3 0)
      by lia.
    now rewrite Nat.sub_0_r. }
  assert (Hraise : (YouTubeParser.get_comments parse limit net p).1
                   = YouTubeParser.Raise YouTubeParser.quota_message).
  { destruct (surfaces_get_comments parse limit net p) as (added & E & Q & H).
    rewrite (requests_made_added _ net p added E) in Hreq.
    apply list_elem_of_fmap in Hreq as ([req' out] & Heq & Hin).
    cbn [fst] in Heq. subst req'.
    pose proof (Q _ _ Hin) as Hout. rewrite Hloop in Hout.
    cbn [reply] in Hout. subst out.
    destruct ((YouTubeParser.get_comments parse limit net p).1) as [l | e].
    - exfalso. exact (H _ _ Hin).
    - destruct H as [req2 H2]. pose proof (Q _ _ H2) as Hout.
      symmetry in Hout.
      apply youtube_retry_raises_quota_only in Hout. now subst e. }
  assert (Hfetch : YouTubeParser.fetch parse net p limit
                   = RaisedQuota YouTubeParser.quota_message).
  { unfold YouTubeParser.fetch. now rewrite Hraise. }
  split; [exact Hloop |]. split; [exact Hraise |]. split.
  - destruct (check_single_quota st "YouTube" (YouTubeParser.fetch parse net p) now
                YouTubeParser.quota_message Hfetch)
      as (H1 & _ & _ & H4 & H5 & H6 & _ & H8 & H9 & _).
    cbv zeta in *. repeat apply conj; assumption.
  - intros env i Hi He. split; [| apply cycle_parsers].
    apply (cycle_quota_alert env now st i "YouTube"); [exact Hi |].
    fold limit. now rewrite He.
Qed.

Lemma youtube_quota_reaches_error_channel_witness :
  sleeps (YouTubeParser.make_request_with_retry 3
            (Scenario.quota_net
               (YouTubeParser.ChannelsContentDetails (JStr "UCabc")))) = [1] /\
  SendError YouTubeParser.quota_message "YouTube"
  ∈ telegram_sender
      (cycle (fun i => match i with
                       | 0 => YouTubeParser.fetch Scenario.no_comments Scenario.quota_net
                                                  Scenario.fresh_parser
                       | _ => fun _ => Returned [Scenario.y]
                       end)
             (Scenario.epoch + Scenario.seconds 30)%Z Scenario.youtube_warm).
Proof.
  destruct (youtube_quota_reaches_error_channel Scenario.no_comments Scenario.quota_net
              Scenario.fresh_parser Scenario.youtube_warm
              (Scenario.epoch + Scenario.seconds 30)%Z
              (YouTubeParser.ChannelsContentDetails (JStr "UCabc")) 1 Scenario.quota_body)
    as (H1 & _ & _ & H4).
  - vm_compute. left.
  - lia.
  - intros j Hj. assert (j = 0) as -> by lia. reflexivity.
  - reflexivity.
  - reflexivity.
  - split; [rewrite H1; reflexivity |].
    apply (H4 _ 0); reflexivity.
Defined.

(** * Further properties of the code *)

(** ** The filter: order, completeness, batches *)

Lemma list_filter_sublist {A} (f : A -> bool) (l : list A) :
  sublist (List.filter f l) l.
Proof.
  induction l as [|x l IH]; cbn [List.filter]; [constructor |].
  destruct (f x); [now apply sublist_skip | now apply sublist_cons].
Qed.

Lemma get_new_comments_sublist_aux st name cs :
  sublist (get_new_comments st name cs).1 cs.
Proof.
  rewrite get_new_comments_result. unfold new_comments_of.
  destruct (first_run st); [apply sublist_nil_l |].
  destruct (last_comments st !! name); [| apply sublist_nil_l].
  etransitivity; apply list_filter_sublist.
Qed.

(** X1. The list [get_new_comments] returns is a sublist of the batch: the
    candidates it keeps, in the order of the batch. *)
Theorem get_new_comments_sublist
    (st : CommentMonitor) (parser_name : string) (current_comments : list Comment) :
  sublist (get_new_comments st parser_name current_comments).1 current_comments.
Proof. apply get_new_comments_sublist_aux. Qed.

(** X2. After the first cycle and for a source that has a stored batch, a
    candidate is returned exactly when its normalised timestamp is at or
    after the start time and no stored comment has its key: a new comment
    written after the start is never dropped. *)
Theorem get_new_comments_complete
    (st : CommentMonitor) (parser_name : string) (current_comments last : list Comment)
    (c : Comment) :
  first_run st = false ->
  last_comments st !! parser_name = Some last ->
  (c ∈ (get_new_comments st parser_name current_comments).1 <->
   c ∈ current_comments /\
   (exists t, to_naive_utc (timestamp c) = Some t /\ (parser_start_time st <= t)%Z) /\
   (forall d, d ∈ last -> fingerprint d <> fingerprint c)).
Proof.
  intros Hfr Hlast. rewrite get_new_comments_result, Hfr, Hlast.
  unfold new_comments_of. rewrite !list_elem_of_In, !filter_In, <- list_elem_of_In.
  unfold after_start, is_known. rewrite negb_true_iff, bool_decide_eq_false.
  rewrite known_keys_spec. split.
  - intros [[Hin Ha] Hk]. split; [exact Hin |]. split.
    + destruct (to_naive_utc (timestamp c)) as [t|]; [| discriminate].
      exists t. split; [reflexivity | now apply Z.leb_le].
    + intros d Hd E. apply Hk. now exists d.
  - intros (Hin & (t & Ht & Hle) & Hk). repeat split.
    + exact Hin.
    + rewrite Ht. now apply Z.leb_le.
    + intros (d & Hd & E). now apply (Hk d).
Qed.

Lemma get_new_comments_complete_witness :
  Scenario.x ∈ (get_new_comments Scenario.vk_warm "VK" [Scenario.x; Scenario.y]).1.
Proof.
  apply (get_new_comments_complete Scenario.vk_warm "VK" [Scenario.x; Scenario.y] []
           Scenario.x); [reflexivity | reflexivity |].
  split; [left |]. split.
  - exists (Scenario.epoch + Scenario.seconds 40)%Z. split; [reflexivity |].
    vm_compute. discriminate.
  - intros d Hd. inversion Hd.
Defined.

Lemma new_comments_of_app fr stored start l1 l2 :
  new_comments_of fr stored start (l1 ++ l2)
  = new_comments_of fr stored start l1 ++ new_comments_of fr stored start l2.
Proof.
  unfold new_comments_of. destruct fr; [reflexivity |].
  destruct stored; [| reflexivity]. now rewrite !List.filter_app.
Qed.

(** X3. The filter works candidate by candidate: the result for two batches
    put end to end is the two results put end to end. In particular a batch
    is not deduplicated against itself. *)
Theorem get_new_comments_app
    (st : CommentMonitor) (parser_name : string) (batch1 batch2 : list Comment) :
  (get_new_comments st parser_name (batch1 ++ batch2)).1
  = (get_new_comments st parser_name batch1).1
    ++ (get_new_comments st parser_name batch2).1.
Proof.
  rewrite !get_new_comments_result. apply new_comments_of_app.
Qed.

(** X4. A candidate whose timestamp cannot be converted to UTC (the
    conversion leaves the range of [datetime]) is skipped, and the rest of
    the batch is filtered as if it were not there. *)
Theorem get_new_comments_skips_unconvertible
    (st : CommentMonitor) (parser_name : string) (before after : list Comment)
    (c : Comment) :
  to_naive_utc (timestamp c) = None ->
  (get_new_comments st parser_name (before ++ c :: after)).1
  = (get_new_comments st parser_name (before ++ after)).1.
Proof.
  intros Hc. rewrite !get_new_comments_result, !new_comments_of_app. f_equal.
  change (c :: after) with ([c] ++ after). rewrite new_comments_of_app.
  unfold new_comments_of at 1.
  destruct (first_run st); [reflexivity |].
  destruct (last_comments st !! parser_name); [| reflexivity].
  cbn [List.filter]. unfold after_start at 1. now rewrite Hc.
Qed.

Lemma get_new_comments_skips_unconvertible_witness :
  (get_new_comments Scenario.vk_warm "VK" ([Scenario.x] ++ Extra.unconvertible :: [Scenario.y])).1
  = (get_new_comments Scenario.vk_warm "VK" ([Scenario.x] ++ [Scenario.y])).1.
Proof.
  apply (get_new_comments_skips_unconvertible Scenario.vk_warm "VK"
           [Scenario.x] [Scenario.y] Extra.unconvertible).
  reflexivity.
Defined.

(** ** One task: exceptions, empty batches, the cap *)

(** X5. When an adapter's [get_comments] raises an ordinary exception, the
    task keeps the stored batches as they are, sends no comment, sends one
    alert with the prefixed message to the error channel, counts the error
    in both counters and returns a result that carries the exception text. *)
Theorem task_exception_keeps_stored_batch
    (st : CommentMonitor) (parser_name : string) (fetch : nat -> FetchResult)
    (now : Z) (e : string) :
  fetch (per_parser_limit parser_name) = RaisedOther e ->
  let out := _check_single_parser st parser_name fetch now in
  res_error out.1 = Some e /\
  res_comments out.1 = [] /\
  last_comments out.2 = last_comments st /\
  telegram_sender out.2
  = telegram_sender st ++ [SendError (check_failed_text parser_name e) parser_name] /\
  total_errors (stats out.2) = S (total_errors (stats st)) /\
  errors (parser_stats_of parser_name (stats out.2))
  = S (errors (parser_stats_of parser_name (stats st))) /\
  total_comments_sent (stats out.2) = total_comments_sent (stats st).
Proof.
  intros E. unfold _check_single_parser. rewrite E. cbn [fst snd].
  repeat apply conj; try reflexivity.
  cbn. unfold record_error. cbn. rewrite parser_stats_of_update. cbn [errors].
  rewrite parser_stats_of_bump_errors, parser_stats_of_update. reflexivity.
Qed.

Lemma task_exception_keeps_stored_batch_witness :
  last_comments
    (_check_single_parser Scenario.warm "src" (fun _ => RaisedOther "boom") Scenario.epoch).2
  = last_comments Scenario.warm.
Proof.
  apply (task_exception_keeps_stored_batch Scenario.warm "src"
           (fun _ => RaisedOther "boom") Scenario.epoch "boom").
  reflexivity.
Defined.

(** X6. When an adapter returns an empty batch, the task sends nothing,
    counts no error and replaces the stored batch of the source by the empty
    list; past the first cycle, the filter then returns every candidate of
    the source that was written at or after the start time. *)
Theorem task_empty_batch_forgets
    (st : CommentMonitor) (parser_name : string) (fetch : nat -> FetchResult)
    (now : Z) (later : list Comment) :
  fetch (per_parser_limit parser_name) = Returned [] ->
  first_run st = false ->
  let st' := (_check_single_parser st parser_name fetch now).2 in
  last_comments st' = <[parser_name := []]> (last_comments st) /\
  telegram_sender st' = telegram_sender st /\
  total_errors (stats st') = total_errors (stats st) /\
  (get_new_comments st' parser_name later).1
  = List.filter (after_start (parser_start_time st)) later.
Proof.
  intros E Hfr.
  destruct (check_single_core st parser_name fetch now) as (_ & Hfr' & Hs & H).
  cbv zeta in *. rewrite E in H. destruct H as [Hl Ht].
  rewrite new_comments_of_nil, app_nil_r in Ht. cbn [take] in Hl.
  repeat apply conj; try assumption.
  - unfold _check_single_parser. rewrite E. reflexivity.
  - rewrite get_new_comments_result, Hfr', Hfr, Hl, lookup_insert_eq, Hs.
    unfold new_comments_of.
    induction (List.filter (after_start (parser_start_time st)) later) as [|c l IH];
      [reflexivity |].
    cbn [List.filter]. unfold is_known at 1.
    rewrite bool_decide_eq_false_2 by apply not_elem_of_empty.
    cbn [negb]. now rewrite IH.
Qed.

Lemma task_empty_batch_forgets_witness :
  (get_new_comments
     (_check_single_parser Scenario.warm "src" (fun _ => Returned []) Scenario.epoch).2
     "src" [Scenario.known_one]).1
  = [Scenario.known_one].
Proof.
  destruct (task_empty_batch_forgets Scenario.warm "src" (fun _ => Returned [])
              Scenario.epoch [Scenario.known_one]) as (_ & _ & _ & H);
    [reflexivity | reflexivity |].
  cbv zeta in H. rewrite H. reflexivity.
Defined.

Lemma send_comments_checks name limited st :
  total_checks (stats (send_comments name limited st)) = total_checks (stats st).
Proof.
  unfold send_comments. revert st.
  induction limited as [|c limited IH]; intros st; cbn [foldl]; [reflexivity |].
  now rewrite IH.
Qed.

(** The counters a task moves. *)
Lemma check_single_counters st n fetch now :
  let st' := (_check_single_parser st n fetch now).2 in
  total_checks (stats st') = total_checks (stats st) /\
  match fetch (per_parser_limit n) with
  | Returned b =>
      total_comments_sent (stats st')
      = total_comments_sent (stats st)
        + length (take 10 (new_comments_of (first_run st) (last_comments st !! n)
                                           (parser_start_time st) b)) /\
      total_errors (stats st') = total_errors (stats st)
  | RaisedQuota _ | RaisedOther _ =>
      total_comments_sent (stats st') = total_comments_sent (stats st) /\
      total_errors (stats st') = S (total_errors (stats st))
  end.
Proof.
  cbv zeta.
  destruct (fetch (per_parser_limit n)) as [[|c0 b]|e|e] eqn:E.
  - unfold _check_single_parser. rewrite E. cbn.
    rewrite new_comments_of_nil. cbn. now rewrite Nat.add_0_r.
  - destruct (check_single_returned st n fetch now c0 b E) as (_ & _ & Hs & _ & _).
    cbv zeta in Hs. rewrite get_new_comments_result in Hs.
    split; [| split; [exact Hs |]].
    + unfold _check_single_parser. rewrite E.
      match goal with
      | |- context [get_new_comments ?s n (c0 :: b)] =>
          pose proof (get_new_comments_frame s n (c0 :: b)) as Hf;
          destruct (get_new_comments s n (c0 :: b)) as [new st2]
      end.
      cbv zeta in Hf. cbn [fst snd] in Hf.
      destruct Hf as (_ & _ & _ & _ & Hst & _).
      destruct new as [|n0 new]; [cbn; now rewrite Hst |].
      match goal with
      | |- context [send_comments n ?l ?s] =>
          pose proof (send_comments_checks n l s) as Hc
      end.
      cbn -[take send_comments] in *. rewrite Hc.
      destruct (bool_decide _); cbn; now rewrite Hst.
    + unfold _check_single_parser. rewrite E.
      match goal with
      | |- context [get_new_comments ?s n (c0 :: b)] =>
          pose proof (get_new_comments_frame s n (c0 :: b)) as Hf;
          destruct (get_new_comments s n (c0 :: b)) as [new st2]
      end.
      cbv zeta in Hf. cbn [fst snd] in Hf.
      destruct Hf as (_ & _ & _ & _ & Hst & _).
      destruct new as [|n0 new]; [cbn; now rewrite Hst |].
      match goal with
      | |- context [send_comments n ?l ?s] =>
          destruct (send_comments_frame n l s)
            as (_ & _ & _ & _ & _ & _ & _ & _ & _ & S10 & _)
      end.
      cbv zeta in S10. cbn -[take send_comments] in *. rewrite S10.
      destruct (bool_decide _); cbn; now rewrite Hst.
  - unfold _check_single_parser. rewrite E. cbn. repeat split.
  - unfold _check_single_parser. rewrite E. cbn. repeat split.
Qed.

Lemma new_comments_of_on_time fr stored start cs :
  Forall (fun c => after_start start c = true) (new_comments_of fr stored start cs).
Proof.
  apply Forall_forall. intros c Hc.
  now apply elem_of_new_comments_of in Hc as (_ & _ & Ha & _).
Qed.

(** X7. Whatever an adapter returns, the task hands at most ten comments to
    the sink; they are candidates of the batch, in the order of the batch,
    each written at or after the start time, and [total_comments_sent] grows
    by their number. *)
Theorem task_sends_at_most_ten
    (st : CommentMonitor) (parser_name : string) (fetch : nat -> FetchResult)
    (now : Z) (batch : list Comment) :
  fetch (per_parser_limit parser_name) = Returned batch ->
  let st' := (_check_single_parser st parser_name fetch now).2 in
  exists sent,
    telegram_sender st'
    = telegram_sender st ++ map (fun c => SendComment c parser_name) sent /\
    length sent <= 10 /\
    sublist sent batch /\
    Forall (fun c => after_start (parser_start_time st) c = true) sent /\
    total_comments_sent (stats st') = total_comments_sent (stats st) + length sent.
Proof.
  intros E.
  destruct (check_single_core st parser_name fetch now) as (_ & _ & _ & H).
  destruct (check_single_counters st parser_name fetch now) as (_ & Hc).
  cbv zeta in *. rewrite E in H, Hc. destruct H as [_ Ht]. destruct Hc as [Hc _].
  eexists. split; [exact Ht |]. repeat apply conj.
  - rewrite length_take. lia.
  - etransitivity; [apply sublist_take |].
    rewrite <- get_new_comments_result. apply get_new_comments_sublist_aux.
  - apply Forall_take, new_comments_of_on_time.
  - exact Hc.
Qed.

Lemma task_sends_at_most_ten_witness :
  let fetch := fun _ : nat => Returned (Scenario.big_batch 25) in
  let now := (Scenario.epoch + Scenario.seconds 1030)%Z in
  fetch (per_parser_limit "VK") = Returned (Scenario.big_batch 25) /\
  exists sent,
    telegram_sender (_check_single_parser Scenario.vk_warm "VK" fetch now).2
    = telegram_sender Scenario.vk_warm ++ map (fun c => SendComment c "VK") sent /\
    length sent <= 10 /\
    sublist sent (Scenario.big_batch 25) /\
    Forall (fun c => after_start (parser_start_time Scenario.vk_warm) c = true) sent /\
    total_comments_sent (stats (_check_single_parser Scenario.vk_warm "VK" fetch now).2)
    = total_comments_sent (stats Scenario.vk_warm) + length sent.
Proof.
  cbv zeta. split; [reflexivity |].
  exact (task_sends_at_most_ten Scenario.vk_warm "VK"
           (fun _ => Returned (Scenario.big_batch 25))
           (Scenario.epoch + Scenario.seconds 1030)%Z
           (Scenario.big_batch 25) eq_refl).
Defined.

(** ** Sources do not interfere *)









(** ** The counters and the sink *)

Lemma found_fold_counters results st :
  let st' := foldl (fun st r =>
                      match res_comments r with
                      | _ :: _ => set_stats (add_found (length (res_comments r)) (stats st)) st
                      | [] => st
                      end) st results in
  total_checks (stats st') = total_checks (stats st) /\
  total_comments_sent (stats st') = total_comments_sent (stats st) /\
  total_errors (stats st') = total_errors (stats st).
Proof.
  revert st. induction results as [|r results IH]; intros st; cbn [foldl].
  - repeat split.
  - destruct (res_comments r) as [|c0 cs]; [apply IH |].
    destruct (IH (set_stats (add_found (length (c0 :: cs)) (stats st)) st))
      as (H1 & H2 & H3).
    cbv zeta in *. now rewrite H1, H2, H3.
Qed.

(** The counters [check_parsers] leaves are those its tasks leave. *)
Lemma check_parsers_counters env now st :
  let st' := check_parsers env now st in
  let tasks := tasks_state env now (indexed (parsers st)) (entering st) in
  total_checks (stats st') = total_checks (stats tasks) /\
  total_comments_sent (stats st') = total_comments_sent (stats tasks) /\
  total_errors (stats st') = total_errors (stats tasks).
Proof.
  cbv zeta. unfold check_parsers. fold (entering st).
  change (parsers (entering st)) with (parsers st).
  destruct (parsers st) as [|p ps] eqn:Ep; [repeat split |].
  unfold run_tasks. change (parsers (entering st)) with (parsers st). rewrite Ep.
  fold (indexed (p :: ps)).
  pose proof (run_tasks_fold env now (indexed (p :: ps)) [] (entering st)) as Hfold.
  destruct (foldl _ ([], entering st) (indexed (p :: ps))) as [results st1].
  cbn [snd] in Hfold. subst st1.
  destruct (found_fold_counters results
              (tasks_state env now (indexed (p :: ps)) (entering st)))
    as (H1 & H2 & H3).
  cbv zeta in H1, H2, H3.
  set (st2 := foldl _ (tasks_state env now (indexed (p :: ps)) (entering st)) results) in *.
  destruct (bool_decide _); repeat split; assumption.
Qed.

Lemma tasks_counters env now l st :
  tallied st ->
  let st' := tasks_state env now l st in
  tallied st' /\ total_checks (stats st') = total_checks (stats st).
Proof.
  unfold tasks_state. revert st.
  induction l as [|[i m] l IH]; intros st Ht; cbn [foldl]; [now split |].
  destruct (check_single_core st m (env i) now) as (_ & _ & _ & H).
  destruct (check_single_counters st m (env i) now) as (Hc & Hn).
  cbv zeta in *.
  assert (Ht' : tallied (_check_single_parser st m (env i) now).2).
  { destruct Ht as [Hs He]. unfold tallied.
    destruct (env i (per_parser_limit m)) as [b|e|e]; destruct H as [_ ->];
      destruct Hn as [-> ->]; rewrite !List.filter_app, !length_app, Hs, He.
    - set (sent := take 10 _). split.
      + f_equal. clear. induction sent as [|c sent IH]; [reflexivity |].
        cbn. now rewrite <- IH.
      + replace (length (List.filter is_error_call (map _ sent))) with 0; [lia |].
        clear. induction sent as [|c sent IH]; [reflexivity | exact IH].
    - cbn. split; lia.
    - cbn. split; lia. }
  destruct (IH _ Ht') as [H1 H2]. split; [exact H1 |]. now rewrite H2.
Qed.

Lemma cycle_counters env now st :
  tallied st ->
  tallied (cycle env now st) /\
  total_checks (stats (cycle env now st)) = S (total_checks (stats st)).
Proof.
  intros Ht.
  assert (Ht0 : tallied (entering st)) by exact Ht.
  destruct (tasks_counters env now (indexed (parsers st)) (entering st) Ht0) as [[Hs He] Hc].
  destruct (check_parsers_counters env now st) as (C1 & C2 & C3).
  destruct (check_parsers_tasks env now st) as (_ & _ & Hsink).
  cbv zeta in *.
  assert (H : tallied (check_parsers env now st) /\
              total_checks (stats (check_parsers env now st)) = S (total_checks (stats st))).
  { unfold tallied. rewrite C1, C2, C3, Hsink, Hc. repeat split; assumption. }
  unfold cycle. destruct (first_run (check_parsers env now st)); exact H.
Qed.

(** X9. From the start of the process on, [total_comments_sent] is the number
    of comments handed to the sink, [total_errors] is the number of alerts
    sent to the error channel, and [total_checks] is the number of cycles. *)
Theorem counters_match_sink
    (configured : list string) (disk : option (gmap string (list Comment)))
    (start : Z) (envs : list (CycleEnv * Z)) :
  let st := run envs (init configured disk start) in
  total_comments_sent (stats st)
  = length (List.filter is_comment_call (telegram_sender st)) /\
  total_errors (stats st)
  = length (List.filter is_error_call (telegram_sender st)) /\
  total_checks (stats st) = length envs.
Proof.
  cbv zeta.
  assert (H : forall envs st,
            tallied st ->
            tallied (run envs st) /\
            total_checks (stats (run envs st)) = total_checks (stats st) + length envs).
  { clear. unfold run. induction envs as [|[env now] envs IH]; intros st Ht; cbn [foldl length].
    - split; [exact Ht | lia].
    - destruct (cycle_counters env now st Ht) as [Ht' Hc].
      destruct (IH _ Ht') as [H1 H2]. split; [exact H1 |]. rewrite H2, Hc. lia. }
  destruct (H envs (init configured disk start)) as [[Hs He] Hc]; [split; reflexivity |].
  repeat split; assumption.
Qed.

(** ** The first cycle, the state file, restarts *)

Lemma tasks_first_run_silent env now l st :
  first_run st = true ->
  let st' := tasks_state env now l st in
  first_run st' = true /\
  List.filter is_comment_call (telegram_sender st')
  = List.filter is_comment_call (telegram_sender st).
Proof.
  unfold tasks_state. revert st.
  induction l as [|[i m] l IH]; intros st Hfr; cbn [foldl]; [now split |].
  destruct (check_single_core st m (env i) now) as (_ & Hfr' & _ & H).
  cbv zeta in *. rewrite Hfr in Hfr'.
  destruct (IH _ Hfr') as [H1 H2]. split; [exact H1 |]. rewrite H2.
  destruct (env i (per_parser_limit m)) as [b|e|e]; destruct H as [_ ->];
    rewrite List.filter_app.
  - rewrite Hfr. cbn. now rewrite app_nil_r.
  - cbn. now rewrite app_nil_r.
  - cbn. now rewrite app_nil_r.
Qed.

(** X10. The first cycle of a process that found no stored comments hands no
    comment to the sink, whatever the adapters return, and ends the first
    run. *)
Theorem first_cycle_without_state_sends_no_comment
    (configured : list string) (disk : option (gmap string (list Comment)))
    (start now : Z) (env : CycleEnv) :
  default ∅ disk = ∅ ->
  let st := cycle env now (init configured disk start) in
  List.filter is_comment_call (telegram_sender st) = [] /\
  first_run st = false.
Proof.
  intros Hdisk. cbv zeta.
  set (st0 := init configured disk start).
  assert (Hfr : first_run (entering st0) = true).
  { cbn. rewrite Hdisk. reflexivity. }
  destruct (tasks_first_run_silent env now (indexed (parsers st0)) (entering st0) Hfr)
    as [_ Hs].
  destruct (check_parsers_tasks env now st0) as (_ & _ & Hsink).
  cbv zeta in Hs. split.
  - assert (H : List.filter is_comment_call (telegram_sender (check_parsers env now st0)) = [])
      by (rewrite Hsink, Hs; reflexivity).
    unfold cycle. destruct (first_run (check_parsers env now st0)); exact H.
  - unfold cycle. destruct (first_run (check_parsers env now st0)) eqn:E; [reflexivity | exact E].
Qed.

Lemma first_cycle_without_state_sends_no_comment_witness :
  List.filter is_comment_call
    (telegram_sender (cycle (fun _ _ => Returned [Scenario.x; Scenario.y])
                            (Scenario.epoch + Scenario.seconds 30)%Z
                            (init ["VK"; "YouTube"] (Some ∅) Scenario.epoch)))
  = [].
Proof.
  apply (first_cycle_without_state_sends_no_comment ["VK"; "YouTube"] (Some ∅)
           Scenario.epoch (Scenario.epoch + Scenario.seconds 30)%Z
           (fun _ _ => Returned [Scenario.x; Scenario.y])).
  reflexivity.
Defined.

(** X11. After a cycle of a monitor with at least one adapter the state file
    holds exactly the stored batches of the monitor; a monitor without
    adapters leaves the state file and the stored batches as they were. *)
Theorem cycle_saves_stored_batches
    (st : CommentMonitor) (env : CycleEnv) (now : Z) :
  (parsers st <> [] ->
   state_file (cycle env now st) = Some (last_comments (cycle env now st))) /\
  (parsers st = [] ->
   state_file (cycle env now st) = state_file st /\
   last_comments (cycle env now st) = last_comments st).
Proof.
  assert (H : (parsers st <> [] ->
               state_file (check_parsers env now st)
               = Some (last_comments (check_parsers env now st))) /\
              (parsers st = [] ->
               state_file (check_parsers env now st) = state_file st /\
               last_comments (check_parsers env now st) = last_comments st)).
  { unfold check_parsers. fold (entering st).
    change (parsers (entering st)) with (parsers st).
    destruct (parsers st) as [|p ps] eqn:Ep.
    - split; [now intros [] | intros _; split; reflexivity].
    - split; [intros _ | discriminate].
      destruct (run_tasks env now (entering st)) as [results st1].
      set (st2 := foldl _ st1 results).
      destruct (bool_decide _); reflexivity. }
  unfold cycle. destruct (first_run (check_parsers env now st)); exact H.
Qed.

Lemma cycle_saves_stored_batches_witness :
  state_file (cycle Scenario.same_batch Scenario.epoch Scenario.cold)
  = Some (last_comments (cycle Scenario.same_batch Scenario.epoch Scenario.cold)).
Proof.
  apply (cycle_saves_stored_batches Scenario.cold Scenario.same_batch Scenario.epoch).
  discriminate.
Defined.

Lemma known_keys_with_source n l :
  known_keys (map (with_source n) l) = known_keys l.
Proof.
  apply set_eq. intros k. rewrite !known_keys_spec. split.
  - intros (c & Hc & E). apply list_elem_of_fmap in Hc as (d & -> & Hd).
    now exists d.
  - intros (c & Hc & E). exists (with_source n c). split; [| exact E].
    apply list_elem_of_fmap. now exists c.
Qed.

(** X12. A process that starts again from the state file knows, source by
    source, exactly the keys that were stored when the file was written; its
    start time is the new clock, and it is in its first run exactly when the
    file holds no source. The [source] field of every restored comment is the
    key of its list. *)
Theorem restart_keeps_known_keys
    (st : CommentMonitor) (saved : gmap string (list Comment)) (now : Z) :
  state_file st = Some saved ->
  (forall parser_name k,
     stored_key (restart st now) parser_name k <->
     exists last, saved !! parser_name = Some last /\ k ∈ known_keys last) /\
  (forall parser_name restored c,
     last_comments (restart st now) !! parser_name = Some restored ->
     c ∈ restored -> source c = parser_name) /\
  parser_start_time (restart st now) = now /\
  (first_run (restart st now) = true <-> saved = ∅) /\
  parsers (restart st now) = parsers st.
Proof.
  intros Hfile. unfold restart. rewrite Hfile. cbn [fmap option_fmap option_map].
  assert (Hlook : forall n, last_comments (init (parsers st) (Some (load_state saved)) now) !! n
                            = map (with_source n) <$> saved !! n).
  { intros n. cbn. unfold load_state. rewrite map_lookup_imap.
    now destruct (saved !! n). }
  repeat apply conj.
  - intros n k. unfold stored_key. rewrite Hlook. split.
    + intros (last & E & Hk). destruct (saved !! n) as [l|]; [| discriminate].
      injection E as <-. rewrite known_keys_with_source in Hk. now exists l.
    + intros (last & E & Hk). rewrite E. eexists. split; [reflexivity |].
      now rewrite known_keys_with_source.
  - intros n restored c E Hc. rewrite Hlook in E.
    destruct (saved !! n) as [l|]; [| discriminate]. injection E as <-.
    apply list_elem_of_fmap in Hc as (d & -> & _). reflexivity.
  - reflexivity.
  - cbn. rewrite bool_decide_eq_true. unfold load_state.
    intros E. apply map_eq. intros n. rewrite lookup_empty.
    apply (f_equal (fun m => m !! n)) in E.
    rewrite map_lookup_imap, lookup_empty in E.
    now destruct (saved !! n).
  - cbn. rewrite bool_decide_eq_true. unfold load_state.
    intros ->. apply map_imap_empty.
  - reflexivity.
Qed.

Lemma restart_keeps_known_keys_witness :
  parser_start_time
    (restart (cycle Scenario.same_batch Scenario.epoch Scenario.cold)
             (Scenario.epoch + Scenario.seconds 600)%Z)
  = (Scenario.epoch + Scenario.seconds 600)%Z.
Proof.
  apply (restart_keeps_known_keys
           (cycle Scenario.same_batch Scenario.epoch Scenario.cold)
           (last_comments (cycle Scenario.same_batch Scenario.epoch Scenario.cold))
           (Scenario.epoch + Scenario.seconds 600)%Z).
  vm_compute. reflexivity.
Defined.

(** ** The retry loops against any network *)

Lemma vk_loop_bounded max_retries net fuel attempt :
  attempt + fuel = max_retries ->
  let out := VKParser.retry_loop max_retries attempt fuel net in
  tries out <= fuel /\ length (sleeps out) <= fuel - 1 /\
  Forall (fun w => w <= 2 ^ (max_retries - 2)) (sleeps out).
Proof.
  revert attempt. induction fuel as [|fuel IH]; intros attempt Hsum; cbv zeta.
  - cbn. repeat split; try lia. constructor.
  - cbn [VKParser.retry_loop].
    destruct (IH (S attempt)) as (H1 & H2 & H3); [lia |]. cbv zeta in H1, H2, H3.
    assert (Hpow : attempt < max_retries - 1 -> 2 ^ attempt <= 2 ^ (max_retries - 2))
      by (intros; apply Nat.pow_le_mono_r; lia).
    destruct (net attempt) as [status [d|] | | e];
      repeat match goal with
             | |- context [bool_decide ?P] => destruct (bool_decide_reflect P)
             | |- context [(?a =? ?b)%Z] => destruct (a =? b)%Z
             | |- context [transient_status ?s] => destruct (transient_status s)
             end;
      cbn [reply sleeps tries after_sleep fall_through finish exhausted length];
      repeat apply conj; try lia; try (constructor; [now apply Hpow | assumption]);
      try assumption; try constructor.
Qed.

Lemma reddit_loop_bounded max_retries net fuel attempt :
  attempt + fuel = max_retries ->
  let out := RedditParser.retry_loop max_retries attempt fuel net in
  tries out <= fuel /\ length (sleeps out) <= fuel - 1 /\
  Forall (fun w => w <= 2 ^ (max_retries - 2)) (sleeps out).
Proof.
  revert attempt. induction fuel as [|fuel IH]; intros attempt Hsum; cbv zeta.
  - cbn. repeat split; try lia. constructor.
  - cbn [RedditParser.retry_loop].
    destruct (IH (S attempt)) as (H1 & H2 & H3); [lia |]. cbv zeta in H1, H2, H3.
    assert (Hpow : attempt < max_retries - 1 -> 2 ^ attempt <= 2 ^ (max_retries - 2))
      by (intros; apply Nat.pow_le_mono_r; lia).
    destruct (net attempt) as [status [d|] | | e];
      repeat match goal with
             | |- context [bool_decide ?P] => destruct (bool_decide_reflect P)
             | |- context [(?a =? ?b)%Z] => destruct (a =? b)%Z
             | |- context [transient_status ?s] => destruct (transient_status s)
             end;
      cbn [reply sleeps tries after_sleep fall_through finish exhausted length];
      repeat apply conj; try lia; try (constructor; [now apply Hpow | assumption]);
      try assumption; try constructor.
Qed.

Lemma youtube_loop_bounded max_retries net fuel attempt :
  attempt + fuel = max_retries ->
  let out := YouTubeParser.retry_loop max_retries attempt fuel net in
  tries out <= fuel /\ length (sleeps out) <= fuel - 1 /\
  Forall (fun w => w <= 2 ^ (max_retries - 2)) (sleeps out).
Proof.
  revert attempt. induction fuel as [|fuel IH]; intros attempt Hsum; cbv zeta.
  - cbn. repeat split; try lia. constructor.
  - cbn [YouTubeParser.retry_loop].
    destruct (IH (S attempt)) as (H1 & H2 & H3); [lia |]. cbv zeta in H1, H2, H3.
    assert (Hpow : attempt < max_retries - 1 -> 2 ^ attempt <= 2 ^ (max_retries - 2))
      by (intros; apply Nat.pow_le_mono_r; lia).
    destruct (net attempt) as [status [d|] | | e];
      repeat match goal with
             | |- context [bool_decide ?P] => destruct (bool_decide_reflect P)
             | |- context [(?a =? ?b)%Z] => destruct (a =? b)%Z
             | |- context [transient_status ?s] => destruct (transient_status s)
             end;
      cbn [reply sleeps tries after_sleep fall_through finish exhausted length];
      repeat apply conj; try lia; try (constructor; [now apply Hpow | assumption]);
      try assumption; try constructor.
Qed.

Lemma reddit_api_loop_bounded max_retries net fuel attempt :
  attempt + fuel = max_retries ->
  let out := RedditParser.api_loop max_retries attempt fuel net in
  tries out <= fuel /\ length (sleeps out) <= fuel - 1 /\
  Forall (fun w => w <= 5 * (max_retries - 1)) (sleeps out).
Proof.
  revert attempt. induction fuel as [|fuel IH]; intros attempt Hsum; cbv zeta.
  - cbn. repeat split; try lia. constructor.
  - cbn [RedditParser.api_loop].
    destruct (IH (S attempt)) as (H1 & H2 & H3); [lia |]. cbv zeta in H1, H2, H3.
    unfold RedditParser.on_timeout, RedditParser.on_exception.
    destruct (RedditParser.respond net attempt) as [status [d|] | | e];
      repeat match goal with
             | |- context [bool_decide ?P] => destruct (bool_decide_reflect P)
             | |- context [(?a =? ?b)%Z] => destruct (a =? b)%Z
             | |- context [RedditParser.refreshed ?n ?a] =>
                 destruct (RedditParser.refreshed n a) as [[? [?|] | | ?]|]
             end;
      cbn [reply sleeps tries after_sleep fall_through finish exhausted length];
      repeat apply conj; try lia; try (constructor; [lia | assumption]);
      try assumption; try constructor.
Qed.

(** X13. Against every network, each retry loop makes at most [max_retries]
    attempts and waits at most [max_retries - 1] times; a wait of the shared
    loop is at most [2 ^ (max_retries - 2)] seconds and a wait of
    [RedditParser.make_api_request] at most [5 * (max_retries - 1)] seconds. *)
Theorem retry_loops_bounded
    (max_retries : nat) (net : nat -> Attempt) (api_net : RedditParser.ApiNet)
    (token_ok : bool) :
  (tries (VKParser.make_request_with_retry max_retries net) <= max_retries /\
   length (sleeps (VKParser.make_request_with_retry max_retries net)) <= max_retries - 1 /\
   Forall (fun w => w <= 2 ^ (max_retries - 2))
          (sleeps (VKParser.make_request_with_retry max_retries net))) /\
  (tries (RedditParser.make_request_with_retry max_retries net) <= max_retries /\
   length (sleeps (RedditParser.make_request_with_retry max_retries net))
   <= max_retries - 1 /\
   Forall (fun w => w <= 2 ^ (max_retries - 2))
          (sleeps (RedditParser.make_request_with_retry max_retries net))) /\
  (tries (YouTubeParser.make_request_with_retry max_retries net) <= max_retries /\
   length (sleeps (YouTubeParser.make_request_with_retry max_retries net))
   <= max_retries - 1 /\
   Forall (fun w => w <= 2 ^ (max_retries - 2))
          (sleeps (YouTubeParser.make_request_with_retry max_retries net))) /\
  (tries (RedditParser.make_api_request token_ok max_retries api_net) <= max_retries /\
   length (sleeps (RedditParser.make_api_request token_ok max_retries api_net))
   <= max_retries - 1 /\
   Forall (fun w => w <= 5 * (max_retries - 1))
          (sleeps (RedditParser.make_api_request token_ok max_retries api_net))).
Proof.
  assert (H : 0 + max_retries = max_retries) by lia.
  split; [apply (vk_loop_bounded max_retries net max_retries 0 H) |].
  split; [apply (reddit_loop_bounded max_retries net max_retries 0 H) |].
  split; [apply (youtube_loop_bounded max_retries net max_retries 0 H) |].
  unfold RedditParser.make_api_request. destruct token_ok.
  - apply (reddit_api_loop_bounded max_retries api_net max_retries 0 H).
  - cbn. repeat split; try lia. constructor.
Qed.

Lemma vk_retried_prefix max_retries net a :
  (forall j, j < a -> retried_plain (net j) = true) ->
  a < max_retries ->
  forall fuel a0, a0 + fuel = max_retries -> a0 <= a ->
    VKParser.retry_loop max_retries a0 fuel net
    = after_sleeps (map exponential_wait (seq a0 (a - a0)))
                   (VKParser.retry_loop max_retries a (max_retries - a) net).
Proof.
  intros Hretried Hlt.
  induction fuel as [|fuel IH]; intros a0 Hsum Hle; [lia |].
  destruct (decide (a0 = a)) as [-> | Hne].
  - rewrite Nat.sub_diag. replace (max_retries - a) with (S fuel) by lia.
    now destruct (VKParser.retry_loop max_retries a (S fuel) net).
  - cbn [VKParser.retry_loop]. rewrite (IH (S a0)) by lia.
    assert (Hr := Hretried a0 ltac:(lia)).
    replace (a - a0) with (S (a - S a0)) by lia.
    rewrite (bool_decide_eq_true_2 (a0 < max_retries - 1)) by lia.
    unfold retried_plain in Hr.
    destruct (net a0) as [status body | | e]; [| reflexivity | reflexivity].
    destruct (status =? 200)%Z.
    + destruct body; [discriminate | reflexivity].
    + rewrite Hr. reflexivity.
Qed.

Lemma reddit_retried_prefix max_retries net a :
  (forall j, j < a -> retried_plain (net j) = true) ->
  a < max_retries ->
  forall fuel a0, a0 + fuel = max_retries -> a0 <= a ->
    RedditParser.retry_loop max_retries a0 fuel net
    = after_sleeps (map exponential_wait (seq a0 (a - a0)))
                   (RedditParser.retry_loop max_retries a (max_retries - a) net).
Proof.
  intros Hretried Hlt.
  induction fuel as [|fuel IH]; intros a0 Hsum Hle; [lia |].
  destruct (decide (a0 = a)) as [-> | Hne].
  - rewrite Nat.sub_diag. replace (max_retries - a) with (S fuel) by lia.
    now destruct (RedditParser.retry_loop max_retries a (S fuel) net).
  - cbn [RedditParser.retry_loop]. rewrite (IH (S a0)) by lia.
    assert (Hr := Hretried a0 ltac:(lia)).
    replace (a - a0) with (S (a - S a0)) by lia.
    rewrite (bool_decide_eq_true_2 (a0 < max_retries - 1)) by lia.
    unfold retried_plain in Hr.
    destruct (net a0) as [status body | | e]; [| reflexivity | reflexivity].
    destruct (status =? 200)%Z.
    + destruct body; [discriminate | reflexivity].
    + rewrite Hr. reflexivity.
Qed.

Lemma youtube_retried_prefix max_retries net a :
  (forall j, j < a -> retried (net j) = true) ->
  a < max_retries ->
  forall fuel a0, a0 + fuel = max_retries -> a0 <= a ->
    YouTubeParser.retry_loop max_retries a0 fuel net
    = after_sleeps (map exponential_wait (seq a0 (a - a0)))
                   (YouTubeParser.retry_loop max_retries a (max_retries - a) net).
Proof.
  intros Hretried Hlt.
  induction fuel as [|fuel IH]; intros a0 Hsum Hle; [lia |].
  destruct (decide (a0 = a)) as [-> | Hne].
  - rewrite Nat.sub_diag. replace (max_retries - a) with (S fuel) by lia.
    now destruct (YouTubeParser.retry_loop max_retries a (S fuel) net).
  - cbn [YouTubeParser.retry_loop]. rewrite (IH (S a0)) by lia.
    assert (Hr := Hretried a0 ltac:(lia)).
    replace (a - a0) with (S (a - S a0)) by lia.
    rewrite (bool_decide_eq_true_2 (a0 < max_retries - 1)) by lia.
    unfold retried in Hr.
    destruct (net a0) as [status body | | e]; [| reflexivity | reflexivity].
    destruct (status =? 200)%Z.
    + destruct body; [discriminate | reflexivity].
    + destruct (status =? 403)%Z; [discriminate |]. rewrite Hr. reflexivity.
Qed.

(** X14. When the attempts before attempt [a] are retried ones (timeouts,
    other exceptions, statuses 429 and 5xx, unreadable 200 bodies) and
    attempt [a] is answered with status 200 and a readable body, each of the
    three [make_request_with_retry] returns that body after [a + 1] attempts,
    having waited [2 ^ j] seconds after each attempt [j < a]. *)
Theorem retry_returns_first_success
    (max_retries : nat) (net : nat -> Attempt) (a : nat) (d : Json) :
  a < max_retries ->
  (forall j, j < a -> retried_plain (net j) = true) ->
  (forall j, j < a -> retried (net j) = true) ->
  net a = Response 200 (Some d) ->
  VKParser.make_request_with_retry max_retries net
  = {| reply := Some d; sleeps := map exponential_wait (seq 0 a); tries := S a |} /\
  RedditParser.make_request_with_retry max_retries net
  = {| reply := Some d; sleeps := map exponential_wait (seq 0 a); tries := S a |} /\
  YouTubeParser.make_request_with_retry max_retries net
  = {| reply := YouTubeParser.Ret (Some d);
       sleeps := map exponential_wait (seq 0 a); tries := S a |}.
Proof.
  intros Hlt Hplain Hyt Ha.
  assert (Hfuel : max_retries - a = S (max_retries - a - 1)) by lia.
  repeat apply conj.
  - unfold VKParser.make_request_with_retry.
    rewrite (vk_retried_prefix max_retries net a Hplain Hlt max_retries 0) by lia.
    rewrite Hfuel. cbn [VKParser.retry_loop]. rewrite Ha. cbn.
    unfold after_sleeps. cbn. rewrite Nat.sub_0_r, app_nil_r, length_map, length_seq.
    f_equal. lia.
  - unfold RedditParser.make_request_with_retry.
    rewrite (reddit_retried_prefix max_retries net a Hplain Hlt max_retries 0) by lia.
    rewrite Hfuel. cbn [RedditParser.retry_loop]. rewrite Ha. cbn.
    unfold after_sleeps. cbn. rewrite Nat.sub_0_r, app_nil_r, length_map, length_seq.
    f_equal. lia.
  - unfold YouTubeParser.make_request_with_retry.
    rewrite (youtube_retried_prefix max_retries net a Hyt Hlt max_retries 0) by lia.
    rewrite Hfuel. cbn [YouTubeParser.retry_loop]. rewrite Ha. cbn.
    unfold after_sleeps. cbn. rewrite Nat.sub_0_r, app_nil_r, length_map, length_seq.
    f_equal. lia.
Qed.

Lemma retry_returns_first_success_witness :
  VKParser.make_request_with_retry 3
    (fun j => match j with
              | 0 => ReqTimeout
              | 1 => Response 503 None
              | _ => Response 200 (Some (JObj [("response", JArr [])]))
              end)
  = {| reply := Some (JObj [("response", JArr [])]); sleeps := [1; 2]; tries := 3 |}.
Proof.
  apply (retry_returns_first_success 3
           (fun j => match j with
                     | 0 => ReqTimeout
                     | 1 => Response 503 None
                     | _ => Response 200 (Some (JObj [("response", JArr [])]))
                     end) 2 (JObj [("response", JArr [])])).
  - lia.
  - intros [|[|j]] Hj; [reflexivity | reflexivity | lia].
  - intros [|[|j]] Hj; [reflexivity | reflexivity | lia].
  - reflexivity.
Defined.

(** X15. When the attempts before attempt [a] are retried ones and attempt
    [a] is answered with a status that is neither 200 nor 429, 500, 502, 503
    or 504 (for YouTube: nor 403), the loop gives up at once: it returns
    [None] after [a + 1] attempts and does not wait after that answer. *)
Theorem retry_gives_up_on_other_status
    (max_retries : nat) (net : nat -> Attempt) (a : nat) (status : Z)
    (body : option Json) :
  a < max_retries ->
  (forall j, j < a -> retried_plain (net j) = true) ->
  (forall j, j < a -> retried (net j) = true) ->
  net a = Response status body ->
  status <> 200%Z -> transient_status status = false ->
  VKParser.make_request_with_retry max_retries net
  = {| reply := None; sleeps := map exponential_wait (seq 0 a); tries := S a |} /\
  RedditParser.make_request_with_retry max_retries net
  = {| reply := None; sleeps := map exponential_wait (seq 0 a); tries := S a |} /\
  (status <> 403%Z ->
   YouTubeParser.make_request_with_retry max_retries net
   = {| reply := YouTubeParser.Ret None;
        sleeps := map exponential_wait (seq 0 a); tries := S a |}).
Proof.
  intros Hlt Hplain Hyt Ha H200 Htr.
  assert (Hfuel : max_retries - a = S (max_retries - a - 1)) by lia.
  apply Z.eqb_neq in H200.
  repeat apply conj.
  - unfold VKParser.make_request_with_retry.
    rewrite (vk_retried_prefix max_retries net a Hplain Hlt max_retries 0) by lia.
    rewrite Hfuel. cbn [VKParser.retry_loop]. rewrite Ha, H200, Htr.
    unfold after_sleeps. cbn. rewrite Nat.sub_0_r, app_nil_r, length_map, length_seq.
    f_equal. lia.
  - unfold RedditParser.make_request_with_retry.
    rewrite (reddit_retried_prefix max_retries net a Hplain Hlt max_retries 0) by lia.
    rewrite Hfuel. cbn [RedditParser.retry_loop]. rewrite Ha, H200, Htr.
    unfold after_sleeps. cbn. rewrite Nat.sub_0_r, app_nil_r, length_map, length_seq.
    f_equal. lia.
  - intros H403. apply Z.eqb_neq in H403.
    unfold YouTubeParser.make_request_with_retry.
    rewrite (youtube_retried_prefix max_retries net a Hyt Hlt max_retries 0) by lia.
    rewrite Hfuel. cbn [YouTubeParser.retry_loop]. rewrite Ha, H200, H403, Htr.
    unfold after_sleeps. cbn. rewrite Nat.sub_0_r, app_nil_r, length_map, length_seq.
    f_equal. lia.
Qed.

Lemma retry_gives_up_on_other_status_witness :
  VKParser.make_request_with_retry 3
    (fun j => match j with 0 => Response 502 None | _ => Response 404 None end)
  = {| reply := None; sleeps := [1]; tries := 2 |}.
Proof.
  apply (retry_gives_up_on_other_status 3
           (fun j => match j with 0 => Response 502 None | _ => Response 404 None end)
           1 404%Z None).
  - lia.
  - intros [|j] Hj; [reflexivity | lia].
  - intros [|j] Hj; [reflexivity | lia].
  - reflexivity.
  - discriminate.
  - reflexivity.
Defined.

(** X16. A 403 answer that does not carry the reason [quotaExceeded] (another
    reason, no reason, a body that is not an object, an unreadable body) ends
    the YouTube request at once with [None]: no exception and no retry. *)
Theorem youtube_forbidden_without_quota
    (max_retries : nat) (net : nat -> Attempt) (a : nat) (body : option Json) :
  a < max_retries ->
  (forall j, j < a -> retried (net j) = true) ->
  net a = Response 403 body ->
  (forall d, body = Some d ->
             YouTubeParser.error_reason d <> Some (JStr "quotaExceeded")) ->
  YouTubeParser.make_request_with_retry max_retries net
  = {| reply := YouTubeParser.Ret None;
       sleeps := map exponential_wait (seq 0 a); tries := S a |}.
Proof.
  intros Hlt Hyt Ha Hreason.
  assert (Hfuel : max_retries - a = S (max_retries - a - 1)) by lia.
  unfold YouTubeParser.make_request_with_retry.
  rewrite (youtube_retried_prefix max_retries net a Hyt Hlt max_retries 0) by lia.
  rewrite Hfuel. cbn [YouTubeParser.retry_loop]. rewrite Ha.
  cbn [Z.eqb Pos.eqb].
  assert (Hf : YouTubeParser.on_forbidden body = YouTubeParser.Ret None).
  { unfold YouTubeParser.on_forbidden. destruct body as [d|]; [| reflexivity].
    specialize (Hreason d eq_refl).
    destruct (YouTubeParser.error_reason d) as [[| | |reason| |]|]; try reflexivity.
    destruct (bool_decide_reflect (reason = "quotaExceeded")) as [-> | _];
      [now contradiction Hreason | reflexivity]. }
  rewrite Hf. unfold after_sleeps. cbn.
  rewrite Nat.sub_0_r, app_nil_r, length_map, length_seq. f_equal. lia.
Qed.

Lemma youtube_forbidden_without_quota_witness :
  YouTubeParser.make_request_with_retry 3
    (fun _ => Response 403
                (Some (JObj [("error", JObj [("errors",
                         JArr [JObj [("reason", JStr "forbidden")]])])])))
  = {| reply := YouTubeParser.Ret None; sleeps := []; tries := 1 |}.
Proof.
  apply (youtube_forbidden_without_quota 3
           (fun _ => Response 403
                       (Some (JObj [("error", JObj [("errors",
                                JArr [JObj [("reason", JStr "forbidden")]])])])))
           0 (Some (JObj [("error", JObj [("errors",
                     JArr [JObj [("reason", JStr "forbidden")]])])]))).
  - lia.
  - intros j Hj. lia.
  - reflexivity.
  - intros d Hd. injection Hd as <-. vm_compute. discriminate.
Defined.

(** X17. When every request of [RedditParser.make_api_request] is answered
    with 401 and the token cannot be renewed, the loop makes its
    [max_retries] requests one after the other without any wait and returns
    [None]. *)
Theorem reddit_api_unauthorized_no_wait
    (max_retries : nat) (net : RedditParser.ApiNet) :
  (forall j, exists body, RedditParser.respond net j = Response 401 body) ->
  (forall j, RedditParser.refreshed net j = None) ->
  RedditParser.make_api_request true max_retries net
  = {| reply := None; sleeps := []; tries := max_retries |}.
Proof.
  intros Hresp Href. unfold RedditParser.make_api_request.
  assert (H : forall fuel attempt,
            RedditParser.api_loop max_retries attempt fuel net
            = {| reply := None; sleeps := []; tries := fuel |}).
  { induction fuel as [|fuel IH]; intros attempt; [reflexivity |].
    cbn [RedditParser.api_loop]. rewrite IH.
    destruct (Hresp attempt) as [body ->]. rewrite Href. reflexivity. }
  apply H.
Qed.

Lemma reddit_api_unauthorized_no_wait_witness :
  RedditParser.make_api_request true 3
    {| RedditParser.respond := fun _ => Response 401 None;
       RedditParser.refreshed := fun _ => None |}
  = {| reply := None; sleeps := []; tries := 3 |}.
Proof.
  apply (reddit_api_unauthorized_no_wait 3
           {| RedditParser.respond := fun _ => Response 401 None;
              RedditParser.refreshed := fun _ => None |}).
  - intros j. now exists None.
  - intros j. reflexivity.
Defined.

(** ** The YouTube adapter *)

Lemma insert_newest_first_perm c l :
  YouTubeParser.insert_newest_first c l ≡ₚ c :: l.
Proof.
  induction l as [|d l IH]; cbn [YouTubeParser.insert_newest_first]; [reflexivity |].
  destruct (YouTubeParser.sort_key c <? YouTubeParser.sort_key d)%Z; [| reflexivity].
  rewrite IH. apply Permutation_swap.
Qed.

Lemma insert_newest_first_sorted c l :
  newest_first l -> newest_first (YouTubeParser.insert_newest_first c l).
Proof.
  unfold newest_first. induction 1 as [|d l Hs IH Hd];
    cbn [YouTubeParser.insert_newest_first].
  - repeat constructor.
  - destruct (YouTubeParser.sort_key c <? YouTubeParser.sort_key d)%Z eqn:E.
    + apply Z.ltb_lt in E. constructor; [exact IH |].
      rewrite insert_newest_first_perm. constructor; [lia | exact Hd].
    + apply Z.ltb_ge in E. constructor; [now constructor |].
      constructor; [exact E |].
      eapply Forall_impl; [exact Hd |]. cbn. intros x Hx. lia.
Qed.

Lemma sort_foldr_sorted l :
  newest_first (foldr YouTubeParser.insert_newest_first [] l) /\
  foldr YouTubeParser.insert_newest_first [] l ≡ₚ l.
Proof.
  induction l as [|c l [IH1 IH2]]; cbn [foldr].
  - split; [constructor | reflexivity].
  - split; [now apply insert_newest_first_sorted |].
    now rewrite insert_newest_first_perm, IH2.
Qed.

Lemma forallb_false {A} (f : A -> bool) (l : list A) :
  forallb f l = false -> exists x, x ∈ l /\ f x = false.
Proof.
  induction l as [|x l IH]; cbn [forallb]; [discriminate |].
  destruct (f x) eqn:E.
  - intros H. destruct (IH H) as (y & Hy & Hf). exists y. split; [now right | exact Hf].
  - intros _. exists x. split; [left | exact E].
Qed.

Lemma insert_newest_first_same_instant k c l :
  List.filter (fun x => (YouTubeParser.sort_key x =? k)%Z)
              (YouTubeParser.insert_newest_first c l)
  = List.filter (fun x => (YouTubeParser.sort_key x =? k)%Z) (c :: l).
Proof.
  induction l as [|d l IH]; cbn [YouTubeParser.insert_newest_first]; [reflexivity |].
  destruct (YouTubeParser.sort_key c <? YouTubeParser.sort_key d)%Z eqn:E; [| reflexivity].
  apply Z.ltb_lt in E. cbn [List.filter] in *. rewrite IH.
  destruct (YouTubeParser.sort_key d =? k)%Z eqn:Ed;
    destruct (YouTubeParser.sort_key c =? k)%Z eqn:Ec; try reflexivity.
  apply Z.eqb_eq in Ed, Ec. lia.
Qed.

Lemma sort_foldr_same_instant k l :
  List.filter (fun x => (YouTubeParser.sort_key x =? k)%Z)
              (foldr YouTubeParser.insert_newest_first [] l)
  = List.filter (fun x => (YouTubeParser.sort_key x =? k)%Z) l.
Proof.
  induction l as [|c l IH]; cbn [foldr]; [reflexivity |].
  rewrite insert_newest_first_same_instant. cbn [List.filter]. now rewrite IH.
Qed.

(** The sort of line 375 as modelled: a rearrangement of its input in which
    every comment is at least as recent as the ones after it and the comments
    of one instant keep the order they had; it fails exactly when the list
    mixes naive and zone-aware timestamps. *)
Lemma sort_newest_first_correct (l : list Comment) :
  (forall sorted,
     YouTubeParser.sort_newest_first l = Some sorted ->
     sorted ≡ₚ l /\ newest_first sorted /\
     forall k, List.filter (fun x => (YouTubeParser.sort_key x =? k)%Z) sorted
               = List.filter (fun x => (YouTubeParser.sort_key x =? k)%Z) l) /\
  (YouTubeParser.sort_newest_first l = None <->
   (exists c, c ∈ l /\ YouTubeParser.is_naive c = true) /\
   (exists c, c ∈ l /\ YouTubeParser.is_naive c = false)).
Proof.
  unfold YouTubeParser.sort_newest_first. split.
  - intros sorted H. destruct (_ || _); [| discriminate]. injection H as <-.
    destruct (sort_foldr_sorted l) as [H1 H2].
    split; [exact H2 | split; [exact H1 |]].
    intros k. apply sort_foldr_same_instant.
  - destruct (forallb YouTubeParser.is_naive l) eqn:E1;
      destruct (forallb (fun c => negb (YouTubeParser.is_naive c)) l) eqn:E2; cbn.
    + split; [discriminate |]. intros [(c & Hc & Hn) _].
      rewrite forallb_forall in E2. apply list_elem_of_In, E2 in Hc.
      rewrite Hn in Hc. discriminate.
    + split; [discriminate |]. intros [_ (c & Hc & Hn)].
      rewrite forallb_forall in E1. apply list_elem_of_In, E1 in Hc.
      rewrite Hn in Hc. discriminate.
    + split; [discriminate |]. intros [(c & Hc & Hn) _].
      rewrite forallb_forall in E2. apply list_elem_of_In, E2 in Hc.
      rewrite Hn in Hc. discriminate.
    + split; [intros _ | reflexivity]. split.
      * apply forallb_false in E2 as (c & Hc & Hf). exists c. split; [exact Hc |].
        now destruct (YouTubeParser.is_naive c).
      * apply forallb_false in E1 as (c & Hc & Hf). now exists c.
Qed.

Lemma get_video_comments_result parse position video net p :
  exists out,
    YouTubeParser.calls (YouTubeParser.get_video_comments parse position video 30 net p).2
    = YouTubeParser.calls p ++ [(YouTubeParser.CommentThreads position video 30, out)] /\
    forall l c,
      (YouTubeParser.get_video_comments parse position video 30 net p).1
      = YouTubeParser.Ret l ->
      c ∈ l ->
      exists body, out = YouTubeParser.Ret (Some body) /\ c ∈ parse video body.
Proof.
  unfold YouTubeParser.get_video_comments, YouTubeParser.bind, YouTubeParser.request.
  exists (reply (YouTubeParser.make_request_with_retry 3
                   (net (YouTubeParser.CommentThreads position video 30)))).
  destruct (reply _) as [[d|]|e]; cbn [fst snd YouTubeParser.ret YouTubeParser.calls].
  - destruct (truthy d); cbn [fst snd YouTubeParser.calls]; (split; [reflexivity |]);
      intros l c Hl Hc; injection Hl as <-; [now exists d | inversion Hc].
  - split; [reflexivity |]. intros l c Hl Hc. injection Hl as <-. inversion Hc.
  - split; [reflexivity |]. intros l c Hl. discriminate Hl.
Qed.

Lemma gather_results parse video_ids :
  forall position net p,
    exists added,
      YouTubeParser.calls (YouTubeParser.gather parse position video_ids net p).2
      = YouTubeParser.calls p ++ added /\
      forall l c,
        YouTubeParser.Ret l ∈ (YouTubeParser.gather parse position video_ids net p).1 ->
        c ∈ l ->
        exists pos video body,
          c ∈ parse video body /\
          (YouTubeParser.CommentThreads pos video 30, YouTubeParser.Ret (Some body)) ∈ added.
Proof.
  induction video_ids as [|v vs IH]; intros position net p; cbn [YouTubeParser.gather].
  - exists []. split; [now rewrite app_nil_r |]. intros l c H. inversion H.
  - destruct (get_video_comments_result parse position v net p) as (out & E1 & H1).
    destruct (YouTubeParser.get_video_comments parse position v 30 net p) as [r p1].
    cbn [fst snd] in E1, H1.
    destruct (IH (S position) net p1) as (added2 & E2 & H2).
    destruct (YouTubeParser.gather parse (S position) vs net p1) as [rs p2].
    cbn [fst snd] in *.
    exists ((YouTubeParser.CommentThreads position v 30, out) :: added2).
    split; [rewrite E2, E1, <- app_assoc; reflexivity |].
    intros l c Hl Hc. apply elem_of_cons in Hl as [Hl | Hl].
    + destruct (H1 l c (eq_sym Hl) Hc) as (body & -> & Hb).
      exists position, v, body. split; [exact Hb | left].
    + destruct (H2 l c Hl Hc) as (pos & video & body & H3 & H4).
      exists pos, video, body. split; [exact H3 | now right].
Qed.

Lemma collect_elem results all_comments c :
  YouTubeParser.collect results = YouTubeParser.Ret all_comments ->
  c ∈ all_comments ->
  exists l, YouTubeParser.Ret l ∈ results /\ c ∈ l.
Proof.
  revert all_comments. induction results as [|[l1 | e1] rs IH];
    cbn [YouTubeParser.collect]; intros all_comments H Hc.
  - injection H as <-. inversion Hc.
  - destruct (YouTubeParser.collect rs) as [l2 | e2]; [| discriminate].
    injection H as <-. apply elem_of_app in Hc as [Hc | Hc].
    + exists l1. split; [left | exact Hc].
    + destruct (IH l2 eq_refl Hc) as (l & Hl & Hcl). exists l. split; [now right | exact Hcl].
  - discriminate.
Qed.

(** X18. What [YouTubeParser.get_comments] returns has at most [limit]
    comments, each at least as recent as the ones after it, and every one of
    them was read from the body of a comment request made in this call. *)
Theorem youtube_get_comments_newest_first
    (parse : Json -> Json -> list Comment) (limit : nat) (net : YouTubeParser.Net)
    (p : YouTubeParser.Parser) (comments : list Comment) :
  (YouTubeParser.get_comments parse limit net p).1 = YouTubeParser.Ret comments ->
  length comments <= limit /\
  newest_first comments /\
  forall c, c ∈ comments ->
    exists pos video body,
      c ∈ parse video body /\
      (YouTubeParser.CommentThreads pos video 30, YouTubeParser.Ret (Some body))
      ∈ requests_made (YouTubeParser.get_comments parse limit) net p.
Proof.
  unfold requests_made, YouTubeParser.get_comments, YouTubeParser.bind, YouTubeParser.gets.
  cbn [fst snd]. destruct (YouTubeParser.is_configured p).
  2:{ cbn. intros H. injection H as <-. repeat split; [cbn; lia | constructor |].
      intros c Hc. inversion Hc. }
  destruct (surfaces_get_video_ids 20 net p) as (added1 & E1 & _).
  destruct (YouTubeParser.get_video_ids 20 net p) as [[[|v vs]|e] p1]; cbn [fst snd] in *.
  - cbn. intros H. injection H as <-. repeat split; [cbn; lia | constructor |].
    intros c Hc. inversion Hc.
  - destruct (gather_results parse (v :: vs) 0 net p1) as (added2 & E2 & H2).
    destruct (YouTubeParser.gather parse 0 (v :: vs) net p1) as [rs p2].
    cbn [fst snd] in *.
    destruct (YouTubeParser.collect rs) as [all_comments | e] eqn:Ec;
      cbn [fst snd YouTubeParser.ret]; [| discriminate].
    intros H. injection H as <-.
    destruct (YouTubeParser.sort_newest_first all_comments) as [sorted|] eqn:Es;
      cbn [default].
    + destruct (sort_newest_first_correct all_comments) as [Hsort _].
      destruct (Hsort sorted Es) as (Hperm & Hsorted & _).
      repeat apply conj.
      * rewrite length_take. lia.
      * unfold newest_first in *.
        rewrite <- (take_drop limit sorted) in Hsorted.
        now apply StronglySorted_app_1_l in Hsorted.
      * intros c Hc. apply elem_of_take in Hc as (i & Hc & _).
        apply list_elem_of_lookup_2 in Hc. rewrite Hperm in Hc.
        destruct (collect_elem rs all_comments c Ec Hc) as (l & Hl & Hcl).
        destruct (H2 l c Hl Hcl) as (pos & video & body & H3 & H4).
        exists pos, video, body. split; [exact H3 |].
        rewrite E2, E1, <- app_assoc, drop_app_length.
        apply elem_of_app. now right.
    + rewrite take_nil. repeat split; [cbn; lia | constructor |].
      intros c Hc. inversion Hc.
  - discriminate.
Qed.

Lemma youtube_get_comments_newest_first_witness :
  (YouTubeParser.get_comments Extra.two_comments 600 Extra.one_video_net
                              Scenario.fresh_parser).1
  = YouTubeParser.Ret [Scenario.x; Scenario.y] /\
  newest_first [Scenario.x; Scenario.y].
Proof.
  split; [vm_compute; reflexivity |].
  apply (youtube_get_comments_newest_first Extra.two_comments 600 Extra.one_video_net
           Scenario.fresh_parser [Scenario.x; Scenario.y]).
  vm_compute. reflexivity.
Defined.

Lemma keeps_fields_ret {A} (a : A) : keeps_fields (YouTubeParser.ret a).
Proof. intros net p. repeat split. Qed.

Lemma keeps_fields_gets {A} (f : YouTubeParser.Parser -> A) :
  keeps_fields (YouTubeParser.gets f).
Proof. intros net p. repeat split. Qed.

Lemma keeps_fields_request r : keeps_fields (YouTubeParser.request r).
Proof. intros net p. repeat split. Qed.

Lemma keeps_fields_bind {A B} (m : YouTubeParser.M A) (k : A -> YouTubeParser.M B) :
  keeps_fields m -> (forall a, keeps_fields (k a)) ->
  keeps_fields (YouTubeParser.bind m k).
Proof.
  intros Hm Hk net p. unfold YouTubeParser.bind.
  specialize (Hm net p). destruct (m net p) as [[a | e] p1]; cbn [snd] in *; [| exact Hm].
  specialize (Hk a net p1). destruct Hm as (A1 & A2 & A3 & A4).
  destruct Hk as (B1 & B2 & B3 & B4).
  repeat split; congruence.
Qed.

Lemma keeps_mark_ret {A} (a : A) : keeps_mark (YouTubeParser.ret a).
Proof. intros net p H. exact H. Qed.

Lemma keeps_mark_gets {A} (f : YouTubeParser.Parser -> A) :
  keeps_mark (YouTubeParser.gets f).
Proof. intros net p H. exact H. Qed.

Lemma keeps_mark_request r : keeps_mark (YouTubeParser.request r).
Proof. intros net p H. exact H. Qed.

Lemma keeps_mark_modify (f : YouTubeParser.Parser -> YouTubeParser.Parser) :
  (forall p, YouTubeParser.playlist_id_loaded p = true ->
             YouTubeParser.playlist_id_loaded (f p) = true) ->
  keeps_mark (YouTubeParser.modify f).
Proof. intros Hf net p H. now apply Hf. Qed.

Lemma keeps_mark_bind {A B} (m : YouTubeParser.M A) (k : A -> YouTubeParser.M B) :
  keeps_mark m -> (forall a, keeps_mark (k a)) ->
  keeps_mark (YouTubeParser.bind m k).
Proof.
  intros Hm Hk net p H. unfold YouTubeParser.bind.
  specialize (Hm net p H). destruct (m net p) as [[a | e] p1]; cbn [snd] in *; [| exact Hm].
  now apply Hk.
Qed.

Ltac keeps_mark_tac :=
  repeat first
    [ apply keeps_mark_ret
    | apply keeps_mark_gets
    | apply keeps_mark_request
    | apply keeps_mark_modify; intros ? ?; (reflexivity || assumption)
    | apply keeps_mark_bind; [| intros ?]
    | match goal with
      | |- keeps_mark (match ?x with _ => _ end) => destruct x
      | |- keeps_mark (if ?b then _ else _) => destruct b
      end ].

Lemma keeps_mark_load : keeps_mark YouTubeParser.load_uploads_playlist_id.
Proof. unfold YouTubeParser.load_uploads_playlist_id. keeps_mark_tac. Qed.

(** After [get_uploads_playlist_id] the playlist id is known or its lookup is
    marked as done. *)
Lemma get_uploads_playlist_id_marks net p :
  let p' := (YouTubeParser.get_uploads_playlist_id net p).2 in
  YouTubeParser.playlist_id_loaded p' = true \/
  YouTubeParser.uploads_playlist_id p' <> JNull.
Proof.
  cbv zeta.
  assert (Hrest : forall s : string,
            keeps_mark
              (if String.prefix "UC" s then YouTubeParser.load_uploads_playlist_id
               else YouTubeParser.bind
                      (YouTubeParser.get_channel_id_by_username (JStr s))
                      (fun found =>
                         if truthy found
                         then YouTubeParser.bind
                                (YouTubeParser.modify (YouTubeParser.set_channel_id found))
                                (fun _ => YouTubeParser.load_uploads_playlist_id)
                         else YouTubeParser.ret JNull))).
  { intros s. pose proof keeps_mark_load.
    unfold YouTubeParser.get_channel_id_by_username.
    repeat first
      [ assumption
      | apply keeps_mark_ret
      | apply keeps_mark_request
      | apply keeps_mark_modify; intros ? ?; assumption
      | apply keeps_mark_bind; [| intros ?]
      | match goal with
        | |- keeps_mark (if ?b then _ else _) => destruct b
        end ]. }
  assert (E : YouTubeParser.get_uploads_playlist_id net p
              = match YouTubeParser.uploads_playlist_id p with
                | JNull =>
                    if YouTubeParser.playlist_id_loaded p
                    then (YouTubeParser.Ret JNull, p)
                    else match YouTubeParser.channel_id p with
                         | JStr s =>
                             (if String.prefix "UC" s
                              then YouTubeParser.load_uploads_playlist_id
                              else YouTubeParser.bind
                                     (YouTubeParser.get_channel_id_by_username (JStr s))
                                     (fun found =>
                                        if truthy found
                                        then YouTubeParser.bind
                                               (YouTubeParser.modify
                                                  (YouTubeParser.set_channel_id found))
                                               (fun _ => YouTubeParser.load_uploads_playlist_id)
                                        else YouTubeParser.ret JNull))
                               net (YouTubeParser.set_playlist_id_loaded p)
                         | _ => (YouTubeParser.Ret JNull,
                                 YouTubeParser.set_playlist_id_loaded p)
                         end
                | u => (YouTubeParser.Ret u, p)
                end).
  { unfold YouTubeParser.get_uploads_playlist_id.
    unfold YouTubeParser.bind at 1 2, YouTubeParser.gets. cbn [fst snd].
    destruct (YouTubeParser.uploads_playlist_id p) eqn:Eu; try reflexivity.
    destruct (YouTubeParser.playlist_id_loaded p) eqn:El; [reflexivity |].
    unfold YouTubeParser.bind at 1, YouTubeParser.modify.
    unfold YouTubeParser.bind at 1.
    change (YouTubeParser.channel_id (YouTubeParser.set_playlist_id_loaded p))
      with (YouTubeParser.channel_id p).
    destruct (YouTubeParser.channel_id p); reflexivity. }
  rewrite E. clear E.
  destruct (YouTubeParser.uploads_playlist_id p) eqn:Eu;
    try (right; cbn [snd]; rewrite Eu; discriminate).
  destruct (YouTubeParser.playlist_id_loaded p) eqn:El; [left; exact El |].
  left.
  destruct (YouTubeParser.channel_id p) as [| | |s| |]; try reflexivity.
  now apply (Hrest s net (YouTubeParser.set_playlist_id_loaded p)).
Qed.

Lemma same_fields_refl p : same_fields p p.
Proof. repeat split. Qed.

Lemma same_fields_trans p1 p2 p3 :
  same_fields p1 p2 -> same_fields p2 p3 -> same_fields p1 p3.
Proof.
  intros (A1 & A2 & A3 & A4) (B1 & B2 & B3 & B4). repeat split; congruence.
Qed.

Lemma gather_same_fields parse video_ids :
  forall position net p,
    same_fields p (YouTubeParser.gather parse position video_ids net p).2.
Proof.
  induction video_ids as [|v vs IH]; intros position net p; cbn [YouTubeParser.gather].
  - apply same_fields_refl.
  - assert (H1 : same_fields p (YouTubeParser.get_video_comments parse position v 30 net p).2).
    { unfold YouTubeParser.get_video_comments.
      apply keeps_fields_bind; [apply keeps_fields_request |].
      intros [d|]; [destruct (truthy d) |]; apply keeps_fields_ret. }
    destruct (YouTubeParser.get_video_comments parse position v 30 net p) as [r p1].
    specialize (IH (S position) net p1).
    destruct (YouTubeParser.gather parse (S position) vs net p1) as [rs p2].
    cbn [snd] in *. eapply same_fields_trans; eassumption.
Qed.

Lemma bind_gets {A B} (f : YouTubeParser.Parser -> A) (k : A -> YouTubeParser.M B) net p :
  YouTubeParser.bind (YouTubeParser.gets f) k net p = k (f p) net p.
Proof. reflexivity. Qed.

Lemma bind_at {A B} (m m' : YouTubeParser.M A) (k : A -> YouTubeParser.M B) net p :
  m net p = m' net p -> YouTubeParser.bind m k net p = YouTubeParser.bind m' k net p.
Proof. intros E. unfold YouTubeParser.bind. now rewrite E. Qed.

Lemma marks_bind_keeps {A B} (m : YouTubeParser.M A) (k : A -> YouTubeParser.M B) net p :
  (YouTubeParser.playlist_id_loaded (m net p).2 = true \/
   YouTubeParser.uploads_playlist_id (m net p).2 <> JNull) ->
  (forall a, keeps_fields (k a)) ->
  YouTubeParser.playlist_id_loaded (YouTubeParser.bind m k net p).2 = true \/
  YouTubeParser.uploads_playlist_id (YouTubeParser.bind m k net p).2 <> JNull.
Proof.
  intros Hm Hk. unfold YouTubeParser.bind.
  destruct (m net p) as [[a | e] p1]; cbn [snd] in *; [| exact Hm].
  destruct (Hk a net p1) as (_ & _ & -> & ->). exact Hm.
Qed.

Lemma keeps_fields_gathered parse limit video_ids :
  keeps_fields
    (match video_ids with
     | [] => YouTubeParser.ret []
     | _ :: _ =>
         YouTubeParser.bind
           (fun net p => let '(rs, p') := YouTubeParser.gather parse 0 video_ids net p in
                         (YouTubeParser.Ret rs, p'))
           (fun results =>
              match YouTubeParser.collect results with
              | YouTubeParser.Raise e => fun _ p => (YouTubeParser.Raise e, p)
              | YouTubeParser.Ret all_comments =>
                  YouTubeParser.ret
                    (take limit (default [] (YouTubeParser.sort_newest_first all_comments)))
              end)
     end).
Proof.
  destruct video_ids as [|v vs]; [apply keeps_fields_ret |].
  apply keeps_fields_bind.
  - intros net p. pose proof (gather_same_fields parse (v :: vs) 0 net p) as H.
    now destruct (YouTubeParser.gather parse 0 (v :: vs) net p).
  - intros results. destruct (YouTubeParser.collect results);
      [apply keeps_fields_ret | intros net p; apply same_fields_refl].
Qed.

(** After [get_comments] of a configured adapter the playlist id is known or
    its lookup is marked as done. *)
Lemma get_comments_marks parse limit net p :
  YouTubeParser.is_configured p = true ->
  let p' := (YouTubeParser.get_comments parse limit net p).2 in
  YouTubeParser.playlist_id_loaded p' = true \/
  YouTubeParser.uploads_playlist_id p' <> JNull.
Proof.
  intros Hc. cbv zeta.
  assert (E : YouTubeParser.get_comments parse limit net p
              = YouTubeParser.bind
                  (YouTubeParser.bind YouTubeParser.get_uploads_playlist_id
                     (fun u =>
                        if truthy u
                        then YouTubeParser.bind
                               (YouTubeParser.request (YouTubeParser.PlaylistItems u 20))
                               (fun data =>
                                  match data with
                                  | Some d =>
                                      if truthy d
                                      then YouTubeParser.ret
                                             (default [] (YouTubeParser.video_ids_of d))
                                      else YouTubeParser.ret []
                                  | None => YouTubeParser.ret []
                                  end)
                        else YouTubeParser.ret []))
                  (fun video_ids =>
                     match video_ids with
                     | [] => YouTubeParser.ret []
                     | _ :: _ =>
                         YouTubeParser.bind
                           (fun net p =>
                              let '(rs, p') := YouTubeParser.gather parse 0 video_ids net p in
                              (YouTubeParser.Ret rs, p'))
                           (fun results =>
                              match YouTubeParser.collect results with
                              | YouTubeParser.Raise e => fun _ p => (YouTubeParser.Raise e, p)
                              | YouTubeParser.Ret all_comments =>
                                  YouTubeParser.ret
                                    (take limit
                                       (default [] (YouTubeParser.sort_newest_first
                                                      all_comments)))
                              end)
                     end) net p).
  { unfold YouTubeParser.get_comments. rewrite bind_gets, Hc.
    apply bind_at. unfold YouTubeParser.get_video_ids. now rewrite bind_gets, Hc. }
  rewrite E. apply marks_bind_keeps; [| intros ids; apply keeps_fields_gathered].
  apply marks_bind_keeps; [apply get_uploads_playlist_id_marks |].
  intros u. destruct (truthy u); [| apply keeps_fields_ret].
  apply keeps_fields_bind; [apply keeps_fields_request |].
  intros [d|]; [destruct (truthy d) |]; apply keeps_fields_ret.
Qed.

Lemma get_comments_unconfigured parse limit net p :
  YouTubeParser.is_configured p = false ->
  YouTubeParser.get_comments parse limit net p = (YouTubeParser.Ret [], p).
Proof.
  intros Hc. unfold YouTubeParser.get_comments, YouTubeParser.bind, YouTubeParser.gets.
  cbn [fst snd]. now rewrite Hc.
Qed.

Lemma get_comments_after_failed_lookup parse limit net p :
  YouTubeParser.uploads_playlist_id p = JNull ->
  YouTubeParser.playlist_id_loaded p = true ->
  YouTubeParser.get_comments parse limit net p = (YouTubeParser.Ret [], p).
Proof.
  intros Hu Hl.
  destruct (YouTubeParser.is_configured p) eqn:Hc;
    [| now apply get_comments_unconfigured].
  assert (E1 : YouTubeParser.get_uploads_playlist_id net p = (YouTubeParser.Ret JNull, p)).
  { unfold YouTubeParser.get_uploads_playlist_id.
    rewrite bind_gets. cbv beta. rewrite bind_gets. cbv beta. now rewrite Hu, Hl. }
  assert (E2 : YouTubeParser.get_video_ids 20 net p = (YouTubeParser.Ret [], p)).
  { unfold YouTubeParser.get_video_ids. rewrite bind_gets, Hc.
    unfold YouTubeParser.bind. now rewrite E1. }
  unfold YouTubeParser.get_comments. rewrite bind_gets, Hc.
  unfold YouTubeParser.bind. now rewrite E2.
Qed.

(** X19. When a call of [YouTubeParser.get_comments] ends without the id of
    the uploads playlist (the lookup met a timeout, a 5xx, the quota or an
    unexpected body), every later call makes no request at all and returns
    the empty list, on whatever network: the lookup is tried once in the life
    of the adapter. *)
Theorem youtube_failed_lookup_disables_adapter
    (parse : Json -> Json -> list Comment) (limit limit' : nat)
    (net net' : YouTubeParser.Net) (p : YouTubeParser.Parser) :
  let p1 := (YouTubeParser.get_comments parse limit net p).2 in
  YouTubeParser.uploads_playlist_id p1 = JNull ->
  YouTubeParser.get_comments parse limit' net' p1 = (YouTubeParser.Ret [], p1) /\
  YouTubeParser.fetch parse net' p1 limit' = Returned [].
Proof.
  intros p1 Hu.
  assert (H : YouTubeParser.get_comments parse limit' net' p1 = (YouTubeParser.Ret [], p1)).
  { destruct (YouTubeParser.is_configured p) eqn:Hc.
    - destruct (get_comments_marks parse limit net p Hc) as [Hl | Hn];
        [| now contradiction Hn].
      now apply get_comments_after_failed_lookup.
    - assert (E : p1 = p) by (unfold p1; now rewrite get_comments_unconfigured).
      rewrite E. now apply get_comments_unconfigured. }
  split; [exact H |]. unfold YouTubeParser.fetch. now rewrite H.
Qed.

Lemma youtube_failed_lookup_disables_adapter_witness :
  YouTubeParser.fetch Extra.two_comments Extra.one_video_net
    (YouTubeParser.get_comments Extra.two_comments 600 Extra.dead_net
                                Scenario.fresh_parser).2 600
  = Returned [].
Proof.
  apply (youtube_failed_lookup_disables_adapter Extra.two_comments 600 600
           Extra.dead_net Extra.one_video_net Scenario.fresh_parser).
  vm_compute. reflexivity.
Defined.

(** X20. Once the id of the uploads playlist is known, [get_video_ids] makes
    one request, the list of the playlist's items, and no channel lookup. *)
Theorem youtube_cached_playlist_one_request
    (limit : nat) (net : YouTubeParser.Net) (p : YouTubeParser.Parser) :
  YouTubeParser.is_configured p = true ->
  truthy (YouTubeParser.uploads_playlist_id p) = true ->
  requests_made (YouTubeParser.get_video_ids limit) net p
  = [(YouTubeParser.PlaylistItems (YouTubeParser.uploads_playlist_id p) limit,
      reply (YouTubeParser.make_request_with_retry 3
               (net (YouTubeParser.PlaylistItems (YouTubeParser.uploads_playlist_id p)
                                                 limit))))] /\
  same_fields p (YouTubeParser.get_video_ids limit net p).2.
Proof.
  intros Hc Ht.
  assert (E : (YouTubeParser.get_video_ids limit net p).2
              = (YouTubeParser.request
                   (YouTubeParser.PlaylistItems (YouTubeParser.uploads_playlist_id p) limit)
                   net p).2).
  { assert (E1 : YouTubeParser.get_uploads_playlist_id net p
                 = (YouTubeParser.Ret (YouTubeParser.uploads_playlist_id p), p)).
    { unfold YouTubeParser.get_uploads_playlist_id.
      rewrite bind_gets. cbv beta. rewrite bind_gets. cbv beta.
      destruct (YouTubeParser.uploads_playlist_id p); try discriminate Ht; reflexivity. }
    unfold YouTubeParser.get_video_ids. rewrite bind_gets, Hc.
    unfold YouTubeParser.bind at 1. rewrite E1, Ht.
    unfold YouTubeParser.bind.
    destruct (YouTubeParser.request _ net p) as [[[d|]|e] p1]; cbn [snd]; try reflexivity.
    destruct (truthy d); reflexivity. }
  unfold requests_made. rewrite E. unfold YouTubeParser.request. cbn [fst snd YouTubeParser.calls].
  split; [apply drop_app_length | repeat split].
Qed.

Lemma youtube_cached_playlist_one_request_witness :
  length (requests_made (YouTubeParser.get_video_ids 20) Extra.one_video_net
            (YouTubeParser.set_uploads_playlist_id (JStr "UUabc") Scenario.fresh_parser))
  = 1.
Proof.
  destruct (youtube_cached_playlist_one_request 20 Extra.one_video_net
              (YouTubeParser.set_uploads_playlist_id (JStr "UUabc") Scenario.fresh_parser))
    as [H _]; [reflexivity | reflexivity |].
  rewrite H. reflexivity.
Defined.

(** X21. [YouTubeParser.get_comments] raises nothing but the quota exception,
    and only when one of the requests it made in this call was answered with
    the quota response; when it returns, none was. *)
Theorem youtube_get_comments_raises_only_quota
    (parse : Json -> Json -> list Comment) (limit : nat) (net : YouTubeParser.Net)
    (p : YouTubeParser.Parser) :
  match (YouTubeParser.get_comments parse limit net p).1 with
  | YouTubeParser.Ret _ =>
      forall req e,
        (req, YouTubeParser.Raise e)
        ∉ requests_made (YouTubeParser.get_comments parse limit) net p
  | YouTubeParser.Raise e =>
      e = YouTubeParser.quota_message /\
      exists req,
        (req, YouTubeParser.Raise YouTubeParser.quota_message)
        ∈ requests_made (YouTubeParser.get_comments parse limit) net p /\
        reply (YouTubeParser.make_request_with_retry 3 (net req))
        = YouTubeParser.Raise YouTubeParser.quota_message
  end.
Proof.
  destruct (surfaces_get_comments parse limit net p) as (added & E & Q & H).
  rewrite (requests_made_added _ net p added E).
  destruct ((YouTubeParser.get_comments parse limit net p).1) as [l | e]; [exact H |].
  destruct H as [req Hreq]. pose proof (Q _ _ Hreq) as Hout.
  assert (He : e = YouTubeParser.quota_message).
  { symmetry in Hout. now apply youtube_retry_raises_quota_only in Hout. }
  subst e. split; [reflexivity |]. exists req. split; [exact Hreq | now symmetry].
Qed.

Lemma youtube_get_comments_raises_only_quota_witness :
  (YouTubeParser.get_comments Scenario.no_comments 50 Scenario.quota_net
     Scenario.fresh_parser).1 = YouTubeParser.Raise YouTubeParser.quota_message /\
  exists req,
    (req, YouTubeParser.Raise YouTubeParser.quota_message)
    ∈ requests_made (YouTubeParser.get_comments Scenario.no_comments 50)
        Scenario.quota_net Scenario.fresh_parser.
Proof.
  pose proof (youtube_get_comments_raises_only_quota Scenario.no_comments 50
                Scenario.quota_net Scenario.fresh_parser) as H.
  assert (E : (YouTubeParser.get_comments Scenario.no_comments 50 Scenario.quota_net
                 Scenario.fresh_parser).1
              = YouTubeParser.Raise YouTubeParser.quota_message)
    by (vm_compute; reflexivity).
  rewrite E in H. destruct H as (_ & req & Hreq & _).
  split; [exact E | exists req; exact Hreq].
Defined.

(** ** Reddit: the cached token *)

(** X22 ([RedditParser.get_access_token]). After a call that requested a
    token and was answered 200 with a dictionary whose [expires_in] (3600
    when absent) is a number [e], the call has returned [True], and a later
    call returns [True] without a request exactly while the stored token is
    truthy and the clock is before the time of the answer plus [e - 60]
    seconds; any other later call requests a token again when the adapter is
    configured and returns [False] without a request when it is not. *)
Lemma reddit_token_reused_until_margin (now now' e : Z) (l : list (string * Json))
    (t : RedditAuth.Token) :
  RedditAuth.requested
    (RedditAuth.get_access_token true now now' (Response 200 (Some (JObj l))) t) = true ->
  default (JNum 3600) (lookup_key "expires_in" l) = JNum e ->
  in_datetime_range (now' + (e - 60) * 1000000) = true ->
  let o := RedditAuth.get_access_token true now now' (Response 200 (Some (JObj l))) t in
  RedditAuth.ok o = true /\
  RedditAuth.access_token (RedditAuth.token o) = default JNull (lookup_key "access_token" l) /\
  forall (configured : bool) (later later' : Z) (post : Attempt),
    let o' := RedditAuth.get_access_token configured later later' post (RedditAuth.token o) in
    if truthy (default JNull (lookup_key "access_token" l))
       && (later <? now' + (e - 60) * 1000000)%Z
    then o' = {| RedditAuth.ok := true; RedditAuth.token := RedditAuth.token o;
                 RedditAuth.requested := false |}
    else RedditAuth.requested o' = configured /\
         (configured = false -> RedditAuth.ok o' = false).
Proof.
  intros Hreq He Hrange.
  assert (Eo : RedditAuth.get_access_token true now now' (Response 200 (Some (JObj l))) t
               = {| RedditAuth.ok := true;
                    RedditAuth.token :=
                      {| RedditAuth.access_token := default JNull (lookup_key "access_token" l);
                         RedditAuth.token_expires_at := Some (now' + (e - 60) * 1000000)%Z |};
                    RedditAuth.requested := true |}).
  { revert Hreq. unfold RedditAuth.get_access_token.
    destruct (truthy (RedditAuth.access_token t) && _); [discriminate |].
    cbn. intros _. unfold RedditAuth.store_token. cbn.
    rewrite He. cbn. now rewrite Hrange. }
  cbv zeta. rewrite Eo. cbn [RedditAuth.ok RedditAuth.token RedditAuth.access_token].
  split; [reflexivity |]. split; [reflexivity |].
  intros configured later later' post.
  unfold RedditAuth.get_access_token.
  cbn [RedditAuth.access_token RedditAuth.token_expires_at].
  destruct (truthy (default JNull (lookup_key "access_token" l))
            && (later <? now' + (e - 60) * 1000000)%Z); [reflexivity |].
  destruct configured; cbn [negb].
  - split; [| discriminate].
    destruct post as [status [body |] | |]; try reflexivity;
      destruct (status =? 200)%Z; try reflexivity.
    unfold RedditAuth.store_token.
    destruct (py_get "access_token" JNull body); [| reflexivity].
    destruct (py_get "expires_in" (JNum 3600) body) as [x |]; [| reflexivity].
    destruct (RedditAuth.minus_margin x); [| reflexivity].
    now destruct (in_datetime_range (later' + _)).
  - now split.
Qed.

Lemma reddit_token_reused_until_margin_witness :
  let answer := Response 200 (Some (JObj [("access_token", JStr "abc");
                                          ("expires_in", JNum 86400)])) in
  let o := RedditAuth.get_access_token true 0 1000000 answer
             {| RedditAuth.access_token := JNull; RedditAuth.token_expires_at := None |} in
  RedditAuth.ok o = true /\
  RedditAuth.requested
    (RedditAuth.get_access_token true 86340999999 86341000000 ReqTimeout (RedditAuth.token o))
    = false /\
  RedditAuth.requested
    (RedditAuth.get_access_token true 86341000000 86341000000 ReqTimeout (RedditAuth.token o))
    = true.
Proof.
  cbv zeta.
  pose proof (reddit_token_reused_until_margin 0 1000000 86400
                [("access_token", JStr "abc"); ("expires_in", JNum 86400)]
                {| RedditAuth.access_token := JNull; RedditAuth.token_expires_at := None |}
                eq_refl eq_refl eq_refl) as H.
  cbv zeta in H. destruct H as (Hok & _ & Hlater).
  split; [exact Hok |]. split.
  - pose proof (Hlater true 86340999999 86341000000 ReqTimeout)%Z as H1.
    cbv zeta in H1. vm_compute. reflexivity.
  - pose proof (Hlater true 86341000000 86341000000 ReqTimeout)%Z as H2.
    cbv zeta in H2. exact (proj1 H2).
Defined.

(** X23 ([RedditParser.get_access_token]). A call that returns [False]
    leaves the stored expiry as it was, a call that sends no request leaves
    both fields as they were, and an adapter that is not configured never
    sends a request. *)
Lemma reddit_failed_refresh_keeps_expiry (configured : bool) (now now' : Z)
    (post : Attempt) (t : RedditAuth.Token) :
  let o := RedditAuth.get_access_token configured now now' post t in
  (RedditAuth.ok o = false ->
   RedditAuth.token_expires_at (RedditAuth.token o) = RedditAuth.token_expires_at t) /\
  (RedditAuth.requested o = false -> RedditAuth.token o = t) /\
  (configured = false -> RedditAuth.requested o = false).
Proof.
  cbv zeta. unfold RedditAuth.get_access_token.
  destruct (truthy (RedditAuth.access_token t) && _).
  { cbn. repeat apply conj; auto; discriminate. }
  destruct configured; cbn [negb]; [| repeat apply conj; auto].
  destruct post as [status [body |] | |];
    try destruct (status =? 200)%Z;
    try (cbn; repeat apply conj; [reflexivity | discriminate | discriminate]).
  unfold RedditAuth.store_token.
  destruct (py_get "access_token" JNull body);
    [| cbn; repeat apply conj; [reflexivity | discriminate | discriminate]].
  destruct (py_get "expires_in" (JNum 3600) body) as [x |];
    [| cbn; repeat apply conj; [reflexivity | discriminate | discriminate]].
  destruct (RedditAuth.minus_margin x);
    [| cbn; repeat apply conj; [reflexivity | discriminate | discriminate]].
  destruct (in_datetime_range (now' + _)); cbn;
    repeat apply conj; try reflexivity; discriminate.
Qed.

Lemma reddit_failed_refresh_keeps_expiry_witness :
  let t := {| RedditAuth.access_token := JStr "old";
              RedditAuth.token_expires_at := Some 5%Z |} in
  let o := RedditAuth.get_access_token true 7 8
             (Response 200 (Some (JObj [("access_token", JStr "new");
                                        ("expires_in", JStr "soon")]))) t in
  RedditAuth.ok o = false /\
  RedditAuth.token_expires_at (RedditAuth.token o) = Some 5%Z /\
  RedditAuth.access_token (RedditAuth.token o) = JStr "new".
Proof.
  cbv zeta. split; [reflexivity |]. split; [| reflexivity].
  exact (proj1 (reddit_failed_refresh_keeps_expiry true 7 8
                  (Response 200 (Some (JObj [("access_token", JStr "new");
                                             ("expires_in", JStr "soon")])))
                  {| RedditAuth.access_token := JStr "old";
                     RedditAuth.token_expires_at := Some 5%Z |}) eq_refl).
Defined.

(** ** Telegram: the retries of one message *)

Lemma send_comment_loop_spec (max_retries : nat) (bot : nat -> Telegram.SendAttempt)
    (fuel attempt : nat) :
  attempt + fuel = max_retries -> 0 < fuel ->
  let s := Telegram.send_comment_loop max_retries attempt fuel bot in
  1 <= Telegram.attempts s <= fuel /\
  Telegram.pauses s
  = map (fun a => Telegram.wait_after (bot a) a) (seq attempt (Telegram.attempts s - 1))
    ++ [if Telegram.delivered s then 500 else 1000] /\
  (forall j, attempt <= j < attempt + Telegram.attempts s - 1 -> bot j <> Telegram.Delivered) /\
  (if Telegram.delivered s then bot (attempt + Telegram.attempts s - 1) = Telegram.Delivered
   else Telegram.attempts s = fuel /\ bot (attempt + fuel - 1) <> Telegram.Delivered).
Proof.
  revert attempt. induction fuel as [| fuel IH]; intros attempt Hsum Hpos; [lia |].
  cbn [Telegram.send_comment_loop]. cbv zeta.
  assert (Last : forall e, bot attempt = e -> e <> Telegram.Delivered ->
            let s := {| Telegram.delivered := false; Telegram.pauses := [1000];
                        Telegram.attempts := 1 |} in
            fuel = 0 ->
            1 <= Telegram.attempts s <= S fuel /\
            Telegram.pauses s
            = map (fun a => Telegram.wait_after (bot a) a)
                  (seq attempt (Telegram.attempts s - 1))
              ++ [if Telegram.delivered s then 500 else 1000] /\
            (forall j, attempt <= j < attempt + Telegram.attempts s - 1 ->
                       bot j <> Telegram.Delivered) /\
            (if Telegram.delivered s
             then bot (attempt + Telegram.attempts s - 1) = Telegram.Delivered
             else Telegram.attempts s = S fuel /\
                  bot (attempt + S fuel - 1) <> Telegram.Delivered)).
  { intros e He Hne s Hf. subst s fuel. cbn.
    repeat apply conj; try lia; try reflexivity.
    replace (attempt + 1 - 1) with attempt by lia. now rewrite He. }
  assert (Next : forall e w, bot attempt = e -> e <> Telegram.Delivered ->
            w = Telegram.wait_after e attempt -> 0 < fuel ->
            let s := Telegram.pause_then w
                       (Telegram.send_comment_loop max_retries (S attempt) fuel bot) in
            1 <= Telegram.attempts s <= S fuel /\
            Telegram.pauses s
            = map (fun a => Telegram.wait_after (bot a) a)
                  (seq attempt (Telegram.attempts s - 1))
              ++ [if Telegram.delivered s then 500 else 1000] /\
            (forall j, attempt <= j < attempt + Telegram.attempts s - 1 ->
                       bot j <> Telegram.Delivered) /\
            (if Telegram.delivered s
             then bot (attempt + Telegram.attempts s - 1) = Telegram.Delivered
             else Telegram.attempts s = S fuel /\
                  bot (attempt + S fuel - 1) <> Telegram.Delivered)).
  { intros e w He Hne Hw Hf s.
    destruct (IH (S attempt) ltac:(lia) Hf) as (Hb & Hp & Hn & Hd).
    subst s. unfold Telegram.pause_then.
    cbn [Telegram.attempts Telegram.pauses Telegram.delivered].
    set (rest := Telegram.send_comment_loop max_retries (S attempt) fuel bot) in *.
    repeat apply conj; try lia.
    - replace (S (Telegram.attempts rest) - 1) with (S (Telegram.attempts rest - 1)) by lia.
      cbn [seq map app]. rewrite He, <- Hw. now rewrite Hp.
    - intros j Hj. destruct (decide (j = attempt)) as [-> | Hja].
      + now rewrite He.
      + apply Hn. lia.
    - destruct (Telegram.delivered rest).
      + replace (attempt + S (Telegram.attempts rest) - 1)
          with (S attempt + Telegram.attempts rest - 1) by lia. exact Hd.
      + destruct Hd as [Ha Hl]. split; [lia |].
        replace (attempt + S fuel - 1) with (S attempt + fuel - 1) by lia. exact Hl. }
  destruct (bot attempt) as [| | e] eqn:Eb.
  - cbn. repeat apply conj; try lia; try reflexivity.
    now replace (attempt + 1 - 1) with attempt by lia.
  - case_bool_decide as Hlt.
    + apply (Next Telegram.SendTimeout); [reflexivity | discriminate | reflexivity | lia].
    + apply (Last Telegram.SendTimeout); [reflexivity | discriminate | lia].
  - case_bool_decide as Hlt.
    + apply (Next (Telegram.SendFailed e)); [reflexivity | discriminate | reflexivity | lia].
    + apply (Last (Telegram.SendFailed e)); [reflexivity | discriminate | lia].
Qed.

Lemma send_error_loop_spec (max_retries : nat) (bot : nat -> Telegram.SendAttempt)
    (fuel attempt : nat) :
  attempt + fuel = max_retries -> 0 < fuel ->
  let s := Telegram.send_error_loop max_retries attempt fuel bot in
  let c := Telegram.send_comment_loop max_retries attempt fuel bot in
  Telegram.attempts s = Telegram.attempts c /\
  Telegram.delivered s = Telegram.delivered c /\
  Telegram.pauses s
  = map (fun a => Telegram.wait_after (bot a) a) (seq attempt (Telegram.attempts s - 1)).
Proof.
  revert attempt. induction fuel as [| fuel IH]; intros attempt Hsum Hpos; [lia |].
  cbn [Telegram.send_error_loop Telegram.send_comment_loop]. cbv zeta.
  assert (Next : forall e, bot attempt = e -> 0 < fuel ->
            let w := Telegram.wait_after e attempt in
            let s := Telegram.pause_then w
                       (Telegram.send_error_loop max_retries (S attempt) fuel bot) in
            let c := Telegram.pause_then w
                       (Telegram.send_comment_loop max_retries (S attempt) fuel bot) in
            Telegram.attempts s = Telegram.attempts c /\
            Telegram.delivered s = Telegram.delivered c /\
            Telegram.pauses s
            = map (fun a => Telegram.wait_after (bot a) a)
                  (seq attempt (Telegram.attempts s - 1))).
  { intros e He Hf w s c.
    destruct (IH (S attempt) ltac:(lia) Hf) as (Ha & Hd & Hp).
    destruct (send_comment_loop_spec max_retries bot fuel (S attempt) ltac:(lia) Hf)
      as (Hb & _).
    subst s c w. unfold Telegram.pause_then.
    cbn [Telegram.attempts Telegram.pauses Telegram.delivered].
    repeat apply conj; [congruence | exact Hd |].
    set (rest := Telegram.send_error_loop max_retries (S attempt) fuel bot) in *.
    replace (S (Telegram.attempts rest) - 1) with (S (Telegram.attempts rest - 1)) by lia.
    cbn [seq map]. rewrite He. now rewrite Hp. }
  destruct (bot attempt) as [| | e] eqn:Eb.
  - cbn. now repeat apply conj.
  - case_bool_decide as Hlt.
    + apply (Next Telegram.SendTimeout); [reflexivity | lia].
    + cbn. now repeat apply conj.
  - case_bool_decide as Hlt.
    + apply (Next (Telegram.SendFailed e)); [reflexivity | lia].
    + cbn. now repeat apply conj.
Qed.

(** X24 ([TelegramSender.send_comment], [TelegramSender.send_error]). Both
    make at most [max_retries] attempts and the same number of them; they
    deliver exactly when the bot is set and one of the first [max_retries]
    attempts succeeds; no attempt before the last one made has succeeded, so
    a message is never delivered twice; and an undelivered message has used
    all [max_retries] attempts. *)
Lemma telegram_send_stops_at_first_success (has_bot : bool) (max_retries : nat)
    (bot : nat -> Telegram.SendAttempt) :
  let s := Telegram.send_comment has_bot max_retries bot in
  let s' := Telegram.send_error has_bot max_retries bot in
  Telegram.attempts s <= max_retries /\
  Telegram.attempts s' = Telegram.attempts s /\
  Telegram.delivered s' = Telegram.delivered s /\
  (Telegram.delivered s = true <->
   has_bot = true /\ exists a, a < max_retries /\ bot a = Telegram.Delivered) /\
  (forall j, S j < Telegram.attempts s -> bot j <> Telegram.Delivered) /\
  (has_bot = true -> Telegram.delivered s = false -> Telegram.attempts s = max_retries).
Proof.
  cbv zeta. unfold Telegram.send_comment, Telegram.send_error.
  destruct has_bot.
  2:{ cbn. repeat apply conj; try lia; try reflexivity; try discriminate;
        try (intros [H _]; discriminate). }
  destruct max_retries as [| m].
  { cbn. repeat apply conj; try lia; try reflexivity; try discriminate;
      try (intros [_ (a & Ha & _)]; lia). }
  destruct (send_comment_loop_spec (S m) bot (S m) 0 eq_refl ltac:(lia))
    as (Hb & _ & Hn & Hd).
  destruct (send_error_loop_spec (S m) bot (S m) 0 eq_refl ltac:(lia))
    as (Ha & He & _).
  set (s := Telegram.send_comment_loop (S m) 0 (S m) bot) in *.
  repeat apply conj; [lia | exact Ha | exact He | | | | ].
  - intros Hdel. split; [reflexivity |]. rewrite Hdel in Hd.
    exists (0 + Telegram.attempts s - 1). split; [lia | exact Hd].
  - intros [_ (a & Ha' & Hsent)].
    destruct (Telegram.delivered s); [reflexivity | exfalso].
    destruct Hd as [Hall Hlast].
    destruct (decide (a = m)) as [-> | Hne].
    + apply Hlast. now replace (0 + S m - 1) with m by lia.
    + apply (Hn a); [lia | exact Hsent].
  - intros j Hj. apply Hn. lia.
  - intros _ Hdel. rewrite Hdel in Hd. apply Hd.
Qed.

Lemma telegram_send_stops_at_first_success_witness :
  let bot := fun a => match a with
                      | 0 => Telegram.SendTimeout
                      | 1 => Telegram.Delivered
                      | _ => Telegram.SendFailed "late"
                      end in
  Telegram.delivered (Telegram.send_comment true 3 bot) = true /\
  Telegram.attempts (Telegram.send_comment true 3 bot) = 2 /\
  Telegram.attempts (Telegram.send_comment true 3 (fun _ => Telegram.SendTimeout)) = 3.
Proof.
  cbv zeta. split; [| split].
  - apply (telegram_send_stops_at_first_success true 3
             (fun a => match a with
                       | 0 => Telegram.SendTimeout
                       | 1 => Telegram.Delivered
                       | _ => Telegram.SendFailed "late"
                       end)).
    split; [reflexivity |]. exists 1. split; [lia | reflexivity].
  - reflexivity.
  - apply (telegram_send_stops_at_first_success true 3 (fun _ => Telegram.SendTimeout));
      reflexivity.
Defined.

(** X25 ([TelegramSender.send_comment], [TelegramSender.send_error]). With
    the bot set and [max_retries] positive, the pauses of [send_error] are,
    in milliseconds, [2000 * (attempt + 1)] after each timed-out attempt and
    [1500 * (attempt + 1)] after each otherwise failed attempt but the last
    one made; [send_comment] makes the same pauses and then one more: 500
    after a delivery, 1000 after the last failure. *)
Lemma telegram_pause_schedule (max_retries : nat) (bot : nat -> Telegram.SendAttempt) :
  0 < max_retries ->
  let s := Telegram.send_comment true max_retries bot in
  let s' := Telegram.send_error true max_retries bot in
  Telegram.pauses s'
  = map (fun a => Telegram.wait_after (bot a) a) (seq 0 (Telegram.attempts s' - 1)) /\
  Telegram.pauses s
  = Telegram.pauses s' ++ [if Telegram.delivered s then 500 else 1000].
Proof.
  intros Hpos. cbv zeta. unfold Telegram.send_comment, Telegram.send_error.
  destruct (send_comment_loop_spec max_retries bot max_retries 0 eq_refl Hpos)
    as (_ & Hp & _).
  destruct (send_error_loop_spec max_retries bot max_retries 0 eq_refl Hpos)
    as (Ha & _ & Hp').
  split; [exact Hp' |]. rewrite Hp, Hp'. now rewrite Ha.
Qed.

Lemma telegram_pause_schedule_witness :
  let bot := fun a => match a with
                      | 0 => Telegram.SendTimeout
                      | 1 => Telegram.SendFailed "flood"
                      | _ => Telegram.Delivered
                      end in
  Telegram.pauses (Telegram.send_error true 3 bot) = [2000; 3000] /\
  Telegram.pauses (Telegram.send_comment true 3 bot) = [2000; 3000; 500].
Proof.
  cbv zeta.
  destruct (telegram_pause_schedule 3
              (fun a => match a with
                        | 0 => Telegram.SendTimeout
                        | 1 => Telegram.SendFailed "flood"
                        | _ => Telegram.Delivered
                        end) ltac:(lia)) as [H1 H2].
  split; [exact H1 | exact H2].
Defined.

(** ** The configured adapters *)

Lemma reddit_names (strip : string -> string) (client_id client_secret user_agent : string)
    (subreddits : list string) :
  map Config.source_name
      (omap (fun subreddit =>
               let subreddit := strip subreddit in
               if Config.nonempty subreddit
               then Some (Config.Reddit client_id client_secret user_agent subreddit)
               else None) subreddits)
  = map (fun x => "Reddit (r/" +:+ x +:+ ")")
        (filter (fun x => Config.nonempty x = true) (map strip subreddits)).
Proof.
  induction subreddits as [| x l IH]; [reflexivity |].
  cbn [omap list_omap map]. cbv zeta.
  rewrite filter_cons.
  destruct (Config.nonempty (strip x)) eqn:E.
  - rewrite decide_True by reflexivity. cbn [map Config.source_name].
    f_equal. exact IH.
  - rewrite decide_False by discriminate. exact IH.
Qed.

(** X26 ([CommentMonitor.get_configured_parsers] against the adapters'
    [is_configured]). Every YouTube and VK adapter the monitor polls is
    configured; a Reddit adapter it polls is configured exactly when the
    configured user agent is not empty, so that without one the monitor
    polls Reddit adapters that are not configured. *)
Lemma configured_parsers_are_configured (strip : string -> string) (s : Config.Settings)
    (a : Config.Adapter) :
  a ∈ Config.get_configured_parsers strip s ->
  Config.is_configured a
  = match a with
    | Config.Reddit _ _ _ _ => Config.nonempty (Config.reddit_user_agent s)
    | _ => true
    end.
Proof.
  unfold Config.get_configured_parsers.
  rewrite !elem_of_app. intros [H | [H | H]].
  - destruct (Config.youtube_enabled s && _ && _) eqn:E.
    + apply list_elem_of_singleton in H. subst a. cbn.
      apply andb_prop in E as [E E2]. apply andb_prop in E as [_ E1].
      now rewrite E1, E2.
    + inversion H.
  - destruct (Config.vk_enabled s && _ && _) eqn:E.
    + apply list_elem_of_singleton in H. subst a. cbn.
      apply andb_prop in E as [E E2]. apply andb_prop in E as [_ E1].
      now rewrite E1, E2.
    + inversion H.
  - destruct (Config.reddit_enabled s && _ && _) eqn:E.
    + apply list_elem_of_omap in H as (x & _ & Hx). cbv zeta in Hx.
      destruct (Config.nonempty (strip x)) eqn:Ex; [| discriminate].
      injection Hx as Hx. subst a. cbn.
      apply andb_prop in E as [E E2]. apply andb_prop in E as [_ E1].
      rewrite E1, E2, Ex. cbn. now rewrite andb_true_r.
    + inversion H.
Qed.

Lemma configured_parsers_are_configured_witness :
  let s := {| Config.youtube_enabled := true; Config.youtube_api_key := "key";
              Config.youtube_channel_id := "UC1";
              Config.vk_enabled := false; Config.vk_access_token := EmptyString;
              Config.vk_group_id := EmptyString; Config.vk_group_url := EmptyString;
              Config.reddit_enabled := true; Config.reddit_client_id := "id";
              Config.reddit_client_secret := "secret";
              Config.reddit_user_agent := EmptyString;
              Config.reddit_subreddits := ["python"] |} in
  Config.Reddit "id" "secret" EmptyString "python"
    ∈ Config.get_configured_parsers (fun x => x) s /\
  Config.is_configured (Config.Reddit "id" "secret" EmptyString "python") = false.
Proof.
  cbv zeta.
  assert (H : Config.Reddit "id" "secret" EmptyString "python"
              ∈ Config.get_configured_parsers (fun x => x)
                  {| Config.youtube_enabled := true; Config.youtube_api_key := "key";
                     Config.youtube_channel_id := "UC1";
                     Config.vk_enabled := false; Config.vk_access_token := EmptyString;
                     Config.vk_group_id := EmptyString; Config.vk_group_url := EmptyString;
                     Config.reddit_enabled := true; Config.reddit_client_id := "id";
                     Config.reddit_client_secret := "secret";
                     Config.reddit_user_agent := EmptyString;
                     Config.reddit_subreddits := ["python"] |}).
  { vm_compute. apply list_elem_of_further, list_elem_of_here. }
  split; [exact H |].
  exact (configured_parsers_are_configured _ _ _ H).
Defined.

(** X27 ([CommentMonitor.get_configured_parsers], the adapters' constructors).
    When the non-empty stripped subreddit names are pairwise distinct, the
    adapters the monitor polls have pairwise distinct source names, the keys
    of its stored batches and of its statistics. *)
Lemma configured_parser_names_distinct (strip : string -> string) (s : Config.Settings) :
  NoDup (filter (fun x => Config.nonempty x = true)
                (map strip (Config.reddit_subreddits s))) ->
  NoDup (map Config.source_name (Config.get_configured_parsers strip s)).
Proof.
  intros Hsubs. unfold Config.get_configured_parsers.
  set (reddit := if Config.reddit_enabled s && _ && _ then _ else _).
  assert (Hr : NoDup (map Config.source_name reddit) /\
               forall n, n ∈ map Config.source_name reddit ->
                         exists x, n = "Reddit (r/" +:+ x +:+ ")").
  { subst reddit. destruct (Config.reddit_enabled s && _ && _).
    - rewrite reddit_names. split.
      + assert (Hinj : Inj eq eq (fun x => "Reddit (r/" +:+ x +:+ ")")).
        { intros x y Hxy. apply append_inj_l in Hxy. now apply append_inj_r in Hxy. }
        apply (NoDup_fmap_2 _), Hsubs.
      + intros n Hn. apply list_elem_of_fmap in Hn as (x & -> & _). now exists x.
    - split; [constructor | intros n Hn; inversion Hn]. }
  destruct Hr as [Hnd Hshape].
  rewrite !map_app. apply NoDup_app. repeat apply conj.
  - destruct (Config.youtube_enabled s && _ && _); cbn; [apply NoDup_singleton | constructor].
  - intros n Hy Hrest.
    destruct (Config.youtube_enabled s && _ && _); cbn in Hy; [| inversion Hy].
    apply list_elem_of_singleton in Hy. subst n.
    apply elem_of_app in Hrest as [Hv | Hx].
    + destruct (Config.vk_enabled s && _ && _); cbn in Hv; [| inversion Hv].
      apply list_elem_of_singleton in Hv. discriminate.
    + apply Hshape in Hx as [x Hx]. discriminate.
  - apply NoDup_app. repeat apply conj.
    + destruct (Config.vk_enabled s && _ && _); cbn; [apply NoDup_singleton | constructor].
    + intros n Hv Hx.
      destruct (Config.vk_enabled s && _ && _); cbn in Hv; [| inversion Hv].
      apply list_elem_of_singleton in Hv. subst n.
      apply Hshape in Hx as [x Hx]. discriminate.
    + exact Hnd.
Qed.

Lemma configured_parser_names_distinct_witness :
  let s := {| Config.youtube_enabled := true; Config.youtube_api_key := "key";
              Config.youtube_channel_id := "UC1";
              Config.vk_enabled := true; Config.vk_access_token := "token";
              Config.vk_group_id := "1"; Config.vk_group_url := EmptyString;
              Config.reddit_enabled := true; Config.reddit_client_id := "id";
              Config.reddit_client_secret := "secret";
              Config.reddit_user_agent := "agent";
              Config.reddit_subreddits := ["python"; EmptyString; "rust"] |} in
  map Config.source_name (Config.get_configured_parsers (fun x => x) s)
  = ["YouTube"; "VK"; "Reddit (r/python)"; "Reddit (r/rust)"] /\
  NoDup (map Config.source_name (Config.get_configured_parsers (fun x => x) s)).
Proof.
  cbv zeta. split; [reflexivity |].
  apply (configured_parser_names_distinct (fun x => x)).
  apply (bool_decide_unpack _). vm_compute. exact I.
Defined.
